(** * The ledger core of blockchain-voting: blocks, the chain and fork handling

    A shallow embedding of [src/blockchain/block.py], [src/blockchain/chain.py]
    and [src/blockchain/fork_handler.py], followed by the properties of the
    chain operations: block validation, chain replacement, single-block
    reconciliation, longest-chain fork resolution, common ancestors, chain
    work and block synchronisation.

    Conventions of the embedding.
    - Python [int]s are [Z]; list lengths are [Z.of_nat (length l)].
    - Python strings are [string]; slices and subscripts follow Python's
      rules, including negative arguments.
    - A method that reads and writes [self] takes the object and returns the
      object after the call next to its result.
    - What a method can do besides returning (raise, or never leave a
      [while] loop) is an [outcome]; a method of the chain that fails leaves
      the object as it was when the failure happened.
    - [hashlib.sha256] over [json.dumps] is a library function: the
      development is parametric in it (and in the representation of the
      float timestamps, which the ledger only stores and hashes). *)

From Stdlib Require Import ZArith Lia Bool String Ascii.
From stdpp Require Import base tactics option list.

Local Open Scope string_scope.
Local Open Scope Z_scope.

(** ** Python values *)

(** Payloads ([data: Any]) are JSON-shaped: what [json.dumps] accepts. *)
#[warnings="-register-all"]
Inductive json : Type :=
  | JNull
  | JBool (b : bool)
  | JNum (n : Z)
  | JStr (s : string)
  | JList (items : list json)
  | JDict (entries : list (string * json)).

(** Exceptions the modelled methods can raise. *)
Inductive exn : Type :=
  | IndexError.

(** The result of running a method: it returns, it raises, or the model's
    fuel ran out inside a [while] loop. *)
Inductive outcome (A : Type) : Type :=
  | Return (a : A)
  | Raise (e : exn)
  | OutOfFuel.

Arguments Return {A} a.
Arguments Raise {A} e.
Arguments OutOfFuel {A}.

Definition bind {A B : Type} (m : outcome A) (k : A -> outcome B) : outcome B :=
  match m with
  | Return a => k a
  | Raise e => Raise e
  | OutOfFuel => OutOfFuel
  end.

Notation "'let!' x ':=' m 'in' k" := (bind m (fun x => k))
  (at level 10, x name, m at level 100, k at level 200).

(** The same for a method that owns an object of type [S]: when [m] fails,
    the method fails and its object stays [s]. *)
Definition bind_at {S A B : Type} (s : S) (m : outcome A)
    (k : A -> outcome B * S) : outcome B * S :=
  match m with
  | Return a => k a
  | Raise e => (Raise e, s)
  | OutOfFuel => (OutOfFuel, s)
  end.

Notation "'let!' x ':=' m 'leaving' s 'in' k" := (bind_at s m (fun x => k))
  (at level 10, x name, m at level 100, s at level 9, k at level 200).

(** [len(l)] *)
Definition len {A : Type} (l : list A) : Z := Z.of_nat (length l).

(** [l[i]]: a negative subscript counts from the end; out of range raises. *)
Definition py_index {A : Type} (l : list A) (i : Z) : outcome A :=
  let j := if i <? 0 then len l + i else i in
  if (0 <=? j) && (j <? len l) then
    match l !! Z.to_nat j with
    | Some x => Return x
    | None => Raise IndexError
    end
  else Raise IndexError.

(** [l[:n]] *)
Definition py_take {A : Type} (l : list A) (n : Z) : list A :=
  if n <? 0 then take (Z.to_nat (len l + n)) l else take (Z.to_nat n) l.

(** [l[n:]] *)
Definition py_drop {A : Type} (l : list A) (n : Z) : list A :=
  if n <? 0 then drop (Z.to_nat (len l + n)) l else drop (Z.to_nat n) l.

(** The first [n] characters of [s] (all of [s] when it is shorter). *)
Fixpoint str_take (n : nat) (s : string) : string :=
  match n, s with
  | S n', String c s' => String c (str_take n' s')
  | _, _ => EmptyString
  end.

(** [s[:n]] *)
Definition py_prefix (s : string) (n : Z) : string :=
  if n <? 0 then str_take (Z.to_nat (Z.of_nat (String.length s) + n)) s
  else str_take (Z.to_nat n) s.

Fixpoint zeros (n : nat) : string :=
  match n with
  | O => EmptyString
  | S n' => String "0" (zeros n')
  end.

(** ['0' * n]: the empty string when [n <= 0]. *)
Definition py_zeros (n : Z) : string := zeros (Z.to_nat n).

(** The number of leading ['0'] characters of a hash. *)
Fixpoint leading_zeros (s : string) : nat :=
  match s with
  | String c s' => if Ascii.eqb c "0" then S (leading_zeros s') else O
  | EmptyString => O
  end.

(** The test of [mine_block]'s loop and of [is_valid_block]:
    [hash[:difficulty] == '0' * difficulty]. *)
Definition meets_difficulty (difficulty : Z) (h : string) : bool :=
  String.eqb (py_prefix h difficulty) (py_zeros difficulty).

(** ** Payloads read as Python values *)

(** [detect_double_spending] and the voting layer look into the payloads
    with [in], subscripts, [for] and [==]. A payload is a JSON-shaped value;
    the entries of a dict have distinct keys, and a lookup takes the first
    entry of a key. The readings of a clock that the miner and the voting
    layer put in a payload are never looked into. These operations raise
    [TypeError] and [KeyError], never [IndexError]. *)
Inductive py_error : Type :=
  | TypeError
  | KeyError.

Inductive attempt (A : Type) : Type :=
  | Done (a : A)
  | Failed (e : py_error).

Arguments Done {A} a.
Arguments Failed {A} e.

Definition attempt_bind {A B : Type} (m : attempt A) (k : A -> attempt B)
    : attempt B :=
  match m with
  | Done a => k a
  | Failed e => Failed e
  end.

Notation "'try!' x ':=' m 'in' k" := (attempt_bind m (fun x => k))
  (at level 10, x name, m at level 100, k at level 200).

(** The value of [key] in a dict, [None] when it has no such key. *)
Fixpoint dict_get (key : string) (entries : list (string * json))
    : option json :=
  match entries with
  | [] => None
  | (k, v) :: rest => if String.eqb k key then Some v else dict_get key rest
  end.

(** [x == y]: [True] and [False] are the numbers 1 and 0; lists are equal
    item by item, dicts when they bind the same keys to equal values. *)
Fixpoint py_eqb (x y : json) {struct x} : bool :=
  match x, y with
  | JNull, JNull => true
  | JBool a, JBool b => Bool.eqb a b
  | JBool a, JNum n => Z.b2z a =? n
  | JNum n, JBool b => n =? Z.b2z b
  | JNum n, JNum m => n =? m
  | JStr s, JStr t => String.eqb s t
  | JList xs, JList ys =>
      (fix items (xs ys : list json) {struct xs} : bool :=
         match xs, ys with
         | [], [] => true
         | x' :: xs', y' :: ys' => py_eqb x' y' && items xs' ys'
         | _, _ => false
         end) xs ys
  | JDict ex, JDict ey =>
      Nat.eqb (length ex) (length ey)
      && forallb (fun kv => match dict_get (fst kv) ey with
                            | Some v' => py_eqb (snd kv) v'
                            | None => false
                            end) ex
  | _, _ => false
  end.

(** [needle in hay] for two strings. *)
Fixpoint occurs (needle hay : string) : bool :=
  String.prefix needle hay
  || match hay with
     | EmptyString => false
     | String _ rest => occurs needle rest
     end.

(** [key in container] for a string [key]: a key of a dict, an item of a
    list, a part of a string; anything else is not iterable. *)
Definition contains (key : string) (container : json) : attempt bool :=
  match container with
  | JDict entries =>
      Done (match dict_get key entries with Some _ => true | None => false end)
  | JList items => Done (existsb (fun item => py_eqb item (JStr key)) items)
  | JStr s => Done (occurs key s)
  | _ => Failed TypeError
  end.

(** [container[key]] for a string [key]: only a dict takes one. *)
Definition subscript (container : json) (key : string) : attempt json :=
  match container with
  | JDict entries =>
      match dict_get key entries with
      | Some v => Done v
      | None => Failed KeyError
      end
  | _ => Failed TypeError
  end.

(** What [for x in container] runs through: the items of a list, the keys
    of a dict, the characters of a string. *)
Definition iterate (container : json) : attempt (list json) :=
  match container with
  | JList items => Done items
  | JDict entries => Done (map (fun kv => JStr (fst kv)) entries)
  | JStr s =>
      Done (map (fun ch => JStr (String ch EmptyString)) (list_ascii_of_string s))
  | _ => Failed TypeError
  end.

(** Lists and dicts cannot be keys of a dict. *)
Definition hashable (x : json) : bool :=
  match x with
  | JList _ | JDict _ => false
  | _ => true
  end.


(** ** block.py *)

Section Model.

Context {Timestamp : Type}.

(** [hashlib.sha256(json.dumps({...}, sort_keys=True).encode('utf-8')).hexdigest()]
    as a function of the five hashed fields: index, timestamp, data,
    previous_hash, nonce. *)
Variable digest : Z -> Timestamp -> json -> string -> Z -> string.

Record Block : Type := mkBlock {
  index : Z;
  timestamp : Timestamp;
  data : json;
  previous_hash : string;
  nonce : Z;
  hash : string
}.

Definition calculate_hash (b : Block) : string :=
  digest (index b) (timestamp b) (data b) (previous_hash b) (nonce b).

Definition set_hash (b : Block) (h : string) : Block :=
  mkBlock (index b) (timestamp b) (data b) (previous_hash b) (nonce b) h.

Definition set_nonce (b : Block) (n : Z) : Block :=
  mkBlock (index b) (timestamp b) (data b) (previous_hash b) n (hash b).

(** ['0' * 64], the previous-hash of a genesis block. *)
Definition genesis_previous_hash : string := py_zeros 64.

(** [data if data is not None else []] *)
Definition data_or_empty (d : json) : json :=
  match d with
  | JNull => JList []
  | _ => d
  end.

(** [Block.__init__] with a timestamp, a previous hash and a nonce given
    ([now] is the [time.time()] default of the callers below); a payload
    that is [None] becomes the empty list. The hash is computed last, over
    the payload as stored. *)
Definition Block_init (idx : Z) (ts : Timestamp) (d : json)
    (prev : string) (n : Z) : Block :=
  let b := mkBlock idx ts (data_or_empty d) prev n EmptyString in
  set_hash b (calculate_hash b).

(** [mine_block]: [while self.hash[:difficulty] != target], one more nonce.
    [fuel] bounds the number of iterations of the loop. *)
Fixpoint mine_block (fuel : nat) (difficulty : Z) (b : Block) : outcome Block :=
  if meets_difficulty difficulty (hash b) then Return b
  else
    match fuel with
    | O => OutOfFuel
    | S fuel' =>
        let b1 := set_nonce b (nonce b + 1) in
        mine_block fuel' difficulty (set_hash b1 (calculate_hash b1))
    end.

(** A dictionary with the six keys [to_dict] writes. [from_dict] raises
    [KeyError] on a dictionary that lacks one; such a dictionary is not a
    block record and is outside this type. *)
Record BlockDict : Type := mkBlockDict {
  d_index : Z;
  d_timestamp : Timestamp;
  d_data : json;
  d_previous_hash : string;
  d_nonce : Z;
  d_hash : string
}.

Definition to_dict (b : Block) : BlockDict :=
  mkBlockDict (index b) (timestamp b) (data b) (previous_hash b) (nonce b) (hash b).

(** [from_dict]: the constructor stores the fields, a payload [None] as the
    empty list, and computes a hash; the stored hash replaces it. *)
Definition from_dict (bd : BlockDict) : Block :=
  let block := Block_init (d_index bd) (d_timestamp bd) (d_data bd)
                          (d_previous_hash bd) (d_nonce bd) in
  set_hash block (d_hash bd).

Definition is_valid (b : Block) : bool :=
  String.eqb (hash b) (calculate_hash b).

(** ** chain.py *)

Record Blockchain : Type := mkBlockchain {
  chain : list Block;
  difficulty : Z;
  pending_data : list json
}.

Definition set_chain (s : Blockchain) (c : list Block) : Blockchain :=
  mkBlockchain c (difficulty s) (pending_data s).

Definition genesis_data : json := JDict [("message", JStr "Genesis Block")].

(** [__init__] with [_create_genesis_block]; [now] is its [time.time()]. *)
Definition Blockchain_init (fuel : nat) (d : Z) (now : Timestamp)
    : outcome Blockchain :=
  let! genesis_block :=
    mine_block fuel d (Block_init 0 now genesis_data genesis_previous_hash 0) in
  Return (mkBlockchain [genesis_block] d []).

(** [self.chain[-1]] *)
Definition latest_block (s : Blockchain) : outcome Block :=
  py_index (chain s) (-1).

Definition add_data (s : Blockchain) (d : json) : Blockchain :=
  mkBlockchain (chain s) (difficulty s) (pending_data s ++ [d]).

Definition is_valid_block (s : Blockchain) (block previous_block : Block) : bool :=
  if negb (index block =? index previous_block + 1) then false
  else if negb (String.eqb (previous_hash block) (hash previous_block)) then false
  else if negb (String.eqb (hash block) (calculate_hash block)) then false
  else if negb (meets_difficulty (difficulty s) (hash block)) then false
  else true.

(** The loop [for i in range(1, len(chain))] of [is_valid_chain], entered
    with [previous] the block at [i-1] and [rest] the blocks from [i] on. *)
Fixpoint valid_from (s : Blockchain) (previous : Block) (rest : list Block) : bool :=
  match rest with
  | [] => true
  | block :: rest' =>
      if negb (is_valid_block s block previous) then false
      else valid_from s block rest'
  end.

Definition is_valid_chain (s : Blockchain) (c : list Block) : bool :=
  match c with
  | [] => false
  | genesis :: rest => valid_from s genesis rest
  end.

(** [mine_pending_data]; [now] is the [time.time()] of the new block. *)
Definition mine_pending_data (fuel : nat) (now : Timestamp) (s : Blockchain)
    (miner_address : string) : outcome (option Block) * Blockchain :=
  match pending_data s with
  | [] => (Return None, s)
  | _ :: _ =>
      let! latest := latest_block s leaving s in
      let new_block :=
        Block_init (len (chain s)) now
          (JDict [("transactions", JList (pending_data s));
                  ("miner", JStr miner_address)])
          (hash latest) 0 in
      let! mined := mine_block fuel (difficulty s) new_block leaving s in
      (Return (Some mined), mkBlockchain (chain s ++ [mined]) (difficulty s) [])
  end.

Definition add_block (s : Blockchain) (block : Block) : outcome bool * Blockchain :=
  let! latest := latest_block s leaving s in
  if negb (is_valid_block s block latest) then (Return false, s)
  else (Return true, set_chain s (chain s ++ [block])).

Definition replace_chain (s : Blockchain) (new_chain : list Block)
    : bool * Blockchain :=
  if len new_chain <=? len (chain s) then (false, s)
  else if negb (is_valid_chain s new_chain) then (false, s)
  else (true, set_chain s new_chain).

Definition fork_detection_and_resolution (s : Blockchain) (received_block : Block)
    : outcome (bool * string) * Blockchain :=
  if index received_block <? len (chain s) then
    let! existing_block := py_index (chain s) (index received_block) leaving s in
    if String.eqb (hash existing_block) (hash received_block) then
      (Return (false, "Block already exists in our chain"), s)
    else if index received_block =? 0 then
      (Return (false, "Genesis block conflict, keeping our chain"), s)
    else
      let! predecessor := py_index (chain s) (index received_block - 1) leaving s in
      if String.eqb (previous_hash received_block) (hash predecessor) then
        (Return (false, "Fork detected, need full chain comparison"), s)
      else
        (Return (false, "Unknown state in fork resolution"), s)
  else if index received_block =? len (chain s) then
    let! latest := latest_block s leaving s in
    if is_valid_block s received_block latest then
      (Return (true, "Block added to chain"),
       set_chain s (chain s ++ [received_block]))
    else
      (Return (false, "Invalid next block"), s)
  else
    (Return (false, "Need to sync blocks"), s).

(** ** fork_handler.py

    A [ForkHandler] holds one [Blockchain] and nothing else: its methods take
    that [Blockchain] in the place of [self]. *)

(** The loop [for i in range(1, len(candidate_chain))] of [resolve_fork]:
    each block is checked against [temp_blockchain.latest_block] and then
    appended to [temp_blockchain.chain]. *)
Fixpoint validate_rest (temp_blockchain : Blockchain) (rest : list Block)
    : outcome bool :=
  match rest with
  | [] => Return true
  | block :: rest' =>
      let! latest := latest_block temp_blockchain in
      if negb (is_valid_block temp_blockchain block latest) then Return false
      else validate_rest
             (set_chain temp_blockchain (chain temp_blockchain ++ [block])) rest'
  end.

(** The validation of one candidate in [resolve_fork]. The scratch
    [Blockchain] is built by the constructor, which mines a genesis block
    stamped [now] before that block is thrown away. *)
Definition validate_candidate (fuel : nat) (now : Timestamp) (s : Blockchain)
    (candidate_chain : list Block) : outcome bool :=
  let! fresh := Blockchain_init fuel (difficulty s) now in
  let temp_blockchain := set_chain fresh [] in
  let! first := py_index candidate_chain 0 in
  if negb (index first =? 0)
     || negb (String.eqb (previous_hash first) genesis_previous_hash)
  then Return false
  else
    validate_rest (set_chain temp_blockchain (chain temp_blockchain ++ [first]))
                  (py_drop candidate_chain 1).

(** The loop over [competing_chains]; [clock k] is the time read while the
    candidate at position [k] of the list is validated. *)
Fixpoint resolve_fork_loop (fuel : nat) (clock : nat -> Timestamp) (k : nat)
    (s : Blockchain) (competing_chains : list (list BlockDict))
    (longest_valid_chain : option (list Block)) (longest_chain_length : Z)
    : outcome (option (list Block)) :=
  match competing_chains with
  | [] => Return longest_valid_chain
  | chain_data :: more =>
      if len chain_data <=? longest_chain_length then
        resolve_fork_loop fuel clock (S k) s more
          longest_valid_chain longest_chain_length
      else
        let candidate_chain := map from_dict chain_data in
        let! valid_chain := validate_candidate fuel (clock k) s candidate_chain in
        if valid_chain && (longest_chain_length <? len candidate_chain) then
          resolve_fork_loop fuel clock (S k) s more
            (Some candidate_chain) (len candidate_chain)
        else
          resolve_fork_loop fuel clock (S k) s more
            longest_valid_chain longest_chain_length
  end.

(** [resolve_fork]; the final test [if longest_valid_chain:] holds for a
    list that is not empty. *)
Definition resolve_fork (fuel : nat) (clock : nat -> Timestamp) (s : Blockchain)
    (competing_chains : list (list BlockDict)) : outcome bool * Blockchain :=
  let our_chain_dict := map to_dict (chain s) in
  let! longest_valid_chain :=
    resolve_fork_loop fuel clock O s competing_chains None (len our_chain_dict)
    leaving s in
  match longest_valid_chain with
  | Some (b :: rest) => (Return true, set_chain s (b :: rest))
  | _ => (Return false, s)
  end.

(** The loop [for i in range(min_length)] of [find_common_ancestor], entered
    at [i] with the blocks of both chains from position [i] on; it runs out
    when the shorter chain does. *)
Fixpoint common_ancestor_loop (i : Z) (ours theirs : list Block) (min_length : Z) : Z :=
  match ours, theirs with
  | a :: ours', b :: theirs' =>
      if negb (String.eqb (hash a) (hash b)) then
        if i =? 0 then -1 else i - 1
      else common_ancestor_loop (i + 1) ours' theirs' min_length
  | _, _ => min_length - 1
  end.

Definition find_common_ancestor (s : Blockchain) (competing_chain : list Block) : Z :=
  let min_length := Z.min (len (chain s)) (len competing_chain) in
  common_ancestor_loop 0 (chain s) competing_chain min_length.

(** The inner loop of [_calculate_chain_work]: [for char in block.hash],
    counting until the first character that is not ['0']. *)
Fixpoint count_leading_zeros (leading : Z) (h : string) : Z :=
  match h with
  | EmptyString => leading
  | String char rest =>
      if Ascii.eqb char "0" then count_leading_zeros (leading + 1) rest
      else leading
  end.

Definition _calculate_chain_work (chain_segment : list Block) : Z :=
  fold_left
    (fun total_work block => total_work + 16 ^ count_leading_zeros 0 (hash block))
    chain_segment 0.

(** The messages of [sync_missing_blocks], with the numbers their f-strings
    print. *)
Inductive sync_message : Type :=
  | Invalid_sync_index
  | Invalid_block_during_sync (i : Z)
  | Synced_blocks (n : Z)
  | No_common_ancestor_found
  | Chain_replaced_after_fork (common_ancestor : Z)
  | Our_chain_has_more_work.

(** The loop [for i in range(sync_from_index, len(competing_chain))] of
    [sync_missing_blocks], entered at [i] with [todo] rounds left. *)
Fixpoint sync_append_loop (s : Blockchain) (competing_chain : list Block)
    (sync_from_index i : Z) (todo : nat)
    : outcome (bool * sync_message) * Blockchain :=
  match todo with
  | O => (Return (true, Synced_blocks (len competing_chain - sync_from_index)), s)
  | S todo' =>
      let! accepted :=
        (if i =? 0 then Return true
         else
           let! block := py_index competing_chain i in
           let! previous := py_index competing_chain (i - 1) in
           Return (is_valid_block s block previous))
        leaving s in
      if accepted then
        let! block := py_index competing_chain i leaving s in
        sync_append_loop (set_chain s (chain s ++ [block])) competing_chain
          sync_from_index (i + 1) todo'
      else
        (Return (false, Invalid_block_during_sync i),
         set_chain s (py_take (chain s) sync_from_index))
  end.

Definition sync_missing_blocks (s : Blockchain) (competing_chain : list Block)
    (sync_from_index : Z) : outcome (bool * sync_message) * Blockchain :=
  if (sync_from_index <? 0) || (len competing_chain <=? sync_from_index) then
    (Return (false, Invalid_sync_index), s)
  else if len (chain s) <=? sync_from_index then
    sync_append_loop s competing_chain sync_from_index sync_from_index
      (Z.to_nat (len competing_chain - sync_from_index))
  else
    let common_ancestor :=
      find_common_ancestor s (py_take competing_chain (sync_from_index + 1)) in
    if common_ancestor =? -1 then (Return (false, No_common_ancestor_found), s)
    else
      let our_chain_work :=
        _calculate_chain_work (py_drop (chain s) (common_ancestor + 1)) in
      let competing_chain_work :=
        _calculate_chain_work (py_drop competing_chain (common_ancestor + 1)) in
      if our_chain_work <? competing_chain_work then
        (Return (true, Chain_replaced_after_fork common_ancestor),
         set_chain s (py_take (chain s) (common_ancestor + 1)
                      ++ py_drop competing_chain (common_ancestor + 1)))
      else
        (Return (false, Our_chain_has_more_work), s).

(** ** chain.py: the remaining methods *)

(** The loop of [resolve_conflicts]: every candidate is offered to
    [replace_chain] in turn, on the chain as the earlier ones left it. *)
Fixpoint resolve_conflicts_loop (s : Blockchain)
    (chains : list (list BlockDict)) (replaced : bool) : bool * Blockchain :=
  match chains with
  | [] => (replaced, s)
  | chain_data :: more =>
      let candidate_chain := map from_dict chain_data in
      let attempt := replace_chain s candidate_chain in
      if fst attempt then resolve_conflicts_loop (snd attempt) more true
      else resolve_conflicts_loop (snd attempt) more replaced
  end.

Definition resolve_conflicts (s : Blockchain) (chains : list (list BlockDict))
    : bool * Blockchain :=
  resolve_conflicts_loop s chains false.

(** [Blockchain.to_dict] *)
Definition Blockchain_to_dict (s : Blockchain) : list BlockDict :=
  map to_dict (chain s).

(** [Blockchain.from_dict]: the constructor runs first (and mines a genesis
    block stamped [now]), its chain is emptied, and the records are
    appended one by one as they are. *)
Definition Blockchain_from_dict (fuel : nat) (now : Timestamp)
    (chain_dict : list BlockDict) (d : Z) : outcome Blockchain :=
  let! blockchain := Blockchain_init fuel d now in
  Return (fold_left
            (fun bc block_dict => set_chain bc (chain bc ++ [from_dict block_dict]))
            chain_dict (set_chain blockchain [])).

Definition get_chain_length (s : Blockchain) : Z := len (chain s).

Definition get_block_by_index (s : Blockchain) (i : Z) : outcome (option Block) :=
  if (0 <=? i) && (i <? len (chain s)) then
    let! block := py_index (chain s) i in Return (Some block)
  else Return None.

(** The loop [for block in self.chain] of [get_block_by_hash]. *)
Fixpoint find_by_hash (blocks : list Block) (hash_value : string) : option Block :=
  match blocks with
  | [] => None
  | block :: rest =>
      if String.eqb (hash block) hash_value then Some block
      else find_by_hash rest hash_value
  end.

Definition get_block_by_hash (s : Blockchain) (hash_value : string) : option Block :=
  find_by_hash (chain s) hash_value.

(** ** fork_handler.py: the remaining methods *)

(** The messages of [detect_fork], with the numbers their f-strings print. *)
Inductive fork_message : Type :=
  | Peer_is_ahead_by (blocks : Z)
  | Block_already_in_chain
  | Fork_detected_at_index (i : Z)
  | Valid_next_block
  | Invalid_next_block_possible_fork
  | Fork_detected_different_previous_hash
  | Unknown_state.

(** [detect_fork] reads the chain and does not write it. *)
Definition detect_fork (s : Blockchain) (received_block : Block)
    : outcome (bool * fork_message * bool) :=
  if len (chain s) <? index received_block then
    Return (true, Peer_is_ahead_by (index received_block - len (chain s)), true)
  else if index received_block <? len (chain s) then
    let! existing_block := py_index (chain s) (index received_block) in
    if String.eqb (hash existing_block) (hash received_block) then
      Return (false, Block_already_in_chain, false)
    else
      Return (true, Fork_detected_at_index (index received_block), true)
  else if index received_block =? len (chain s) then
    let! latest := latest_block s in
    if String.eqb (previous_hash received_block) (hash latest) then
      let! latest_again := latest_block s in
      if is_valid_block s received_block latest_again then
        Return (false, Valid_next_block, false)
      else
        Return (true, Invalid_next_block_possible_fork, true)
    else
      Return (true, Fork_detected_different_previous_hash, true)
  else
    Return (false, Unknown_state, false).

Definition get_blocks_after_fork (s : Blockchain) (fork_point : Z) : list Block :=
  if (fork_point <? 0) || (len (chain s) - 1 <=? fork_point) then []
  else py_drop (chain s) (fork_point + 1).

Definition handle_received_block (s : Blockchain) (received_block : Block)
    : outcome (bool * string) * Blockchain :=
  if index received_block =? len (chain s) then
    let! latest := latest_block s leaving s in
    if is_valid_block s received_block latest then
      (Return (true, "Block added to chain"),
       set_chain s (chain s ++ [received_block]))
    else
      (Return (false, "Invalid block"), s)
  else if index received_block <? len (chain s) then
    let! existing_block := py_index (chain s) (index received_block) leaving s in
    if String.eqb (hash existing_block) (hash received_block) then
      (Return (true, "Block already in chain"), s)
    else
      (Return (false, "Fork detected, need full chain sync"), s)
  else
    (Return (false, "Peer chain is ahead, need to sync"), s).

(** ** mining.py: the blocking miner

    A [Miner] holds the chain it mines for, an address, a difficulty of its
    own and a callback. The chain is passed next to it. The methods that
    run on the mining thread and watch the stop event are not modelled. *)

(** A clock reading stored in a payload: the float under the key
    ["timestamp"] of the block data. *)
Variable payload_of_time : Timestamp -> json.

Record Miner : Type := mkMiner {
  miner_address : string;
  miner_difficulty : Z;
  on_block_mined : option (Block -> Blockchain -> outcome unit * Blockchain)
}.

(** [Miner.__init__]: the difficulty of the chain unless one is given. *)
Definition Miner_init (s : Blockchain) (address : string) (d : option Z)
    (callback : option (Block -> Blockchain -> outcome unit * Blockchain))
    : Miner :=
  mkMiner address (match d with Some d' => d' | None => difficulty s end) callback.

(** [_create_block]: [data_time] is the clock reading put in the payload,
    [block_time] the one the constructor of the block takes after it. *)
Definition _create_block (m : Miner) (s : Blockchain)
    (data_time block_time : Timestamp) : outcome Block :=
  let payload :=
    JDict [("transactions", JList (pending_data s));
           ("miner", JStr (miner_address m));
           ("timestamp", payload_of_time data_time)] in
  let! latest := latest_block s in
  Return (Block_init (len (chain s)) block_time payload (hash latest) 0).

(** [mine_single_block]: the nonce search is the loop of [mine_block], at
    the miner's difficulty. *)
Definition mine_single_block (fuel : nat) (data_time block_time : Timestamp)
    (m : Miner) (s : Blockchain) : outcome (option Block) * Blockchain :=
  match pending_data s with
  | [] => (Return None, s)
  | _ :: _ =>
      let! block := _create_block m s data_time block_time leaving s in
      let! mined := mine_block fuel (miner_difficulty m) block leaving s in
      let appended := mkBlockchain (chain s ++ [mined]) (difficulty s) [] in
      match on_block_mined m with
      | Some callback =>
          let called := callback mined appended in
          let! done := fst called leaving (snd called) in
          (Return (Some mined), snd called)
      | None => (Return (Some mined), appended)
      end
  end.


(** ** [ForkHandler.detect_double_spending] *)

(** What [our_transactions] keeps of the first vote of a voter. *)
Record first_vote : Type := mkFirstVote {
  vote : json;
  block_index : Z;
  block_hash : string
}.

(** [our_transactions]: the voters in the order they were entered. *)
Fixpoint votes_get (voter_id : json) (our_transactions : list (json * first_vote))
    : option first_vote :=
  match our_transactions with
  | [] => None
  | (k, v) :: rest =>
      if py_eqb k voter_id then Some v else votes_get voter_id rest
  end.

(** [our_transactions.get(voter_id)], as [voter_id in our_transactions]
    followed by [our_transactions[voter_id]] finds it: the key is hashed. *)
Definition votes_lookup (voter_id : json)
    (our_transactions : list (json * first_vote))
    : attempt (option first_vote) :=
  if hashable voter_id then Done (votes_get voter_id our_transactions)
  else Failed TypeError.

(** ['voter_id' in tx and 'vote' in tx] *)
Definition is_vote (tx : json) : attempt bool :=
  try! has_voter := contains "voter_id" tx in
  if has_voter then contains "vote" tx else Done false.

(** The inner loop of the first scan, over the transactions of [block]. *)
Fixpoint record_votes (block : Block) (txs : list json)
    (our_transactions : list (json * first_vote))
    : attempt (list (json * first_vote)) :=
  match txs with
  | [] => Done our_transactions
  | tx :: rest =>
      try! both := is_vote tx in
      if both then
        try! voter_id := subscript tx "voter_id" in
        try! known := votes_lookup voter_id our_transactions in
        match known with
        | Some _ => record_votes block rest our_transactions
        | None =>
            try! v := subscript tx "vote" in
            record_votes block rest
              (our_transactions
               ++ [(voter_id, mkFirstVote v (index block) (hash block))])
        end
      else record_votes block rest our_transactions
  end.

(** The first scan: the votes of our chain. *)
Fixpoint collect_votes (blocks : list Block)
    (our_transactions : list (json * first_vote))
    : attempt (list (json * first_vote)) :=
  match blocks with
  | [] => Done our_transactions
  | block :: rest =>
      try! has := contains "transactions" (data block) in
      if has then
        try! transactions := subscript (data block) "transactions" in
        try! txs := iterate transactions in
        try! our_transactions' := record_votes block txs our_transactions in
        collect_votes rest our_transactions'
      else collect_votes rest our_transactions
  end.

(** The dict appended to [double_spends]. *)
Definition double_spend (voter_id : json) (our_vote : first_vote)
    (competing_vote : json) (block : Block) : json :=
  JDict [("voter_id", voter_id);
         ("our_chain_vote", vote our_vote);
         ("our_chain_block", JNum (block_index our_vote));
         ("competing_chain_vote", competing_vote);
         ("competing_chain_block", JNum (index block))].

(** The inner loop of the second scan. *)
Fixpoint compare_votes (block : Block) (txs : list json)
    (our_transactions : list (json * first_vote)) (double_spends : list json)
    : attempt (list json) :=
  match txs with
  | [] => Done double_spends
  | tx :: rest =>
      try! both := is_vote tx in
      if both then
        try! voter_id := subscript tx "voter_id" in
        try! known := votes_lookup voter_id our_transactions in
        match known with
        | Some our_vote =>
            try! v := subscript tx "vote" in
            if negb (py_eqb (vote our_vote) v) then
              try! v' := subscript tx "vote" in
              compare_votes block rest our_transactions
                (double_spends ++ [double_spend voter_id our_vote v' block])
            else compare_votes block rest our_transactions double_spends
        | None => compare_votes block rest our_transactions double_spends
        end
      else compare_votes block rest our_transactions double_spends
  end.

(** The second scan: the competing chain against the votes of ours. *)
Fixpoint check_votes (blocks : list Block)
    (our_transactions : list (json * first_vote)) (double_spends : list json)
    : attempt (list json) :=
  match blocks with
  | [] => Done double_spends
  | block :: rest =>
      try! has := contains "transactions" (data block) in
      if has then
        try! transactions := subscript (data block) "transactions" in
        try! txs := iterate transactions in
        try! double_spends' :=
          compare_votes block txs our_transactions double_spends in
        check_votes rest our_transactions double_spends'
      else check_votes rest our_transactions double_spends
  end.

Definition detect_double_spending (s : Blockchain)
    (competing_chain : list Block) : attempt (list json) :=
  try! our_transactions := collect_votes (chain s) [] in
  check_votes competing_chain our_transactions [].


(** ** voting.py *)

(** [hashlib.sha256(text.encode()).hexdigest()] and
    [json.dumps(payload, sort_keys=True)]. *)
Variable sha256_hex : string -> string.
Variable dumps : json -> string.

Record Voter : Type := mkVoter {
  voter_id : string;
  public_key : string
}.

(** [x if x else y] for an optional string: [None] and [''] are false. *)
Definition or_else (x : option string) (y : string) : string :=
  match x with
  | Some (String ch rest) => String ch rest
  | _ => y
  end.

(** [Voter.__init__]; [uuid] is the [str(uuid.uuid4())] it draws when it is
    given no id. *)
Definition Voter_init (uuid : string) (given_id given_key : option string)
    : Voter :=
  let id := or_else given_id uuid in
  mkVoter id (or_else given_key (sha256_hex id)).

(** [Voter.cast_vote]; [now] is its [time.time()]. *)
Definition Voter_cast_vote (voter : Voter) (candidate election_id : string)
    (now : Timestamp) : json :=
  let vote_tx :=
    [("type", JStr "vote");
     ("voter_id", JStr (voter_id voter));
     ("public_key", JStr (public_key voter));
     ("candidate", JStr candidate);
     ("election_id", JStr election_id);
     ("timestamp", payload_of_time now)] in
  JDict (vote_tx ++ [("signature", JStr (sha256_hex (dumps (JDict vote_tx))))]).

(** An election. Its chain is the object it shares with its miner and, in
    a [VotingSystem], with the other elections: the methods below take and
    return it. *)
Record Election : Type := mkElection {
  election_id : string;
  title : string;
  candidates : list string;
  start_time : Timestamp;
  end_time : option Timestamp;
  is_active : bool;
  election_miner_address : string;
  miner : Miner
}.

(** The payload of [_register_election]. *)
Definition election_data (e : Election) : json :=
  JDict [("type", JStr "election_registration");
         ("election_id", JStr (election_id e));
         ("title", JStr (title e));
         ("candidates", JList (map JStr (candidates e)));
         ("start_time", payload_of_time (start_time e))].

(** [_register_election] *)
Definition _register_election (fuel : nat) (data_time block_time : Timestamp)
    (e : Election) (s : Blockchain) : outcome unit * Blockchain :=
  let mined :=
    mine_single_block fuel data_time block_time (miner e)
      (add_data s (election_data e)) in
  let! block := fst mined leaving (snd mined) in
  (Return tt, snd mined).

(** [Election.__init__] on the chain [s] it is given, with the miner it is
    given or a new one on [s]; the two [uuid]s are the ones it draws. *)
Definition Election_init (fuel : nat) (election_uuid miner_uuid : string)
    (now data_time block_time : Timestamp)
    (election_title : string) (election_candidates : list string)
    (s : Blockchain) (given_miner : option Miner)
    : outcome Election * Blockchain :=
  let m := match given_miner with
           | Some m => m
           | None => Miner_init s miner_uuid None None
           end in
  let e := mkElection election_uuid election_title election_candidates
             now None true miner_uuid m in
  let registered := _register_election fuel data_time block_time e s in
  let! done := fst registered leaving (snd registered) in
  (Return e, snd registered).

(** [tx.get(key)] *)
Definition tx_get (entries : list (string * json)) (key : string) : json :=
  match dict_get key entries with
  | Some v => v
  | None => JNull
  end.

(** [isinstance(tx, dict) and tx.get('type') == 'vote' and
    tx.get('election_id') == self.election_id] *)
Definition is_vote_in (e : Election) (tx : json) : bool :=
  match tx with
  | JDict entries =>
      py_eqb (tx_get entries "type") (JStr "vote")
      && py_eqb (tx_get entries "election_id") (JStr (election_id e))
  | _ => false
  end.

(** The test of [_has_voter_cast_vote]. *)
Definition is_vote_of (e : Election) (id : string) (tx : json) : bool :=
  match tx with
  | JDict entries =>
      is_vote_in e tx && py_eqb (tx_get entries "voter_id") (JStr id)
  | _ => false
  end.

Fixpoint has_voted_in (e : Election) (id : string) (blocks : list Block)
    : attempt bool :=
  match blocks with
  | [] => Done false
  | block :: rest =>
      try! has := contains "transactions" (data block) in
      if negb has then has_voted_in e id rest
      else
        try! transactions := subscript (data block) "transactions" in
        try! txs := iterate transactions in
        if existsb (is_vote_of e id) txs then Done true
        else has_voted_in e id rest
  end.

Definition _has_voter_cast_vote (e : Election) (s : Blockchain) (id : string)
    : attempt bool :=
  has_voted_in e id (chain s).

(** The messages of [Election.cast_vote]. *)
Inductive vote_message : Type :=
  | Election_is_not_active
  | Invalid_candidate (choices : list string)
  | Voter_has_already_cast_a_vote
  | Vote_recorded (candidate : string)
  | Failed_to_mine_vote_block.

(** [Election.cast_vote]. The scan of the chain comes first: when it
    raises, nothing was written. [vote_time] is the clock reading of
    [Voter.cast_vote], the other two are those of the miner. *)
Definition Election_cast_vote (fuel : nat)
    (vote_time data_time block_time : Timestamp)
    (e : Election) (voter : Voter) (candidate : string) (s : Blockchain)
    : attempt (outcome (bool * vote_message) * Blockchain) :=
  if negb (is_active e) then Done (Return (false, Election_is_not_active), s)
  else if negb (existsb (fun name => String.eqb name candidate) (candidates e))
  then
    Done (Return (false, Invalid_candidate (candidates e)), s)
  else
    try! voted := _has_voter_cast_vote e s (voter_id voter) in
    if voted then Done (Return (false, Voter_has_already_cast_a_vote), s)
    else
      let vote_tx := Voter_cast_vote voter candidate (election_id e) vote_time in
      let mined :=
        mine_single_block fuel data_time block_time (miner e)
          (add_data s vote_tx) in
      Done (let! block := fst mined leaving (snd mined) in
            match block with
            | Some _ => (Return (true, Vote_recorded candidate), snd mined)
            | None => (Return (false, Failed_to_mine_vote_block), snd mined)
            end).

(** [results = {candidate: 0 for candidate in self.candidates}] *)
Fixpoint set_count (candidate : string) (n : Z) (results : list (string * Z))
    : list (string * Z) :=
  match results with
  | [] => [(candidate, n)]
  | (k, m) :: rest =>
      if String.eqb k candidate then (k, n) :: rest
      else (k, m) :: set_count candidate n rest
  end.

Definition no_votes (names : list string) : list (string * Z) :=
  fold_left (fun results name => set_count name 0 results) names [].

(** [results[candidate] += 1] *)
Fixpoint add_vote (candidate : string) (results : list (string * Z))
    : attempt (list (string * Z)) :=
  match results with
  | [] => Failed KeyError
  | (k, m) :: rest =>
      if String.eqb k candidate then Done ((k, m + 1) :: rest)
      else try! rest' := add_vote candidate rest in Done ((k, m) :: rest')
  end.

(** [voter_id in voter_votes]: the key is hashed. *)
Definition has_voted (id : json) (voter_votes : list (json * json))
    : attempt bool :=
  if hashable id then Done (existsb (fun kv => py_eqb (fst kv) id) voter_votes)
  else Failed TypeError.

(** [voter_id[:8]], taken for the warning of a double vote: of the values
    that can be keys only a string has slices. *)
Definition first_eight (id : json) : attempt json :=
  match id with
  | JStr text => Done (JStr (py_prefix text 8))
  | JList items => Done (JList (py_take items 8))
  | _ => Failed TypeError
  end.

(** The inner loop of [get_results]. *)
Fixpoint count_votes (e : Election) (txs : list json)
    (results : list (string * Z)) (voter_votes : list (json * json))
    : attempt (list (string * Z) * list (json * json)) :=
  match txs with
  | [] => Done (results, voter_votes)
  | tx :: rest =>
      match tx with
      | JDict entries =>
          if is_vote_in e tx then
            let id := tx_get entries "voter_id" in
            let candidate := tx_get entries "candidate" in
            try! double := has_voted id voter_votes in
            if double then
              try! shown := first_eight id in
              count_votes e rest results voter_votes
            else if existsb (fun name => py_eqb (JStr name) candidate)
                      (candidates e) then
              match candidate with
              | JStr name =>
                  try! results' := add_vote name results in
                  count_votes e rest results'
                    (voter_votes ++ [(id, candidate)])
              | _ => Failed KeyError
              end
            else count_votes e rest results voter_votes
          else count_votes e rest results voter_votes
      | _ => count_votes e rest results voter_votes
      end
  end.

Fixpoint tally (e : Election) (blocks : list Block)
    (results : list (string * Z)) (voter_votes : list (json * json))
    : attempt (list (string * Z)) :=
  match blocks with
  | [] => Done results
  | block :: rest =>
      try! has := contains "transactions" (data block) in
      if negb has then tally e rest results voter_votes
      else
        try! transactions := subscript (data block) "transactions" in
        try! txs := iterate transactions in
        try! counted := count_votes e txs results voter_votes in
        tally e rest (fst counted) (snd counted)
  end.

Definition get_results (e : Election) (s : Blockchain)
    : attempt (list (string * Z)) :=
  tally e (chain s) (no_votes (candidates e)) [].

(** The payload of [end_election]. *)
Definition end_data (e : Election) (now : Timestamp) : json :=
  JDict [("type", JStr "election_end");
         ("election_id", JStr (election_id e));
         ("end_time", payload_of_time now)].

(** [end_election]; [now] is the clock reading it stores. The election is
    closed before anything can fail; the tally comes after the mining. *)
Definition end_election (fuel : nat) (now data_time block_time : Timestamp)
    (e : Election) (s : Blockchain)
    : outcome (attempt (list (string * Z))) * Election * Blockchain :=
  let ended :=
    mkElection (election_id e) (title e) (candidates e) (start_time e)
      (Some now) false (election_miner_address e) (miner e) in
  let mined :=
    mine_single_block fuel data_time block_time (miner e)
      (add_data s (end_data e now)) in
  (let! block := fst mined in Return (get_results ended (snd mined)),
   ended, snd mined).

(** [VotingSystem.verify_blockchain] *)
Definition verify_blockchain (s : Blockchain) : bool :=
  is_valid_chain s (chain s).


(** ** The vocabulary of the specification *)

(** Position by position: [c !! i] is the block at position [i] of [c]. *)

(** [chain[i].previousHash == chain[i-1].hash] for all [i > 0]. *)
Definition linked (c : list Block) : Prop :=
  forall (i : nat) (b p : Block),
    c !! S i = Some b -> c !! i = Some p -> previous_hash b = hash p.

(** [chain[i].index == i] for all [i]. *)
Definition indexed (c : list Block) : Prop :=
  forall (i : nat) (b : Block), c !! i = Some b -> index b = Z.of_nat i.

(** Every non-genesis block's hash has at least [d] leading ['0']s. *)
Definition mined (d : Z) (c : list Block) : Prop :=
  forall (i : nat) (b : Block),
    c !! S i = Some b -> d <= Z.of_nat (leading_zeros (hash b)).

(** The structural invariant of the chain (data model, section 3). *)
Definition chain_invariant (s : Blockchain) : Prop :=
  chain s <> [] /\ linked (chain s) /\ indexed (chain s)
  /\ mined (difficulty s) (chain s).

(** [is_valid_block] holds for every adjacent pair of [c]. *)
Definition pairwise_valid (s : Blockchain) (c : list Block) : Prop :=
  forall (i : nat) (b p : Block),
    c !! S i = Some b -> c !! i = Some p -> is_valid_block s b p = true.

(** Validation from scratch, as [resolveFork] is specified: a genesis with
    index 0 and the sentinel previous-hash, every later block valid against
    its immediate predecessor within the candidate. *)
Definition validates_from_scratch (s : Blockchain) (c : list Block) : Prop :=
  (exists g, c !! O = Some g /\ index g = 0
             /\ previous_hash g = genesis_previous_hash)
  /\ pairwise_valid s c.

(** [chainWork] as specified: the sum over the blocks of
    [16^(leading hex zeros of the hash)]. *)
Definition chainWork (segment : list Block) : Z :=
  foldr (fun b total => 16 ^ Z.of_nat (leading_zeros (hash b)) + total) 0 segment.

(** A candidate that [resolveFork] may adopt: strictly longer than the
    local chain and valid from scratch. *)
Definition adoptable (s : Blockchain) (c : list Block) : Prop :=
  len (chain s) < len c /\ validates_from_scratch s c.

(** The candidate [resolveFork] is specified to adopt out of a list: an
    adoptable one, as long as any adoptable one, and the first of that
    length in the order of the list. *)
Definition winner (s : Blockchain) (competing_chains : list (list BlockDict))
    (w : list Block) : Prop :=
  exists (k : nat) (chain_data : list BlockDict),
    competing_chains !! k = Some chain_data
    /\ w = map from_dict chain_data
    /\ adoptable s w
    /\ (forall (j : nat) (other : list BlockDict),
          competing_chains !! j = Some other ->
          adoptable s (map from_dict other) -> len other <= len w)
    /\ (forall (j : nat) (other : list BlockDict),
          (j < k)%nat -> competing_chains !! j = Some other ->
          adoptable s (map from_dict other) -> len other < len w).

(** What the loop of [resolve_fork] knows after the candidates [seen]:
    [longest_chain_length] bounds the local chain and every adoptable
    candidate seen, and [longest_valid_chain] is the winner among them, if
    there is one. *)
Definition scanned (s : Blockchain) (seen : list (list BlockDict))
    (longest_valid_chain : option (list Block)) (longest_chain_length : Z)
    : Prop :=
  len (chain s) <= longest_chain_length
  /\ (forall (j : nat) (other : list BlockDict),
        seen !! j = Some other ->
        adoptable s (map from_dict other) -> len other <= longest_chain_length)
  /\ match longest_valid_chain with
     | None => longest_chain_length = len (chain s)
     | Some w => winner s seen w /\ len w = longest_chain_length
     end.

(** The hashes of two chains agree at every position below [n]. *)
Definition agree_below (ours theirs : list Block) (n : nat) : Prop :=
  forall (j : nat) (a b : Block),
    (j < n)%nat -> ours !! j = Some a -> theirs !! j = Some b -> hash a = hash b.

(** Position [i] is the first one where the hashes of two chains differ. *)
Definition first_mismatch (ours theirs : list Block) (i : nat) : Prop :=
  agree_below ours theirs i
  /\ exists a b, ours !! i = Some a /\ theirs !! i = Some b /\ hash a <> hash b.

(** Position [a] is the common ancestor of two chains: the position before
    the first mismatch of their hashes, or the last position of their
    overlap when the hashes agree all over it. Two chains whose first
    blocks differ have none. *)
Definition common_ancestor_at (ours theirs : list Block) (a : nat) : Prop :=
  first_mismatch ours theirs (S a)
  \/ (agree_below ours theirs (S a)
      /\ S a = Nat.min (length ours) (length theirs)).

(** ** The operations that write the chain *)

Inductive operation : Type :=
  | Add_data (d : json)
  | Mine_pending_data (fuel : nat) (now : Timestamp) (miner_address : string)
  | Add_block (block : Block)
  | Replace_chain (new_chain : list Block)
  | Fork_detection_and_resolution (received_block : Block)
  | Resolve_fork (fuel : nat) (clock : nat -> Timestamp)
      (competing_chains : list (list BlockDict))
  | Sync_missing_blocks (competing_chain : list Block) (sync_from_index : Z).

(** The chain object after an operation, whatever the operation returned. *)
Definition run (op : operation) (s : Blockchain) : Blockchain :=
  match op with
  | Add_data d => add_data s d
  | Mine_pending_data fuel now miner_address =>
      snd (mine_pending_data fuel now s miner_address)
  | Add_block block => snd (add_block s block)
  | Replace_chain new_chain => snd (replace_chain s new_chain)
  | Fork_detection_and_resolution received_block =>
      snd (fork_detection_and_resolution s received_block)
  | Resolve_fork fuel clock competing_chains =>
      snd (resolve_fork fuel clock s competing_chains)
  | Sync_missing_blocks competing_chain sync_from_index =>
      snd (sync_missing_blocks s competing_chain sync_from_index)
  end.

(** The calls under which the invariant is kept. [replace_chain] does not
    look at the index of the candidate's first block, so that index has to
    be 0; [sync_missing_blocks] has to start at the end of the local chain,
    on a candidate whose block before the start is the local latest block.
    The other operations are not restricted. *)
Definition keeps_to_the_chain (op : operation) (s : Blockchain) : Prop :=
  match op with
  | Replace_chain new_chain =>
      forall g, new_chain !! O = Some g -> index g = 0
  | Sync_missing_blocks competing_chain sync_from_index =>
      sync_from_index = len (chain s)
      /\ competing_chain !! Z.to_nat (sync_from_index - 1) = last (chain s)
  | _ => True
  end.

(** The chains a program can hold: built by the constructor, then written by
    the operations above. *)
Inductive reachable : Blockchain -> Prop :=
  | reachable_init (fuel : nat) (d : Z) (now : Timestamp) (s : Blockchain) :
      Blockchain_init fuel d now = Return s -> reachable s
  | reachable_step (op : operation) (s : Blockchain) :
      reachable s -> keeps_to_the_chain op s -> reachable (run op s).

(** ** More vocabulary *)

(** Among [candidates], [w] passes [ok], is as long as any candidate that
    does, and is the first of that length. *)
Definition first_longest (ok : list Block -> Prop)
    (candidates : list (list Block)) (w : list Block) : Prop :=
  exists k : nat,
    candidates !! k = Some w
    /\ ok w
    /\ (forall (j : nat) (c : list Block),
          candidates !! j = Some c -> ok c -> len c <= len w)
    /\ (forall (j : nat) (c : list Block),
          (j < k)%nat -> candidates !! j = Some c -> ok c -> len c < len w).

(** What [replace_chain] accepts on the chain [s]. *)
Definition longer_and_valid (s : Blockchain) (c : list Block) : Prop :=
  len (chain s) < len c /\ is_valid_chain s c = true.


(** ** Votes in a chain *)

(** The transactions of a block: the list under ['transactions'] of a
    payload that is a dict. *)
Definition transactions_of (b : Block) : list json :=
  match data b with
  | JDict entries =>
      match dict_get "transactions" entries with
      | Some (JList txs) => txs
      | _ => []
      end
  | _ => []
  end.

(** A ballot: a transaction that is a dict with the keys ['voter_id'] and
    ['vote'], with the index of its block. *)
Record ballot : Type := mkBallot {
  ballot_voter : json;
  ballot_vote : json;
  ballot_block : Z
}.

Definition ballot_of (b : Block) (tx : json) : option ballot :=
  match tx with
  | JDict entries =>
      match dict_get "voter_id" entries, dict_get "vote" entries with
      | Some voter, Some v => Some (mkBallot voter v (index b))
      | _, _ => None
      end
  | _ => None
  end.

(** The ballots of a chain, in the order of the chain. *)
Fixpoint ballots (c : list Block) : list ballot :=
  match c with
  | [] => []
  | b :: rest => omap (ballot_of b) (transactions_of b) ++ ballots rest
  end.

(** The first ballot of a voter. *)
Definition first_ballot (voter : json) (l : list ballot) : option ballot :=
  find (fun t => py_eqb (ballot_voter t) voter) l.

(** The report on the ballot [theirs], when the first ballot of its voter
    among [ours] carries another vote. *)
Definition conflict (ours : list ballot) (theirs : ballot) : option json :=
  match first_ballot (ballot_voter theirs) ours with
  | Some o =>
      if py_eqb (ballot_vote o) (ballot_vote theirs) then None
      else Some (JDict [("voter_id", ballot_voter theirs);
                        ("our_chain_vote", ballot_vote o);
                        ("our_chain_block", JNum (ballot_block o));
                        ("competing_chain_vote", ballot_vote theirs);
                        ("competing_chain_block", JNum (ballot_block theirs))])
  | None => None
  end.

(** A transaction the scans can read: a dict whose voter, when it is a
    ballot, can be a key; or anything else in which the two keys are looked
    for without an error and not found. *)
Definition readable_tx (tx : json) : Prop :=
  match tx with
  | JDict entries =>
      match dict_get "voter_id" entries, dict_get "vote" entries with
      | Some voter, Some _ => hashable voter = true
      | _, _ => True
      end
  | _ => is_vote tx = Done false
  end.

(** A block the scans can read: a dict payload without transactions or
    with a list of readable ones, or another payload in which
    ['transactions'] is looked for without an error and not found. *)
Definition readable (b : Block) : Prop :=
  match data b with
  | JDict entries =>
      match dict_get "transactions" entries with
      | None => True
      | Some (JList txs) => Forall readable_tx txs
      | Some _ => False
      end
  | d => contains "transactions" d = Done false
  end.

(** [our_transactions] holds the first ballots of [ours]. *)
Definition holds_first_ballots (our : list (json * first_vote))
    (ours : list ballot) : Prop :=
  forall voter, hashable voter = true ->
    match votes_get voter our, first_ballot voter ours with
    | Some r, Some o => vote r = ballot_vote o /\ block_index r = ballot_block o
    | None, None => True
    | _, _ => False
    end.

(** Entering a ballot as the first scan does. *)
Definition enter (b : Block) (our : list (json * first_vote)) (t : ballot)
    : list (json * first_vote) :=
  match votes_get (ballot_voter t) our with
  | Some _ => our
  | None =>
      our ++ [(ballot_voter t, mkFirstVote (ballot_vote t) (index b) (hash b))]
  end.


(** ** The payloads of the voting layer *)

(** What [for tx in block.data['transactions']] runs through, nothing when
    the payload has no transactions. *)
Definition block_txs (b : Block) : attempt (list json) :=
  try! has := contains "transactions" (data b) in
  if has then
    try! transactions := subscript (data b) "transactions" in
    iterate transactions
  else Done [].

(** A transaction written by the voting layer: a vote, the registration
    of an election or its end. *)
Definition application_tx (tx : json) : Prop :=
  (exists voter candidate id now, tx = Voter_cast_vote voter candidate id now)
  \/ (exists e, tx = election_data e)
  \/ (exists e now, tx = end_data e now).

(** A block of a chain of the voting layer: the genesis block, or a block
    of the miner that carries transactions of the voting layer. *)
Definition application_block (b : Block) : Prop :=
  data b = genesis_data
  \/ exists txs address time,
       Forall application_tx txs
       /\ data b = JDict [("transactions", JList txs);
                          ("miner", JStr address);
                          ("timestamp", time)].

(** The count of a candidate in the results. *)
Fixpoint votes_for (name : string) (results : list (string * Z)) : option Z :=
  match results with
  | [] => None
  | (k, n) :: rest => if String.eqb k name then Some n else votes_for name rest
  end.

(** The two dicts of [get_results] after the blocks [blocks]. *)
Fixpoint tally_state (e : Election) (blocks : list Block)
    (results : list (string * Z)) (voter_votes : list (json * json))
    : attempt (list (string * Z) * list (json * json)) :=
  match blocks with
  | [] => Done (results, voter_votes)
  | b :: rest =>
      try! txs := block_txs b in
      try! counted := count_votes e txs results voter_votes in
      tally_state e rest (fst counted) (snd counted)
  end.

(** A vote of the election [e] in the chain [c]: a transaction of one of
    its blocks that [get_results] takes for a vote of [e]. *)
Definition vote_in_chain (e : Election) (c : list Block)
    (id candidate : json) : Prop :=
  exists b txs entries,
    b ∈ c /\ block_txs b = Done txs /\ JDict entries ∈ txs
    /\ is_vote_in e (JDict entries) = true
    /\ id = tx_get entries "voter_id"
    /\ candidate = tx_get entries "candidate".

(** The voters recorded for the candidate [name]. *)
Fixpoint entries_for (name : string) (voter_votes : list (json * json)) : Z :=
  match voter_votes with
  | [] => 0
  | kv :: rest =>
      (if py_eqb (snd kv) (JStr name) then 1 else 0) + entries_for name rest
  end.

(** A vote of [e] for a listed candidate. *)
Definition valid_vote (e : Election) (entries : list (string * json)) : Prop :=
  is_vote_in e (JDict entries) = true
  /\ exists name,
       tx_get entries "candidate" = JStr name /\ name ∈ candidates e.

(** What the two dicts of [get_results] are after the transactions
    [scanned]: the results have the listed candidates as keys and count the
    recorded voters of each; the recorded voters differ from one another,
    each was recorded for a valid vote among [scanned], and the voter of
    every valid vote among [scanned] is recorded. *)
Definition counted (e : Election) (scanned : list json)
    (results : list (string * Z)) (voter_votes : list (json * json)) : Prop :=
  (forall name, name ∈ candidates e <-> is_Some (votes_for name results))
  /\ (forall name n,
        votes_for name results = Some n -> n = entries_for name voter_votes)
  /\ (forall (i j : nat) a b,
        (i < j)%nat -> voter_votes !! i = Some a -> voter_votes !! j = Some b ->
        py_eqb (fst a) (fst b) = false)
  /\ (forall id candidate,
        (id, candidate) ∈ voter_votes ->
        exists entries,
          JDict entries ∈ scanned /\ valid_vote e entries
          /\ id = tx_get entries "voter_id"
          /\ candidate = tx_get entries "candidate")
  /\ (forall entries,
        JDict entries ∈ scanned -> valid_vote e entries ->
        exists kv,
          kv ∈ voter_votes
          /\ py_eqb (fst kv) (tx_get entries "voter_id") = true).

(** A chain as the voting layer leaves it between two calls: nothing
    queued, blocks of its own, the structural invariant, and a chain that
    [verify_blockchain] accepts. *)
Definition voting_chain (s : Blockchain) : Prop :=
  pending_data s = []
  /\ Forall application_block (chain s)
  /\ chain_invariant s
  /\ verify_blockchain s = true.


End Model.

Arguments Block : clear implicits.
Arguments BlockDict : clear implicits.
Arguments Blockchain : clear implicits.
Arguments operation : clear implicits.
Arguments Miner : clear implicits.
Arguments Election : clear implicits.

(** ** A small instance to run the model on

    A stand-in for SHA-256 that can be evaluated by hand: integer
    timestamps, and a digest that spells out the hashed fields after
    [nonce mod 3] leading zeros, so that mining from nonce 0 reaches
    difficulty 2 in two steps. *)

Module Toy.

Definition digit (n : Z) : string :=
  String (ascii_of_nat (48 + Z.to_nat (n mod 10))) EmptyString.

(** Decimal digits of a number below 1000; larger ones repeat. *)
Definition dec (n : Z) : string :=
  (digit (Z.abs n / 100) ++ digit (Z.abs n / 10) ++ digit (Z.abs n))%string.

Fixpoint dumps (j : json) : string :=
  match j with
  | JNull => "n"
  | JBool b => if b then "t" else "f"
  | JNum n => dec n
  | JStr s => s
  | JList items =>
      ("[" ++ (fix go (l : list json) : string :=
                 match l with
                 | [] => EmptyString
                 | x :: l' => dumps x ++ "," ++ go l'
                 end) items ++ "]")%string
  | JDict entries =>
      ("{" ++ (fix go (l : list (string * json)) : string :=
                 match l with
                 | [] => EmptyString
                 | (k, v) :: l' => k ++ ":" ++ dumps v ++ "," ++ go l'
                 end) entries ++ "}")%string
  end.

Definition digest (idx : Z) (ts : Z) (d : json) (prev : string) (n : Z) : string :=
  (zeros (Z.to_nat (n mod 3)) ++ "a" ++ dec idx ++ "." ++ dec ts ++ "."
   ++ dumps d ++ "." ++ str_take 6 prev ++ "." ++ dec n)%string.

(** A block built and then mined with [fuel] rounds (the block as built
    when the fuel does not suffice). *)
Definition mined_block (d : Z) (idx ts : Z) (payload : json) (prev : string)
    : Block Z :=
  let b := Block_init digest idx ts payload prev 0 in
  match mine_block digest 10 d b with
  | Return b' => b'
  | _ => b
  end.

(** A chain of difficulty 1: a genesis block and two blocks mined on it. *)
Definition g0 : Block Z := mined_block 1 0 100 genesis_data genesis_previous_hash.
Definition b1 : Block Z := mined_block 1 1 101 (JList [JNum 1]) (hash g0).
Definition b2 : Block Z := mined_block 1 2 102 (JList [JNum 2]) (hash b1).

Definition b3 : Block Z := mined_block 1 3 103 (JList [JNum 3]) (hash b2).

Definition ledger (c : list (Block Z)) : Blockchain Z := mkBlockchain c 1 [].

(** Block 3 with another payload, mined again (scenario D). *)
Definition b3_other : Block Z := mined_block 1 3 103 (JList [JNum 33]) (hash b2).

(** Block 3 with its payload changed after mining (scenario E). *)
Definition b3_tampered : Block Z :=
  mkBlock 3 103 (JList [JNum 666]) (hash b2) (nonce b3) (hash b3).

(** Another block 1 on the same genesis block, and one mined to two zeros. *)
Definition b1_other : Block Z := mined_block 1 1 111 (JList [JNum 9]) (hash g0).
Definition b1_heavy : Block Z := mined_block 2 1 130 (JList [JNum 4]) (hash g0).
Definition b2_other : Block Z := mined_block 1 2 112 (JList [JNum 8]) (hash b1).
Definition b2_heavy : Block Z := mined_block 2 2 122 (JList [JNum 7]) (hash b1).


(** A valid pair of blocks that starts at index 5. *)
Definition x5 : Block Z := mined_block 1 5 105 (JList [JNum 5]) genesis_previous_hash.
Definition x6 : Block Z := mined_block 1 6 106 (JList [JNum 6]) (hash x5).

(** A record that was never mined: its hash is made up. *)
Definition junk : Block Z := mkBlock 7 0 JNull "none" 0 "000junk".

(** Block 1 built without a payload, which the constructor stores as the
    empty list, and its record as a peer may send it, with the payload
    [null]. *)
Definition b1_empty : Block Z := mined_block 1 1 101 JNull (hash g0).
Definition null_record : BlockDict Z :=
  mkBlockDict 1 101 JNull (hash g0) (nonce b1_empty) (hash b1_empty).


(** The chain after the constructor at time 100, and after one payload was
    queued and mined at time 101. *)
Definition fresh : Blockchain Z := ledger [g0].
Definition mined_once : Blockchain Z :=
  run digest (Mine_pending_data 10 101 "miner") (run digest (Add_data (JNum 1)) fresh).

(** Scenario A: a genesis-only chain of difficulty 2 with one queued payload. *)
Definition gA : Block Z := mined_block 2 0 100 genesis_data genesis_previous_hash.
Definition scenario_A : Blockchain Z :=
  add_data (mkBlockchain [gA] 2 []) (JDict [("v", JNum 1)]).

(** Two blocks with ballots: voter v1 votes A and then B in the first, B in
    the second, where v2 votes as well. *)
Definition ballot_tx (voter choice : string) : json :=
  JDict [("voter_id", JStr voter); ("vote", JStr choice)].
Definition bv1 : Block Z :=
  mined_block 1 1 101
    (JDict [("transactions", JList [ballot_tx "v1" "A"; ballot_tx "v1" "B"])])
    (hash g0).
Definition bv1_other : Block Z :=
  mined_block 1 1 111
    (JDict [("transactions", JList [ballot_tx "v1" "B"; ballot_tx "v2" "A"])])
    (hash g0).

(** The voting layer on the toy chain: an election with two candidates,
    registered at time 200, and two voters. *)
Definition sha (text : string) : string := ("#" ++ text)%string.
Definition alice : Voter := Voter_init sha "uuid-1" (Some "alice") None.
Definition bob : Voter := Voter_init sha "uuid-2" None None.
Definition poll : Election Z :=
  mkElection "poll" "Lunch" ["A"; "B"] 200 None true "m"
    (Miner_init fresh "m" None None).
Definition registered : Blockchain Z :=
  snd (_register_election digest JNum 10 201 202 poll fresh).

(** The chain after a call of [Election.cast_vote] that returned. *)
Definition after_vote (voter : Voter) (choice : string) (now : Z)
    (s : Blockchain Z) : Blockchain Z :=
  match Election_cast_vote digest JNum sha dumps 10 now now now poll voter
          choice s with
  | Done (_, s') => s'
  | Failed _ => s
  end.


End Toy.

(** * Properties *)

(** ** Strings, subscripts and slices *)

Lemma str_take_zeros_iff (n : nat) (s : string) :
  str_take n s = zeros n <-> (n <= leading_zeros s)%nat.
Proof.
  revert s; induction n as [|n IH]; intros s.
  - destruct s; simpl; split; intros; auto with lia.
  - destruct s as [|c s]; simpl.
    + split; [discriminate | lia].
    + destruct (Ascii.eqb_spec c "0") as [->|Hc].
      * rewrite <- Nat.succ_le_mono, <- IH.
        split; [now intros [= ->] | now intros ->].
      * split; [intros [= Hc' _]; contradiction | lia].
Qed.

Lemma meets_difficulty_iff (d : Z) (h : string) :
  0 <= d ->
  meets_difficulty d h = true <-> d <= Z.of_nat (leading_zeros h).
Proof.
  intros Hd. unfold meets_difficulty, py_prefix, py_zeros.
  destruct (Z.ltb_spec d 0); [lia|].
  rewrite String.eqb_eq, str_take_zeros_iff. lia.
Qed.

Lemma meets_difficulty_leading (d : Z) (h : string) :
  meets_difficulty d h = true -> d <= Z.of_nat (leading_zeros h).
Proof.
  intros H. destruct (Z.le_gt_cases 0 d) as [Hd|Hd]; [|lia].
  now apply meets_difficulty_iff.
Qed.

Lemma py_index_in_range {A : Type} (l : list A) (i : Z) (x : A) :
  0 <= i -> l !! Z.to_nat i = Some x -> py_index l i = Return x.
Proof.
  intros Hi Hx. pose proof (lookup_lt_Some _ _ _ Hx) as Hlt.
  unfold py_index, len. destruct (Z.ltb_spec i 0); [lia|].
  destruct (Z.leb_spec 0 i); [|lia].
  destruct (Z.ltb_spec i (Z.of_nat (length l))); [|lia].
  simpl. now rewrite Hx.
Qed.

Lemma py_index_last {A : Type} (l : list A) (x : A) :
  last l = Some x -> py_index l (-1) = Return x.
Proof.
  intros Hx. rewrite last_lookup in Hx.
  pose proof (lookup_lt_Some _ _ _ Hx) as Hlt.
  unfold py_index, len. simpl.
  destruct (Z.leb_spec 0 (Z.of_nat (length l) + -1)); [|lia].
  destruct (Z.ltb_spec (Z.of_nat (length l) + -1) (Z.of_nat (length l))); [|lia].
  simpl. replace (Z.to_nat (Z.of_nat (length l) + -1)) with (pred (length l)) by lia.
  now rewrite Hx.
Qed.

Lemma py_index_nil {A : Type} (i : Z) : py_index (@nil A) i = Raise IndexError.
Proof.
  unfold py_index. now destruct (_ && _).
Qed.

Lemma last_is_Some {A : Type} (l : list A) : l <> [] -> exists x, last l = Some x.
Proof.
  intros Hl. destruct (last l) as [x|] eqn:E; [now exists x|].
  apply last_None in E. contradiction.
Qed.

Section Properties.

Context {Timestamp : Type}.
Variable digest : Z -> Timestamp -> json -> string -> Z -> string.

Implicit Types (s : Blockchain Timestamp) (b p candidate previous : Block Timestamp).
Implicit Types (c : list (Block Timestamp)).

(** ** Block validation *)

(** C2. [isValidBlock(candidate, previous)] is true exactly when the four
    conditions hold together: the index follows the predecessor's, the
    previous-hash is the predecessor's hash, the stored hash is the
    recomputed one, and the hash has at least [difficulty] leading ['0']s.
    The difficulty is a count of characters, hence not negative. *)
Theorem is_valid_block_iff s candidate previous :
  0 <= difficulty s ->
  is_valid_block digest s candidate previous = true
  <-> index candidate = index previous + 1
      /\ previous_hash candidate = hash previous
      /\ hash candidate = calculate_hash digest candidate
      /\ difficulty s <= Z.of_nat (leading_zeros (hash candidate)).
Proof.
  intros Hd. unfold is_valid_block.
  rewrite <- (meets_difficulty_iff _ _ Hd).
  destruct (Z.eqb_spec (index candidate) (index previous + 1)) as [Hi|Hi]; simpl;
    [|split; [discriminate | tauto]].
  destruct (String.eqb_spec (previous_hash candidate) (hash previous)) as [Hp|Hp];
    simpl; [|split; [discriminate | tauto]].
  destruct (String.eqb_spec (hash candidate) (calculate_hash digest candidate))
    as [Hh|Hh]; simpl; [|split; [discriminate | tauto]].
  destruct (meets_difficulty (difficulty s) (hash candidate)); simpl;
    [tauto | split; [discriminate | intros (_ & _ & _ & [=])]].
Qed.

(** ** Single-block reconciliation *)

Lemma latest_block_last s latest :
  last (chain s) = Some latest -> latest_block s = Return latest.
Proof. apply py_index_last. Qed.

(** The peer is ahead. *)
Lemma fork_detection_ahead s received :
  len (chain s) < index received ->
  fork_detection_and_resolution digest s received
  = (Return (false, "Need to sync blocks"), s).
Proof.
  intros H. unfold fork_detection_and_resolution.
  destruct (Z.ltb_spec (index received) (len (chain s))); [lia|].
  destruct (Z.eqb_spec (index received) (len (chain s))); [lia|]. reflexivity.
Qed.

(** The block would be the next one. *)
Lemma fork_detection_next s received latest :
  index received = len (chain s) ->
  last (chain s) = Some latest ->
  fork_detection_and_resolution digest s received
  = if is_valid_block digest s received latest
    then (Return (true, "Block added to chain"),
          set_chain s (chain s ++ [received]))
    else (Return (false, "Invalid next block"), s).
Proof.
  intros Hi Hl. unfold fork_detection_and_resolution.
  destruct (Z.ltb_spec (index received) (len (chain s))); [lia|].
  destruct (Z.eqb_spec (index received) (len (chain s))); [|lia].
  rewrite (latest_block_last _ _ Hl). reflexivity.
Qed.

(** The position is already taken by [existing]. *)
Lemma fork_detection_taken s received existing :
  0 <= index received ->
  chain s !! Z.to_nat (index received) = Some existing ->
  fork_detection_and_resolution digest s received
  = if String.eqb (hash existing) (hash received) then
      (Return (false, "Block already exists in our chain"), s)
    else if index received =? 0 then
      (Return (false, "Genesis block conflict, keeping our chain"), s)
    else
      match chain s !! Z.to_nat (index received - 1) with
      | Some predecessor =>
          if String.eqb (previous_hash received) (hash predecessor) then
            (Return (false, "Fork detected, need full chain comparison"), s)
          else (Return (false, "Unknown state in fork resolution"), s)
      | None => (Raise IndexError, s)
      end.
Proof.
  intros H0 He. pose proof (lookup_lt_Some _ _ _ He) as Hlt.
  unfold fork_detection_and_resolution.
  destruct (Z.ltb_spec (index received) (len (chain s))); [|unfold len in *; lia].
  rewrite (py_index_in_range _ _ _ H0 He). simpl.
  destruct (String.eqb (hash existing) (hash received)); [reflexivity|].
  destruct (Z.eqb_spec (index received) 0); [reflexivity|].
  destruct (chain s !! Z.to_nat (index received - 1)) as [predecessor|] eqn:Ep.
  - rewrite (py_index_in_range _ _ predecessor) by (trivial || lia). reflexivity.
  - apply lookup_ge_None in Ep. lia.
Qed.

Lemma lookup_in_range c (i : Z) :
  0 <= i < len c -> exists b, c !! Z.to_nat i = Some b.
Proof.
  intros Hi. destruct (c !! Z.to_nat i) as [b|] eqn:E; [now exists b|].
  apply lookup_ge_None in E. unfold len in Hi. lia.
Qed.

(** C7. The decision table of [fork_detection_and_resolution], by the
    received index against the chain length [L]: above [L] nothing changes
    and a sync is asked for; at [L] the block is appended and [True]
    returned exactly when it is valid on the latest block, otherwise nothing
    changes; below [L] an equal hash is a no-op, a different hash at index 0
    keeps the local chain, and a different hash at a later index whose
    previous-hash is the local predecessor's hash reports a fork, all three
    without mutation. Blocks carry a position (not negative) and the chain
    has its genesis block. *)
Theorem fork_detection_decision_table s received :
  chain s <> [] ->
  0 <= index received ->
  (len (chain s) < index received ->
     fork_detection_and_resolution digest s received
     = (Return (false, "Need to sync blocks"), s))
  /\ (index received = len (chain s) ->
      exists latest, last (chain s) = Some latest
        /\ (is_valid_block digest s received latest = true ->
              fork_detection_and_resolution digest s received
              = (Return (true, "Block added to chain"),
                 mkBlockchain (chain s ++ [received]) (difficulty s)
                   (pending_data s)))
        /\ (is_valid_block digest s received latest = false ->
              fork_detection_and_resolution digest s received
              = (Return (false, "Invalid next block"), s)))
  /\ (index received < len (chain s) ->
      exists existing, chain s !! Z.to_nat (index received) = Some existing
        /\ (hash existing = hash received ->
              fork_detection_and_resolution digest s received
              = (Return (false, "Block already exists in our chain"), s))
        /\ (hash existing <> hash received -> index received = 0 ->
              fork_detection_and_resolution digest s received
              = (Return (false, "Genesis block conflict, keeping our chain"), s))
        /\ (hash existing <> hash received -> 0 < index received ->
              exists predecessor,
                chain s !! Z.to_nat (index received - 1) = Some predecessor
                /\ (previous_hash received = hash predecessor ->
                      fork_detection_and_resolution digest s received
                      = (Return (false, "Fork detected, need full chain comparison"),
                         s)))).
Proof.
  intros Hne H0. split; [|split].
  - apply fork_detection_ahead.
  - intros Hi. destruct (last_is_Some _ Hne) as [latest Hl].
    exists latest. split; [exact Hl|].
    rewrite (fork_detection_next s received latest Hi Hl).
    split; intros ->; reflexivity.
  - intros Hi. destruct (lookup_in_range (chain s) (index received)) as [existing He];
      [lia|].
    exists existing. split; [exact He|].
    rewrite (fork_detection_taken s received existing H0 He).
    split; [|split].
    + intros Hh. apply String.eqb_eq in Hh. now rewrite Hh.
    + intros Hh Hz. apply String.eqb_neq in Hh. rewrite Hh.
      apply Z.eqb_eq in Hz. now rewrite Hz.
    + intros Hh Hz. apply String.eqb_neq in Hh. rewrite Hh.
      destruct (Z.eqb_spec (index received) 0); [lia|].
      destruct (lookup_in_range (chain s) (index received - 1))
        as [predecessor Hp]; [lia|].
      exists predecessor. split; [exact Hp|].
      rewrite Hp. intros Hq. apply String.eqb_eq in Hq. now rewrite Hq.
Qed.




(** ** Whole chains *)

Lemma pairwise_valid_single s p : pairwise_valid digest s [p].
Proof. intros i b q Hb. destruct i; discriminate. Qed.

Lemma pairwise_valid_cons s p b rest :
  pairwise_valid digest s (p :: b :: rest)
  <-> is_valid_block digest s b p = true /\ pairwise_valid digest s (b :: rest).
Proof.
  split.
  - intros H. split; [now apply (H O)|].
    intros i x y Hx Hy. now apply (H (S i)).
  - intros [Hb H] [|i] x y Hx Hy; simpl in *.
    + congruence.
    + now apply (H i).
Qed.

Lemma valid_from_iff s p rest :
  valid_from digest s p rest = true <-> pairwise_valid digest s (p :: rest).
Proof.
  revert p; induction rest as [|b rest IH]; intros p; simpl.
  - split; [intros _; apply pairwise_valid_single | reflexivity].
  - rewrite pairwise_valid_cons, <- IH.
    destruct (is_valid_block digest s b p); simpl; intuition congruence.
Qed.

(** [isValidChain]: the chain is not empty and [isValidBlock] holds for
    every adjacent pair; the first block is taken as it is. *)
Lemma is_valid_chain_iff s c :
  is_valid_chain digest s c = true <-> c <> [] /\ pairwise_valid digest s c.
Proof.
  destruct c as [|g rest]; simpl.
  - split; [discriminate | now intros [? _]].
  - rewrite valid_from_iff. intuition congruence.
Qed.

(** C4. [replaceChain(candidate)] replaces the chain and returns [True]
    exactly when the candidate is strictly longer than the current chain and
    [isValidChain] accepts it (not empty, every adjacent pair valid); in
    every other case it returns [False] and the object is unchanged. An
    equal or shorter candidate is never accepted, nor an invalid one of any
    length. *)
Theorem replace_chain_iff s (new_chain : list (Block Timestamp)) :
  let result := replace_chain digest s new_chain in
  (fst result = true
   <-> len (chain s) < len new_chain /\ is_valid_chain digest s new_chain = true)
  /\ (fst result = true
       <-> len (chain s) < len new_chain /\ new_chain <> []
           /\ pairwise_valid digest s new_chain)
  /\ (fst result = true ->
      snd result = mkBlockchain new_chain (difficulty s) (pending_data s))
  /\ (len (chain s) < len new_chain ->
      is_valid_chain digest s new_chain = true ->
      fst result = true /\ chain (snd result) = new_chain
      /\ difficulty (snd result) = difficulty s
      /\ pending_data (snd result) = pending_data s)
  /\ (fst result = false -> snd result = s)
  /\ (len new_chain <= len (chain s) -> result = (false, s))
  /\ (is_valid_chain digest s new_chain = false -> result = (false, s)).
Proof.
  intros result. subst result. rewrite <- is_valid_chain_iff.
  unfold replace_chain.
  destruct (Z.leb_spec (len new_chain) (len (chain s))) as [Hle|Hlt]; simpl.
  - repeat split; try discriminate; try reflexivity; intros; lia.
  - destruct (is_valid_chain digest s new_chain) eqn:Hv; simpl;
      repeat split; try discriminate; try reflexivity; try tauto; intros;
      try lia; try (destruct H; discriminate).
Qed.

(** ** Common ancestors *)

Lemma agree_below_tail a b ours theirs (n : nat) :
  agree_below (a :: ours) (b :: theirs) (S n) ->
  hash a = hash b /\ agree_below ours theirs n.
Proof.
  intros H. split.
  - apply (H O); [lia | reflexivity | reflexivity].
  - intros j x y Hj Hx Hy. apply (H (S j)); [lia | exact Hx | exact Hy].
Qed.

Lemma agree_below_cons a b ours theirs (n : nat) :
  hash a = hash b -> agree_below ours theirs n ->
  agree_below (a :: ours) (b :: theirs) (S n).
Proof.
  intros Hab H [|j] x y Hj Hx Hy; simpl in *.
  - congruence.
  - apply (H j); [lia | exact Hx | exact Hy].
Qed.

(** At the first mismatch [k] the loop, entered at [i], returns the position
    before it. The [-1] of the branch [i == 0] is that position too. *)
Lemma common_ancestor_loop_mismatch (k : nat) :
  forall (ours theirs : list (Block Timestamp)) (i min_length : Z),
    first_mismatch ours theirs k ->
    common_ancestor_loop i ours theirs min_length = i + Z.of_nat k - 1.
Proof.
  induction k as [|k IH]; intros ours theirs i m [Hagree (a & b & Ha & Hb & Hab)].
  - destruct ours as [|a' ours]; [discriminate|].
    destruct theirs as [|b' theirs]; [discriminate|].
    simpl in Ha, Hb. injection Ha as ->. injection Hb as ->. simpl.
    apply String.eqb_neq in Hab. rewrite Hab. simpl.
    destruct (Z.eqb_spec i 0); lia.
  - destruct ours as [|a' ours]; [discriminate|].
    destruct theirs as [|b' theirs]; [discriminate|].
    apply agree_below_tail in Hagree as [H0 Hagree]. simpl.
    apply String.eqb_eq in H0. rewrite H0. simpl.
    rewrite (IH ours theirs (i + 1) m); [lia|].
    split; [exact Hagree | now exists a, b].
Qed.

(** Without a mismatch in the overlap the loop runs out. *)
Lemma common_ancestor_loop_agree (ours : list (Block Timestamp)) :
  forall (theirs : list (Block Timestamp)) (i min_length : Z),
    agree_below ours theirs (Nat.min (length ours) (length theirs)) ->
    common_ancestor_loop i ours theirs min_length = min_length - 1.
Proof.
  induction ours as [|a ours IH]; intros theirs i m H; [reflexivity|].
  destruct theirs as [|b theirs]; [reflexivity|].
  simpl in H. apply agree_below_tail in H as [H0 H]. simpl.
  apply String.eqb_eq in H0. rewrite H0. simpl. now apply IH.
Qed.

(** Two chains differ somewhere in their overlap, or agree all over it. *)
Lemma mismatch_or_agree (ours : list (Block Timestamp)) :
  forall theirs : list (Block Timestamp),
    (exists k, first_mismatch ours theirs k)
    \/ agree_below ours theirs (Nat.min (length ours) (length theirs)).
Proof.
  induction ours as [|a ours IH]; intros theirs.
  - right. intros j x y Hj. simpl in Hj. lia.
  - destruct theirs as [|b theirs].
    + right. intros j x y Hj. simpl in Hj. lia.
    + destruct (String.eqb_spec (hash a) (hash b)) as [Hab|Hab].
      * destruct (IH theirs) as [(k & Hagree & x & y & Hx & Hy & Hxy)|Hagree].
        -- left. exists (S k). split; [now apply agree_below_cons|].
           now exists x, y.
        -- right. simpl. now apply agree_below_cons.
      * left. exists O. split; [intros j x y Hj; lia|].
        now exists a, b.
Qed.

Lemma min_len (ours theirs : list (Block Timestamp)) :
  Z.to_nat (Z.min (len ours) (len theirs)) = Nat.min (length ours) (length theirs).
Proof. unfold len. lia. Qed.

(** C9. [findCommonAncestor] compares the hashes position by position over
    the overlap of the two chains, [min(len(local), len(candidate))]
    positions: when the genesis blocks differ it returns -1; at the first
    mismatch it returns the position before it, the last one that matches;
    without a mismatch in the overlap it returns the overlap's length minus
    one. One of the two always is the case. *)
Theorem find_common_ancestor_spec s (competing_chain : list (Block Timestamp)) :
  let overlap := Z.min (len (chain s)) (len competing_chain) in
  (forall g g', chain s !! O = Some g -> competing_chain !! O = Some g' ->
                hash g <> hash g' ->
                find_common_ancestor s competing_chain = -1)
  /\ (forall k : nat, first_mismatch (chain s) competing_chain k ->
                      find_common_ancestor s competing_chain = Z.of_nat k - 1)
  /\ (agree_below (chain s) competing_chain (Z.to_nat overlap) ->
      find_common_ancestor s competing_chain = overlap - 1)
  /\ ((exists k : nat, first_mismatch (chain s) competing_chain k
                       /\ Z.of_nat k < overlap)
      \/ agree_below (chain s) competing_chain (Z.to_nat overlap)).
Proof.
  intros overlap. subst overlap. unfold find_common_ancestor.
  split; [|split; [|split]].
  - intros g g' Hg Hg' Hne.
    rewrite (common_ancestor_loop_mismatch O); [reflexivity|].
    split; [intros j x y Hj; lia | now exists g, g'].
  - intros k Hk. now rewrite (common_ancestor_loop_mismatch k).
  - rewrite min_len. apply common_ancestor_loop_agree.
  - rewrite min_len.
    destruct (mismatch_or_agree (chain s) competing_chain) as [[k Hk]|H];
      [left | now right].
    exists k. split; [exact Hk|].
    destruct Hk as (_ & x & y & Hx & Hy & _).
    apply lookup_lt_Some in Hx, Hy. unfold len. lia.
Qed.

(** ** Chain work *)

Lemma count_leading_zeros_spec (h : string) :
  forall leading : Z,
    count_leading_zeros leading h = leading + Z.of_nat (leading_zeros h).
Proof.
  induction h as [|c h IH]; intros leading; simpl; [lia|].
  destruct (Ascii.eqb c "0"); [rewrite IH|]; lia.
Qed.

Lemma chain_work_from (segment : list (Block Timestamp)) :
  forall total : Z,
    fold_left
      (fun total_work block =>
         total_work + 16 ^ count_leading_zeros 0 (hash block))
      segment total
    = total + chainWork segment.
Proof.
  unfold chainWork.
  induction segment as [|b segment IH]; intros total; simpl; [lia|].
  rewrite IH, count_leading_zeros_spec, Z.add_0_l. lia.
Qed.

(** [_calculate_chain_work] computes the specified [chainWork]. *)
Lemma calculate_chain_work_spec (segment : list (Block Timestamp)) :
  _calculate_chain_work segment = chainWork segment.
Proof. unfold _calculate_chain_work. now rewrite chain_work_from. Qed.

Lemma find_common_ancestor_bounds s (competing_chain : list (Block Timestamp)) :
  -1 <= find_common_ancestor s competing_chain
        < Z.min (len (chain s)) (len competing_chain).
Proof.
  unfold find_common_ancestor.
  destruct (mismatch_or_agree (chain s) competing_chain) as [[k Hk]|H].
  - rewrite (common_ancestor_loop_mismatch k) by exact Hk.
    destruct Hk as (_ & x & y & Hx & Hy & _).
    apply lookup_lt_Some in Hx, Hy. unfold len. lia.
  - rewrite common_ancestor_loop_agree by exact H. unfold len. lia.
Qed.

(** ** Synchronisation: the fork branch *)

Lemma common_ancestor_at_found s (competing_chain : list (Block Timestamp))
    (a : nat) :
  common_ancestor_at (chain s) competing_chain a ->
  find_common_ancestor s competing_chain = Z.of_nat a.
Proof.
  unfold find_common_ancestor. intros [Hm|[Hagree Hmin]].
  - rewrite (common_ancestor_loop_mismatch (S a)) by exact Hm. lia.
  - rewrite common_ancestor_loop_agree by (rewrite <- Hmin; exact Hagree).
    unfold len. lia.
Qed.

Lemma common_ancestor_at_or_none (ours theirs : list (Block Timestamp)) :
  ours <> [] -> theirs <> [] ->
  first_mismatch ours theirs O \/ exists a, common_ancestor_at ours theirs a.
Proof.
  intros Ho Ht.
  destruct (mismatch_or_agree ours theirs) as [[[|k] Hk]|Hagree].
  - now left.
  - right. exists k. now left.
  - right. destruct ours as [|x ours]; [contradiction|].
    destruct theirs as [|y theirs]; [contradiction|].
    exists (Nat.min (length ours) (length theirs)). right.
    split; [exact Hagree | reflexivity].
Qed.

(** C8. With [0 <= fromIndex < len(candidate)] and
    [fromIndex < len(local)], [syncMissingBlocks] takes the common ancestor
    of the local chain and [candidate[0..fromIndex]]: the position before
    the first mismatch of the hashes, or [fromIndex] when they agree up to
    there. When the first blocks differ there is none: it fails and changes
    nothing. With the ancestor at [a] it puts the candidate's blocks after
    [a] in the place of the local blocks after [a], queue and difficulty
    untouched, exactly when they have strictly more [chainWork] than the
    local ones, and fails without a change otherwise. One of the two is
    always the case. [_calculate_chain_work] is the sum over the blocks of
    [16^(leading '0's of the hash)]. *)
Theorem sync_missing_blocks_fork s (competing_chain : list (Block Timestamp))
    (sync_from_index : Z) :
  0 <= sync_from_index < len competing_chain ->
  sync_from_index < len (chain s) ->
  let result := sync_missing_blocks digest s competing_chain sync_from_index in
  let up_to_index := take (Z.to_nat (sync_from_index + 1)) competing_chain in
  (first_mismatch (chain s) up_to_index O ->
     result = (Return (false, No_common_ancestor_found), s))
  /\ (forall a : nat,
        common_ancestor_at (chain s) up_to_index a ->
        let ours := drop (S a) (chain s) in
        let theirs := drop (S a) competing_chain in
        Z.of_nat a <= sync_from_index
        /\ (chainWork ours < chainWork theirs ->
            result
            = (Return (true, Chain_replaced_after_fork (Z.of_nat a)),
               mkBlockchain (take (S a) (chain s) ++ theirs) (difficulty s)
                 (pending_data s)))
        /\ (chainWork theirs <= chainWork ours ->
            result = (Return (false, Our_chain_has_more_work), s)))
  /\ (first_mismatch (chain s) up_to_index O
      \/ exists a, common_ancestor_at (chain s) up_to_index a)
  /\ ((exists message, fst result = Return (true, message))
      <-> exists a : nat,
            common_ancestor_at (chain s) up_to_index a
            /\ chainWork (drop (S a) (chain s))
               < chainWork (drop (S a) competing_chain))
  /\ (forall segment : list (Block Timestamp),
        _calculate_chain_work segment = chainWork segment).
Proof.
  intros Hfrom Hlocal result up_to_index.
  set (common_ancestor := find_common_ancestor s up_to_index).
  assert (Hup : py_take competing_chain (sync_from_index + 1) = up_to_index).
  { unfold py_take. destruct (Z.ltb_spec (sync_from_index + 1) 0); [lia|].
    reflexivity. }
  assert (Hca : -1 <= common_ancestor <= sync_from_index).
  { pose proof (find_common_ancestor_bounds s up_to_index) as Hb.
    fold common_ancestor in Hb. subst up_to_index.
    unfold len in Hb. rewrite length_take in Hb. lia. }
  assert (Hresult :
    result
    = if common_ancestor =? -1 then (Return (false, No_common_ancestor_found), s)
      else if chainWork (drop (Z.to_nat (common_ancestor + 1)) (chain s))
              <? chainWork (drop (Z.to_nat (common_ancestor + 1)) competing_chain)
      then
        (Return (true, Chain_replaced_after_fork common_ancestor),
         mkBlockchain
           (take (Z.to_nat (common_ancestor + 1)) (chain s)
            ++ drop (Z.to_nat (common_ancestor + 1)) competing_chain)
           (difficulty s) (pending_data s))
      else (Return (false, Our_chain_has_more_work), s)).
  { subst result. unfold sync_missing_blocks.
    destruct (Z.ltb_spec sync_from_index 0); [lia|].
    destruct (Z.leb_spec (len competing_chain) sync_from_index); [lia|].
    destruct (Z.leb_spec (len (chain s)) sync_from_index); [lia|].
    simpl. rewrite Hup. fold common_ancestor.
    rewrite !calculate_chain_work_spec. unfold py_take, py_drop.
    destruct (Z.ltb_spec (common_ancestor + 1) 0); [lia|]. reflexivity. }
  assert (Hnone : first_mismatch (chain s) up_to_index O ->
                  common_ancestor = -1).
  { intros Hm. subst common_ancestor. unfold find_common_ancestor.
    now rewrite (common_ancestor_loop_mismatch O) by exact Hm. }
  assert (Hat : forall a : nat,
             common_ancestor_at (chain s) up_to_index a ->
             common_ancestor = Z.of_nat a)
    by (intros a Ha; now apply common_ancestor_at_found).
  assert (Hcases : first_mismatch (chain s) up_to_index O
                   \/ exists a, common_ancestor_at (chain s) up_to_index a).
  { apply common_ancestor_at_or_none.
    - intros Hnil. rewrite Hnil in Hlocal. unfold len in Hlocal. simpl in Hlocal.
      lia.
    - subst up_to_index. intros Hnil.
      apply (f_equal length) in Hnil. rewrite length_take in Hnil.
      unfold len in Hfrom. simpl in Hnil. lia. }
  rewrite Hresult. clear Hresult.
  split; [|split; [|split; [|split]]].
  - intros Hm. now rewrite (Hnone Hm).
  - intros a Ha ours theirs. subst ours theirs.
    rewrite (Hat a Ha) in *.
    replace (Z.to_nat (Z.of_nat a + 1)) with (S a) by lia.
    destruct (Z.eqb_spec (Z.of_nat a) (-1)); [lia|].
    split; [lia|].
    destruct (Z.ltb_spec (chainWork (drop (S a) (chain s)))
                (chainWork (drop (S a) competing_chain)));
      split; intros; first [reflexivity | lia].
  - exact Hcases.
  - split.
    + intros [message Hm].
      destruct Hcases as [Hz|[a Ha]].
      * rewrite (Hnone Hz) in Hm. simpl in Hm. discriminate.
      * exists a. split; [exact Ha|]. rewrite (Hat a Ha) in Hm.
        replace (Z.to_nat (Z.of_nat a + 1)) with (S a) in Hm by lia.
        destruct (Z.eqb_spec (Z.of_nat a) (-1)); [lia|].
        destruct (Z.ltb_spec (chainWork (drop (S a) (chain s)))
                    (chainWork (drop (S a) competing_chain)));
          [assumption | simpl in Hm; discriminate].
    + intros (a & Ha & Hwork). rewrite (Hat a Ha).
      replace (Z.to_nat (Z.of_nat a + 1)) with (S a) by lia.
      destruct (Z.eqb_spec (Z.of_nat a) (-1)); [lia|].
      destruct (Z.ltb_spec (chainWork (drop (S a) (chain s)))
                  (chainWork (drop (S a) competing_chain))); [|lia].
      simpl. eauto.
  - apply calculate_chain_work_spec.
Qed.

(** ** Mining *)

Lemma mine_block_unfold (fuel : nat) (d : Z) b :
  mine_block digest fuel d b
  = if meets_difficulty d (hash b) then Return b
    else match fuel with
         | O => OutOfFuel
         | S fuel' =>
             let b1 := set_nonce b (nonce b + 1) in
             mine_block digest fuel' d (set_hash b1 (calculate_hash digest b1))
         end.
Proof. destruct fuel; reflexivity. Qed.

(** What [mine_block] returns meets the difficulty; it differs from the
    block it was given in the nonce and the hash only, and its hash is the
    computed one when it was so at the start. *)
Lemma mine_block_Return (fuel : nat) (d : Z) :
  forall b b',
    mine_block digest fuel d b = Return b' ->
    meets_difficulty d (hash b') = true
    /\ index b' = index b /\ timestamp b' = timestamp b /\ data b' = data b
    /\ previous_hash b' = previous_hash b
    /\ (hash b = calculate_hash digest b -> hash b' = calculate_hash digest b').
Proof.
  induction fuel as [|fuel IH]; intros b b'; rewrite mine_block_unfold;
    destruct (meets_difficulty d (hash b)) eqn:Hm.
  - intros [= <-]. tauto.
  - discriminate.
  - intros [= <-]. tauto.
  - intros H. apply IH in H as (H1 & H2 & H3 & H4 & H5 & H6). simpl in *.
    repeat split; try assumption. intros _. now apply H6.
Qed.

Lemma mine_block_no_raise (fuel : nat) (d : Z) (e : exn) :
  forall b, mine_block digest fuel d b <> Raise e.
Proof.
  induction fuel as [|fuel IH]; intros b; rewrite mine_block_unfold;
    destruct (meets_difficulty d (hash b)); try discriminate. apply IH.
Qed.

(** The search leaves its loop as soon as [fuel] covers the distance to a
    nonce whose digest meets the difficulty. *)
Lemma mine_block_enough (k : nat) (d : Z) :
  forall (fuel : nat) b,
    (k <= fuel)%nat ->
    hash b = calculate_hash digest b ->
    meets_difficulty d
      (digest (index b) (timestamp b) (data b) (previous_hash b)
              (nonce b + Z.of_nat k)) = true ->
    exists b', mine_block digest fuel d b = Return b'.
Proof.
  induction k as [|k IH]; intros fuel b Hk Hh Hm; rewrite mine_block_unfold.
  - replace (nonce b + Z.of_nat 0) with (nonce b) in Hm by lia.
    unfold calculate_hash in Hh. rewrite <- Hh in Hm. rewrite Hm. eauto.
  - destruct (meets_difficulty d (hash b)); [eauto|].
    destruct fuel as [|fuel]; [lia|].
    apply IH; [lia | reflexivity |]. simpl.
    now replace (nonce b + 1 + Z.of_nat k) with (nonce b + Z.of_nat (S k)) by lia.
Qed.

(** C6. [minePending] on an empty queue returns no block and changes
    neither the chain nor the queue. On a queue that is not empty it builds
    the block at index [len(chain)] over the queue and the miner address,
    on the latest block's hash, mines it to the difficulty, appends it,
    empties the queue and returns it; while the search has not ended nothing
    is changed, so the queue is emptied only together with the block being
    appended; and the search ends once a nonce that meets the difficulty is
    within reach. *)
Theorem mine_pending_data_spec (fuel : nat) (now : Timestamp) s
    (miner_address : string) :
  let result := mine_pending_data digest fuel now s miner_address in
  let payload := JDict [("transactions", JList (pending_data s));
                        ("miner", JStr miner_address)] in
  (pending_data s = [] -> result = (Return None, s))
  /\ (pending_data s <> [] -> chain s <> [] ->
      exists latest, last (chain s) = Some latest
        /\ ((exists new_block,
               result = (Return (Some new_block),
                         mkBlockchain (chain s ++ [new_block]) (difficulty s) [])
               /\ index new_block = len (chain s)
               /\ data new_block = payload
               /\ previous_hash new_block = hash latest
               /\ hash new_block = calculate_hash digest new_block
               /\ difficulty s <= Z.of_nat (leading_zeros (hash new_block)))
            \/ result = (OutOfFuel, s))
        /\ (forall k : nat,
              (k <= fuel)%nat ->
              meets_difficulty (difficulty s)
                (digest (len (chain s)) now payload (hash latest) (Z.of_nat k))
              = true ->
              exists new_block, fst result = Return (Some new_block))).
Proof.
  intros result payload. subst result. unfold mine_pending_data. split.
  - intros ->. reflexivity.
  - intros Hq Hc. destruct (pending_data s) as [|d0 q] eqn:Eq; [contradiction|].
    destruct (last_is_Some _ Hc) as [latest Hl].
    exists latest. split; [exact Hl|].
    rewrite (latest_block_last _ _ Hl). simpl. fold payload.
    set (new := Block_init digest (len (chain s)) now payload (hash latest) 0).
    split.
    + destruct (mine_block digest fuel (difficulty s) new) as [mined|e|] eqn:Em.
      * left. exists mined. simpl.
        apply mine_block_Return in Em as (H1 & H2 & H3 & H4 & H5 & H6).
        repeat split; try assumption.
        -- now apply H6.
        -- now apply meets_difficulty_leading.
      * now apply mine_block_no_raise in Em.
      * now right.
    + intros k Hk Hm.
      destruct (mine_block_enough k (difficulty s) fuel new Hk) as [mined Em];
        [reflexivity | simpl; exact Hm |].
      rewrite Em. simpl. eauto.
Qed.

(** ** Fork resolution *)

Lemma is_valid_block_difficulty s1 s2 b p :
  difficulty s1 = difficulty s2 ->
  is_valid_block digest s1 b p = is_valid_block digest s2 b p.
Proof. intros H. unfold is_valid_block. now rewrite H. Qed.

(** The scratch chain of [resolve_fork] ends in the block validated last:
    its loop is the loop of [is_valid_chain]. *)
Lemma validate_rest_spec s (rest : list (Block Timestamp)) :
  forall (temp : Blockchain Timestamp) (pre : list (Block Timestamp)) prev,
    chain temp = (pre ++ [prev])%list ->
    difficulty temp = difficulty s ->
    validate_rest digest temp rest = Return (valid_from digest s prev rest).
Proof.
  induction rest as [|b rest IH]; intros temp pre prev Hc Hd; simpl;
    [reflexivity|].
  unfold latest_block.
  rewrite (py_index_last _ prev) by (rewrite Hc; apply last_snoc).
  simpl. rewrite (is_valid_block_difficulty temp s _ _ Hd).
  destruct (is_valid_block digest s b prev); simpl; [|reflexivity].
  apply (IH _ (pre ++ [prev])%list); simpl; [now rewrite Hc | exact Hd].
Qed.

Lemma Blockchain_init_cases (fuel : nat) (d : Z) (now : Timestamp) :
  (exists g, Blockchain_init digest fuel d now = Return (mkBlockchain [g] d []))
  \/ Blockchain_init digest fuel d now = OutOfFuel.
Proof.
  unfold Blockchain_init.
  destruct (mine_block digest fuel d _) as [g|e|] eqn:E; simpl; eauto.
  now apply mine_block_no_raise in E.
Qed.

Lemma validates_from_scratch_cons s g (rest : list (Block Timestamp)) :
  validates_from_scratch digest s (g :: rest)
  <-> index g = 0 /\ previous_hash g = genesis_previous_hash
      /\ pairwise_valid digest s (g :: rest).
Proof.
  unfold validates_from_scratch. simpl. split.
  - intros [(g' & [= <-] & H1 & H2) H3]. auto.
  - intros (H1 & H2 & H3). split; [exists g|]; auto.
Qed.

(** The validation of a candidate decides [validates_from_scratch], once
    the constructor of the scratch chain has returned. *)
Lemma validate_candidate_spec (fuel : nat) (now : Timestamp) s g
    (rest : list (Block Timestamp)) :
  (exists v, validate_candidate digest fuel now s (g :: rest) = Return v
             /\ (v = true <-> validates_from_scratch digest s (g :: rest)))
  \/ (validate_candidate digest fuel now s (g :: rest) = OutOfFuel
      /\ Blockchain_init digest fuel (difficulty s) now = OutOfFuel).
Proof.
  unfold validate_candidate.
  destruct (Blockchain_init_cases fuel (difficulty s) now) as [[g0 E]|E];
    rewrite E; [left | now right].
  cbn [bind]. rewrite (py_index_in_range (g :: rest) 0 g) by (reflexivity || lia).
  cbn [bind set_chain chain difficulty app].
  replace (py_drop (g :: rest) 1) with rest by reflexivity.
  destruct (Z.eqb_spec (index g) 0) as [Hi|Hi]; simpl;
    [|exists false; rewrite validates_from_scratch_cons;
      split; [reflexivity | split; [discriminate | tauto]]].
  destruct (String.eqb_spec (previous_hash g) genesis_previous_hash) as [Hp|Hp];
    simpl; [|exists false; rewrite validates_from_scratch_cons;
             split; [reflexivity | split; [discriminate | tauto]]].
  exists (valid_from digest s g rest). split.
  - now apply (validate_rest_spec s rest _ []).
  - rewrite validates_from_scratch_cons, valid_from_iff. tauto.
Qed.

Lemma len_map_from_dict (chain_data : list (BlockDict Timestamp)) :
  len (map (from_dict digest) chain_data) = len chain_data.
Proof. unfold len. now rewrite length_map. Qed.

Lemma winner_keep s seen (other : list (BlockDict Timestamp)) w :
  winner digest s seen w ->
  (adoptable digest s (map (from_dict digest) other) -> len other <= len w) ->
  winner digest s (seen ++ [other]) w.
Proof.
  intros (k & wd & Hk & Hw & Ha & Hall & Hbefore) Hother.
  exists k, wd. split; [now apply lookup_app_l_Some|].
  split; [exact Hw|]. split; [exact Ha|]. split.
  - intros j x Hx Hax. apply lookup_snoc_Some in Hx as [[_ Hx]|[_ <-]].
    + now apply (Hall j).
    + now apply Hother.
  - intros j x Hj Hx Hax. apply lookup_snoc_Some in Hx as [[_ Hx]|[-> <-]].
    + now apply (Hbefore j).
    + apply lookup_lt_Some in Hk. lia.
Qed.

(** A candidate that is skipped or found invalid changes nothing. *)
Lemma scanned_keep s seen (other : list (BlockDict Timestamp)) best (best_len : Z) :
  scanned digest s seen best best_len ->
  (adoptable digest s (map (from_dict digest) other) -> len other <= best_len) ->
  scanned digest s (seen ++ [other]) best best_len.
Proof.
  intros (HL & Hall & Hbest) Hother. split; [exact HL|]. split.
  - intros j x Hx Hax. apply lookup_snoc_Some in Hx as [[_ Hx]|[_ <-]].
    + now apply (Hall j).
    + now apply Hother.
  - destruct best as [w|]; [|exact Hbest].
    destruct Hbest as [Hw Hlen]. split; [|exact Hlen].
    apply winner_keep; [exact Hw | now rewrite Hlen].
Qed.

(** A valid candidate longer than all before it becomes the winner. *)
Lemma scanned_adopt s seen (chain_data : list (BlockDict Timestamp)) best
    (best_len : Z) :
  scanned digest s seen best best_len ->
  best_len < len chain_data ->
  adoptable digest s (map (from_dict digest) chain_data) ->
  scanned digest s (seen ++ [chain_data])
    (Some (map (from_dict digest) chain_data))
    (len (map (from_dict digest) chain_data)).
Proof.
  intros (HL & Hall & _) Hlonger Ha. rewrite len_map_from_dict.
  split; [lia|]. split.
  - intros j x Hx Hax. apply lookup_snoc_Some in Hx as [[_ Hx]|[_ <-]].
    + specialize (Hall j x Hx Hax). lia.
    + lia.
  - split; [|apply len_map_from_dict].
    exists (length seen), chain_data.
    split; [apply lookup_snoc_Some; now right|].
    split; [reflexivity|]. split; [exact Ha|].
    rewrite len_map_from_dict. split.
    + intros j x Hx Hax. apply lookup_snoc_Some in Hx as [[_ Hx]|[_ <-]].
      * specialize (Hall j x Hx Hax). lia.
      * lia.
    + intros j x Hj Hx Hax. apply lookup_snoc_Some in Hx as [[_ Hx]|[-> _]].
      * specialize (Hall j x Hx Hax). lia.
      * lia.
Qed.

(** The loop over the candidates: started on what was [scanned], it ends
    with all of them [scanned], unless the fuel ran out in the constructor
    of a scratch chain. It never raises. *)
Lemma resolve_fork_loop_spec (fuel : nat) (clock : nat -> Timestamp) s
    (rest : list (list (BlockDict Timestamp))) :
  forall seen best (best_len : Z),
    scanned digest s seen best best_len ->
    match resolve_fork_loop digest fuel clock (length seen) s rest best best_len
    with
    | Return out => exists out_len, scanned digest s (seen ++ rest) out out_len
    | Raise _ => False
    | OutOfFuel =>
        exists k : nat,
          (k < length (seen ++ rest))%nat
          /\ Blockchain_init digest fuel (difficulty s) (clock k) = OutOfFuel
    end.
Proof.
  induction rest as [|chain_data rest IH]; intros seen best best_len Hs; simpl.
  - rewrite app_nil_r. eauto.
  - assert (Hnext : forall best' best_len',
              scanned digest s (seen ++ [chain_data]) best' best_len' ->
              match resolve_fork_loop digest fuel clock (S (length seen)) s rest
                      best' best_len'
              with
              | Return out =>
                  exists out_len,
                    scanned digest s (seen ++ chain_data :: rest) out out_len
              | Raise _ => False
              | OutOfFuel =>
                  exists k : nat,
                    (k < length (seen ++ chain_data :: rest))%nat
                    /\ Blockchain_init digest fuel (difficulty s) (clock k)
                       = OutOfFuel
              end).
    { intros best' best_len' Hs'. specialize (IH _ _ _ Hs').
      rewrite length_app, <- app_assoc in IH. simpl in IH.
      now replace (length seen + 1)%nat with (S (length seen)) in IH by lia. }
    destruct (Z.leb_spec (len chain_data) best_len) as [Hskip|Hlonger].
    + apply Hnext. apply scanned_keep; [exact Hs | intros _; exact Hskip].
    + destruct chain_data as [|gd restd].
      { destruct Hs as (HL & _). unfold len in *. simpl in *. lia. }
      simpl map.
      destruct (validate_candidate_spec fuel (clock (length seen)) s
                  (from_dict digest gd) (map (from_dict digest) restd))
        as [(v & E & Hv)|[E E']]; rewrite E; simpl.
      * destruct v; simpl;
          change (from_dict digest gd :: map (from_dict digest) restd)
            with (map (from_dict digest) (gd :: restd)) in *.
        -- rewrite len_map_from_dict.
           destruct (Z.ltb_spec best_len (len (gd :: restd))); [|lia].
           rewrite <- (len_map_from_dict (gd :: restd)).
           apply Hnext. eapply scanned_adopt; [exact Hs | exact Hlonger |].
           split; [|now apply Hv].
           rewrite len_map_from_dict. destruct Hs as (HL & _). lia.
        -- apply Hnext. apply scanned_keep; [exact Hs|].
           intros [_ Hvalid]. apply Hv in Hvalid. discriminate.
      * exists (length seen). split; [|exact E'].
        rewrite length_app. simpl. lia.
Qed.

(** C5. [resolveFork] returns [True] exactly when it replaced the local
    chain. It replaces it by the [winner] of the list: a candidate strictly
    longer than the local chain that validates from scratch (genesis with
    index 0 and the sentinel previous-hash, every later block valid on its
    predecessor within the candidate), as long as any such candidate, and
    the first of that length in the list. Without such a candidate (all
    equal in length to the local chain, say) it returns [False] and changes
    nothing. The call never raises, and it returns whenever the constructor
    of the scratch chains does. *)
Theorem resolve_fork_spec (fuel : nat) (clock : nat -> Timestamp) s
    (competing_chains : list (list (BlockDict Timestamp))) :
  let result := resolve_fork digest fuel clock s competing_chains in
  match fst result with
  | Return true =>
      exists w, winner digest s competing_chains w
                /\ snd result = mkBlockchain w (difficulty s) (pending_data s)
                /\ len (chain s) < len w
  | Return false =>
      snd result = s
      /\ forall (j : nat) (other : list (BlockDict Timestamp)),
           competing_chains !! j = Some other ->
           ~ adoptable digest s (map (from_dict digest) other)
  | Raise _ => False
  | OutOfFuel =>
      snd result = s
      /\ exists k : nat,
           (k < length competing_chains)%nat
           /\ Blockchain_init digest fuel (difficulty s) (clock k) = OutOfFuel
  end.
Proof.
  intros result. subst result. unfold resolve_fork.
  assert (Hstart : scanned digest s [] None (len (map to_dict (chain s)))).
  { assert (Hlen : len (map to_dict (chain s)) = len (chain s))
      by (unfold len; now rewrite length_map).
    rewrite Hlen. split; [lia|]. split; [|reflexivity].
    intros j x Hx. discriminate. }
  pose proof (resolve_fork_loop_spec fuel clock s competing_chains _ _ _ Hstart)
    as Hloop. simpl in Hloop.
  destruct (resolve_fork_loop digest fuel clock 0 s competing_chains None _)
    as [out|e|]; simpl.
  - destruct Hloop as (out_len & HL & Hall & Hbest).
    destruct out as [[|b rest]|]; simpl.
    + destruct Hbest as [(_ & _ & _ & _ & [Hlonger _] & _) _].
      unfold len in Hlonger. simpl in Hlonger. lia.
    + destruct Hbest as [Hw _]. exists (b :: rest).
      split; [exact Hw|]. split; [reflexivity|].
      now destruct Hw as (_ & _ & _ & _ & [Hlonger _] & _).
    + split; [reflexivity|]. intros j other Hj Ha.
      specialize (Hall j other Hj Ha). destruct Ha as [Hlonger _].
      rewrite len_map_from_dict in Hlonger. lia.
  - exact Hloop.
  - split; [reflexivity | exact Hloop].
Qed.

(** ** The structural invariant *)

Lemma is_valid_block_true s b p :
  is_valid_block digest s b p = true ->
  index b = index p + 1 /\ previous_hash b = hash p
  /\ hash b = calculate_hash digest b
  /\ difficulty s <= Z.of_nat (leading_zeros (hash b)).
Proof.
  unfold is_valid_block.
  destruct (Z.eqb_spec (index b) (index p + 1)); simpl; [|discriminate].
  destruct (String.eqb_spec (previous_hash b) (hash p)); simpl; [|discriminate].
  destruct (String.eqb_spec (hash b) (calculate_hash digest b)); simpl;
    [|discriminate].
  destruct (meets_difficulty (difficulty s) (hash b)) eqn:Hm; simpl;
    [|discriminate].
  intros _. auto using meets_difficulty_leading.
Qed.

(** One more block at the end, at the next index, on the latest hash and
    mined to the difficulty, keeps a chain linked, indexed and mined. *)
Lemma invariant_snoc c (d : Z) b latest :
  linked c -> indexed c -> mined d c ->
  last c = Some latest ->
  index b = len c -> previous_hash b = hash latest ->
  d <= Z.of_nat (leading_zeros (hash b)) ->
  linked (c ++ [b]) /\ indexed (c ++ [b]) /\ mined d (c ++ [b]).
Proof.
  intros Hl Hi Hm Hlast Hidx Hprev Hd. rewrite last_lookup in Hlast.
  pose proof (lookup_lt_Some _ _ _ Hlast) as Hlen.
  split; [|split].
  - intros i x y Hx Hy.
    apply lookup_snoc_Some in Hx as [[Hlt Hx]|[Heq <-]].
    + rewrite lookup_app_l in Hy by lia. now apply (Hl i).
    + rewrite lookup_app_l in Hy by lia.
      replace i with (pred (length c)) in Hy by lia. congruence.
  - intros i x Hx. apply lookup_snoc_Some in Hx as [[Hlt Hx]|[-> <-]].
    + now apply Hi.
    + exact Hidx.
  - intros i x Hx. apply lookup_snoc_Some in Hx as [[Hlt Hx]|[_ <-]].
    + now apply (Hm i).
    + exact Hd.
Qed.

Lemma invariant_append s b latest :
  chain_invariant s ->
  last (chain s) = Some latest ->
  is_valid_block digest s b latest = true ->
  chain_invariant (set_chain s (chain s ++ [b])).
Proof.
  intros (Hne & Hl & Hi & Hm) Hlast Hv.
  apply is_valid_block_true in Hv as (Hidx & Hprev & _ & Hd).
  split; [simpl; now destruct (chain s)|]. simpl.
  apply (invariant_snoc _ _ _ latest); try assumption.
  rewrite last_lookup in Hlast. pose proof (lookup_lt_Some _ _ _ Hlast) as Hlen.
  apply Hi in Hlast. unfold len. lia.
Qed.

(** A chain whose adjacent pairs are all valid is linked and mined, and
    indexed when its first block has index 0. *)
Lemma valid_chain_invariant s c g :
  c !! O = Some g -> index g = 0 -> pairwise_valid digest s c ->
  linked c /\ indexed c /\ mined (difficulty s) c.
Proof.
  intros Hg H0 Hv. split; [|split].
  - intros i x y Hx Hy. specialize (Hv i x y Hx Hy).
    now apply is_valid_block_true in Hv.
  - intros i. induction i as [|i IH]; intros x Hx.
    + rewrite Hg in Hx. injection Hx as <-. exact H0.
    + destruct (c !! i) as [y|] eqn:Hy.
      * apply (Hv i x y Hx) in Hy as Hxy.
        apply is_valid_block_true in Hxy as (Hidx & _). rewrite Hidx, (IH y eq_refl).
        lia.
      * apply lookup_ge_None in Hy. apply lookup_lt_Some in Hx. lia.
  - intros i x Hx. destruct (c !! i) as [y|] eqn:Hy.
    + apply (Hv i x y Hx) in Hy. now apply is_valid_block_true in Hy.
    + apply lookup_ge_None in Hy. apply lookup_lt_Some in Hx. lia.
Qed.

Lemma Blockchain_init_invariant (fuel : nat) (d : Z) (now : Timestamp) s :
  Blockchain_init digest fuel d now = Return s -> chain_invariant s.
Proof.
  unfold Blockchain_init.
  destruct (mine_block digest fuel d _) as [g|e|] eqn:E; simpl; try discriminate.
  intros [= <-]. apply mine_block_Return in E as (_ & Hidx & _).
  split; [discriminate|]. simpl. split; [|split].
  - intros [|i] x y Hx; discriminate.
  - intros [|i] x Hx; [|discriminate]. injection Hx as <-. exact Hidx.
  - intros [|i] x Hx; discriminate.
Qed.

Lemma set_chain_same s : set_chain s (chain s) = s.
Proof. now destruct s. Qed.

Lemma mine_pending_data_invariant (fuel : nat) (now : Timestamp) s
    (miner_address : string) :
  chain_invariant s ->
  chain_invariant (snd (mine_pending_data digest fuel now s miner_address)).
Proof.
  intros Hs. unfold mine_pending_data.
  destruct (pending_data s) as [|d0 q]; [exact Hs|].
  destruct Hs as (Hne & Hl & Hi & Hm).
  destruct (last_is_Some _ Hne) as [latest Hlast].
  rewrite (latest_block_last _ _ Hlast). simpl.
  destruct (mine_block digest fuel (difficulty s) _) as [new_block|e|] eqn:E;
    simpl; try (repeat split; assumption).
  apply mine_block_Return in E as (Hd & Hidx & _ & _ & Hprev & _).
  apply meets_difficulty_leading in Hd.
  split; [simpl; now destruct (chain s)|]. simpl.
  now apply (invariant_snoc _ _ _ latest).
Qed.

Lemma add_block_invariant s b :
  chain_invariant s -> chain_invariant (snd (add_block digest s b)).
Proof.
  intros Hs. unfold add_block.
  destruct (last_is_Some (chain s)) as [latest Hlast]; [apply Hs|].
  rewrite (latest_block_last _ _ Hlast). simpl.
  destruct (is_valid_block digest s b latest) eqn:Hv; simpl; [|exact Hs].
  now apply (invariant_append _ _ latest).
Qed.

Lemma replace_chain_invariant s (new_chain : list (Block Timestamp)) :
  chain_invariant s ->
  (forall g, new_chain !! O = Some g -> index g = 0) ->
  chain_invariant (snd (replace_chain digest s new_chain)).
Proof.
  intros Hs Hg. unfold replace_chain.
  destruct (len new_chain <=? len (chain s)); [exact Hs|].
  destruct (is_valid_chain digest s new_chain) eqn:Hv; simpl; [|exact Hs].
  apply is_valid_chain_iff in Hv as [Hne Hv].
  destruct new_chain as [|g rest]; [contradiction|].
  split; [exact Hne|]. simpl.
  apply (valid_chain_invariant s _ g); [reflexivity | now apply Hg | exact Hv].
Qed.

Lemma fork_detection_invariant s received :
  chain_invariant s ->
  chain_invariant (snd (fork_detection_and_resolution digest s received)).
Proof.
  intros Hs. unfold fork_detection_and_resolution.
  destruct (index received <? len (chain s)).
  - destruct (py_index (chain s) (index received)) as [existing|e|]; simpl;
      try exact Hs.
    destruct (String.eqb (hash existing) (hash received)); [exact Hs|].
    destruct (index received =? 0); [exact Hs|].
    destruct (py_index (chain s) (index received - 1)) as [predecessor|e|];
      simpl; try exact Hs.
    now destruct (String.eqb (previous_hash received) (hash predecessor)).
  - destruct (index received =? len (chain s)); [|exact Hs].
    destruct (last_is_Some (chain s)) as [latest Hlast]; [apply Hs|].
    rewrite (latest_block_last _ _ Hlast). simpl.
    destruct (is_valid_block digest s received latest) eqn:Hv; simpl;
      [|exact Hs].
    now apply (invariant_append _ _ latest).
Qed.

Lemma resolve_fork_invariant (fuel : nat) (clock : nat -> Timestamp) s
    (competing_chains : list (list (BlockDict Timestamp))) :
  chain_invariant s ->
  chain_invariant (snd (resolve_fork digest fuel clock s competing_chains)).
Proof.
  intros Hs. unfold resolve_fork.
  assert (Hstart : scanned digest s [] None (len (map to_dict (chain s)))).
  { assert (Hlen : len (map to_dict (chain s)) = len (chain s))
      by (unfold len; now rewrite length_map).
    rewrite Hlen. split; [lia|]. split; [|reflexivity].
    intros j x Hx. discriminate. }
  pose proof (resolve_fork_loop_spec fuel clock s competing_chains _ _ _ Hstart)
    as Hloop. simpl in Hloop.
  destruct (resolve_fork_loop digest fuel clock 0 s competing_chains None _)
    as [[[|g rest]|]|e|]; simpl; try exact Hs.
  destruct Hloop as (out_len & _ & _ & (_ & _ & _ & _ & [_ Hv] & _) & _).
  apply validates_from_scratch_cons in Hv as (H0 & _ & Hv).
  split; [discriminate|]. simpl.
  now apply (valid_chain_invariant s _ g).
Qed.

Lemma py_index_Return {A : Type} (l : list A) (i : Z) (x : A) :
  0 <= i -> py_index l i = Return x -> l !! Z.to_nat i = Some x.
Proof.
  intros Hi. unfold py_index. destruct (Z.ltb_spec i 0); [lia|].
  destruct ((0 <=? i) && (i <? len l)); [|discriminate].
  destruct (l !! Z.to_nat i); [|discriminate]. now intros [= ->].
Qed.

Lemma py_take_snoc c b (n : Z) :
  0 <= n <= len c -> py_take (c ++ [b]) n = py_take c n.
Proof.
  intros Hn. unfold py_take, len in *. destruct (Z.ltb_spec n 0); [lia|].
  apply take_app_le. lia.
Qed.

Lemma py_take_all c : py_take c (len c) = c.
Proof.
  unfold py_take, len. destruct (Z.ltb_spec (Z.of_nat (length c)) 0); [lia|].
  apply take_ge. lia.
Qed.

(** The append loop of [sync_missing_blocks], entered past position 0 with
    the candidate's previous block at the end of the local chain: the chain
    keeps its invariant, through the blocks it appends and through the cut
    back to [sync_from_index]. *)
Lemma sync_append_loop_invariant (competing_chain : list (Block Timestamp))
    (sync_from_index : Z) (todo : nat) :
  forall (i : Z) (cur : Blockchain Timestamp),
    chain_invariant cur ->
    1 <= i ->
    competing_chain !! Z.to_nat (i - 1) = last (chain cur) ->
    0 <= sync_from_index <= len (chain cur) ->
    chain_invariant (set_chain cur (py_take (chain cur) sync_from_index)) ->
    chain_invariant
      (snd (sync_append_loop digest cur competing_chain sync_from_index i todo)).
Proof.
  induction todo as [|todo IH]; intros i cur Hcur Hi Hprev Hfrom Hcut; simpl;
    [exact Hcur|].
  destruct (Z.eqb_spec i 0); [lia|].
  destruct (py_index competing_chain i) as [block|e|] eqn:Eb; simpl;
    try exact Hcur.
  destruct (py_index competing_chain (i - 1)) as [previous|e|] eqn:Ep; simpl;
    try exact Hcur.
  apply py_index_Return in Eb, Ep; try lia.
  destruct (is_valid_block digest cur block previous) eqn:Hv; simpl;
    [|exact Hcut].
  rewrite Ep in Hprev. symmetry in Hprev.
  apply IH.
  - now apply (invariant_append _ _ previous).
  - lia.
  - simpl. rewrite last_snoc. now replace (i + 1 - 1) with i by lia.
  - simpl. unfold len in *. rewrite length_app. simpl. lia.
  - simpl. now rewrite py_take_snoc.
Qed.

Lemma sync_missing_blocks_invariant s (competing_chain : list (Block Timestamp))
    (sync_from_index : Z) :
  chain_invariant s ->
  sync_from_index = len (chain s) ->
  competing_chain !! Z.to_nat (sync_from_index - 1) = last (chain s) ->
  chain_invariant
    (snd (sync_missing_blocks digest s competing_chain sync_from_index)).
Proof.
  intros Hs -> Hprev. unfold sync_missing_blocks.
  destruct ((len (chain s) <? 0) || (len competing_chain <=? len (chain s)));
    [exact Hs|].
  destruct (Z.leb_spec (len (chain s)) (len (chain s))); [|lia].
  assert (1 <= len (chain s)).
  { destruct Hs as (Hne & _). unfold len. destruct (chain s); [contradiction|].
    simpl. lia. }
  apply sync_append_loop_invariant; try assumption; try lia.
  now rewrite py_take_all, set_chain_same.
Qed.

(** Each operation, called within [keeps_to_the_chain], keeps the
    invariant, whatever it returns. *)
Lemma run_keeps_invariant (op : operation Timestamp) s :
  chain_invariant s -> keeps_to_the_chain op s ->
  chain_invariant (run digest op s).
Proof.
  intros Hs Hop. destruct op; simpl in *.
  - exact Hs.
  - now apply mine_pending_data_invariant.
  - now apply add_block_invariant.
  - now apply replace_chain_invariant.
  - now apply fork_detection_invariant.
  - now apply resolve_fork_invariant.
  - destruct Hop. now apply sync_missing_blocks_invariant.
Qed.

(** X25. Every chain built by the constructor and
    written by [add_data], [mine_pending_data], [add_block],
    [fork_detection_and_resolution] and [resolve_fork], by [replace_chain]
    on candidates whose first block has index 0, and by
    [sync_missing_blocks] started at the end of the local chain on a
    candidate that continues it, has the structural invariant: it is not
    empty, each block carries its predecessor's hash and its own position
    as index, and each block after the first has at least [difficulty]
    leading ['0']s in its hash. Each of these calls keeps it. *)
Theorem reachable_chain_invariant s :
  reachable digest s ->
  chain_invariant s
  /\ forall op : operation Timestamp,
       keeps_to_the_chain op s -> chain_invariant (run digest op s).
Proof.
  intros Hr.
  assert (Hs : chain_invariant s).
  { induction Hr as [fuel d now s Hinit|op s Hr IH Hop].
    - now apply (Blockchain_init_invariant fuel d now).
    - now apply run_keeps_invariant. }
  split; [exact Hs|]. intros op Hop. now apply run_keeps_invariant.
Qed.

(** ** Synchronisation: the append branch *)

(** When the append loop fails, the chain is what it had grown to, cut to
    its first [sync_from_index] blocks. *)
Lemma sync_append_loop_failure (competing_chain : list (Block Timestamp))
    (sync_from_index : Z) (todo : nat) :
  forall (i : Z) (cur : Blockchain Timestamp) (message : sync_message)
         (after : Blockchain Timestamp),
    0 <= sync_from_index <= len (chain cur) ->
    sync_append_loop digest cur competing_chain sync_from_index i todo
    = (Return (false, message), after) ->
    after = set_chain cur (py_take (chain cur) sync_from_index).
Proof.
  induction todo as [|todo IH]; intros i cur message after Hfrom; simpl;
    [discriminate|].
  destruct (if i =? 0 then Return true else _) as [[|]|e|]; simpl;
    try discriminate.
  - destruct (py_index competing_chain i) as [block|e|]; simpl;
      try discriminate.
    intros H. apply IH in H.
    + simpl in H. now rewrite py_take_snoc in H.
    + simpl. unfold len in *. rewrite length_app. simpl. lia.
  - now intros [= _ <-].
Qed.

(** A sync that starts at the end of the local chain and fails leaves the
    chain as it was at entry. *)
Lemma sync_failure_at_end_restores s (competing_chain : list (Block Timestamp))
    (message : sync_message) (after : Blockchain Timestamp) :
  sync_missing_blocks digest s competing_chain (len (chain s))
  = (Return (false, message), after) ->
  after = s.
Proof.
  unfold sync_missing_blocks.
  destruct ((len (chain s) <? 0) || (len competing_chain <=? len (chain s)));
    [now intros [= _ <-]|].
  destruct (Z.leb_spec (len (chain s)) (len (chain s))); [|lia].
  intros Hloop. apply sync_append_loop_failure in Hloop; [|unfold len; lia].
  now rewrite py_take_all, set_chain_same in Hloop.
Qed.

(** The cut keeps what was appended below [sync_from_index], whatever the
    digest: a local chain of one block, synced from index 2 with four
    candidate blocks of which the last is invalid, ends as two blocks. *)
Lemma sync_failure_beyond_end_keeps_a_block s (g k0 k1 k2 k3 : Block Timestamp) :
  chain s = [g] ->
  is_valid_block digest s k2 k1 = true ->
  is_valid_block digest s k3 k2 = false ->
  sync_missing_blocks digest s [k0; k1; k2; k3] 2
  = (Return (false, Invalid_block_during_sync 3), set_chain s [g; k2]).
Proof.
  intros Hc H2 H3. destruct s as [c d q]. simpl in Hc. subst c.
  unfold sync_missing_blocks.
  change (len [k0; k1; k2; k3]) with 4. change (Z.to_nat (4 - 2)) with 2%nat.
  cbv -[is_valid_block]. rewrite H2.
  rewrite (is_valid_block_difficulty _ (mkBlockchain [g] d q)) by reflexivity.
  now rewrite H3.
Qed.

(** [replace_chain] takes the first block of the candidate as it is,
    whatever the digest: a valid pair of blocks replaces a chain of one
    block, and the new chain is not indexed from 0 when the pair is not. *)
Lemma replace_chain_first_index_unchecked s (x y : Block Timestamp) :
  len (chain s) < 2 ->
  is_valid_block digest s y x = true ->
  index x <> 0 ->
  replace_chain digest s [x; y] = (true, set_chain s [x; y])
  /\ ~ chain_invariant (set_chain s [x; y]).
Proof.
  intros Hlen Hv Hx. split.
  - unfold replace_chain. change (len [x; y]) with 2.
    destruct (Z.leb_spec 2 (len (chain s))); [lia|].
    simpl. now rewrite Hv.
  - intros (_ & _ & Hi & _). apply Hx. now apply (Hi O x).
Qed.

(** * The rest of the ledger code *)

(** ** Blocks and their records *)

Lemma data_or_empty_given (d : json) : d <> JNull -> data_or_empty d = d.
Proof. now destruct d. Qed.

Lemma data_or_empty_stored (d : json) : data_or_empty d <> JNull.
Proof. now destruct d. Qed.

(** X1. A block and its dictionary. [to_dict] after [from_dict] gives the
    record back with a payload [None] replaced by the empty list: the
    record itself exactly when its payload is not [None]. [from_dict] after
    [to_dict] gives the block back exactly when its payload is not [None].
    The hash of a loaded block is the stored one, which is never
    recomputed: the loaded block is valid exactly when the stored hash is
    the digest of the other five fields, with the payload as the
    constructor stores it. *)
Theorem block_dict_round_trip b (bd : BlockDict Timestamp) :
  to_dict (from_dict digest bd)
  = mkBlockDict (d_index bd) (d_timestamp bd) (data_or_empty (d_data bd))
      (d_previous_hash bd) (d_nonce bd) (d_hash bd)
  /\ (to_dict (from_dict digest bd) = bd <-> d_data bd <> JNull)
  /\ (from_dict digest (to_dict b) = b <-> data b <> JNull)
  /\ hash (from_dict digest bd) = d_hash bd
  /\ (is_valid digest (from_dict digest bd) = true
      <-> d_hash bd = digest (d_index bd) (d_timestamp bd)
                        (data_or_empty (d_data bd))
                        (d_previous_hash bd) (d_nonce bd)).
Proof.
  destruct b as [i t d p n h], bd as [i' t' d' p' n' h'].
  split; [reflexivity|]. split; [|split; [|split; [reflexivity|]]].
  - unfold from_dict, to_dict, Block_init. simpl. split.
    + intros [= Hd] ->. discriminate.
    + intros Hd. now rewrite (data_or_empty_given d' Hd).
  - unfold from_dict, to_dict, Block_init. simpl. split.
    + intros [= Hd] ->. discriminate.
    + intros Hd. now rewrite (data_or_empty_given d Hd).
  - unfold is_valid. simpl. apply String.eqb_eq.
Qed.

(** X2. [mine_block] is an exhaustive scan: started on a block whose hash
    is the computed one, it returns the block at the first nonce, counted
    up from the starting one, whose digest meets the difficulty. Index,
    timestamp, data and previous-hash are untouched, and the hash returned
    is again the computed one. *)
Theorem mine_block_first_nonce (fuel : nat) (d : Z) :
  forall b b',
    hash b = calculate_hash digest b ->
    mine_block digest fuel d b = Return b' ->
    exists k : nat,
      (k <= fuel)%nat
      /\ nonce b' = nonce b + Z.of_nat k
      /\ hash b' = calculate_hash digest b'
      /\ meets_difficulty d (hash b') = true
      /\ (forall j : nat,
            (j < k)%nat ->
            meets_difficulty d
              (digest (index b) (timestamp b) (data b) (previous_hash b)
                      (nonce b + Z.of_nat j)) = false)
      /\ index b' = index b /\ timestamp b' = timestamp b
      /\ data b' = data b /\ previous_hash b' = previous_hash b.
Proof.
  induction fuel as [|fuel IH]; intros b b' Hh; rewrite mine_block_unfold;
    destruct (meets_difficulty d (hash b)) eqn:Hm.
  - intros [= <-]. exists O. rewrite Z.add_0_r. repeat split; auto; intros; lia.
  - discriminate.
  - intros [= <-]. exists O. rewrite Z.add_0_r.
    repeat split; auto with lia; intros; lia.
  - intros H. apply IH in H; [|reflexivity].
    destruct H as (k & Hk & Hn & Hh' & Hm' & Hfirst & Hi & Ht & Hd & Hp).
    simpl in *. exists (S k). repeat split; try assumption; try lia.
    intros [|j] Hj.
    + rewrite Z.add_0_r. unfold calculate_hash in Hh. now rewrite <- Hh.
    + replace (nonce b + Z.of_nat (S j)) with (nonce b + 1 + Z.of_nat j) by lia.
      apply Hfirst. lia.
Qed.

(** ** The constructor *)

Lemma is_valid_block_intro s b p :
  index b = index p + 1 -> previous_hash b = hash p ->
  hash b = calculate_hash digest b ->
  meets_difficulty (difficulty s) (hash b) = true ->
  is_valid_block digest s b p = true.
Proof.
  intros Hi Hp Hh Hm. unfold is_valid_block.
  apply Z.eqb_eq in Hi. apply String.eqb_eq in Hp, Hh.
  now rewrite Hi, Hp, Hh, Hm.
Qed.

(** X3. The constructor never raises. When it returns, the chain is one
    genesis block: index 0, the time of the call, the genesis message, 64
    zeros as previous-hash, a computed hash that meets the difficulty; the
    queue is empty and the chain validates. It fails to return within the
    fuel only when no nonce up to the fuel meets the difficulty. *)
Theorem Blockchain_init_spec (fuel : nat) (d : Z) (now : Timestamp) :
  match Blockchain_init digest fuel d now with
  | Return s =>
      exists g, chain s = [g]
        /\ index g = 0 /\ timestamp g = now /\ data g = genesis_data
        /\ previous_hash g = genesis_previous_hash
        /\ hash g = calculate_hash digest g
        /\ meets_difficulty d (hash g) = true
        /\ difficulty s = d /\ pending_data s = []
        /\ is_valid_chain digest s (chain s) = true
  | Raise _ => False
  | OutOfFuel =>
      forall k : nat,
        (k <= fuel)%nat ->
        meets_difficulty d
          (digest 0 now genesis_data genesis_previous_hash (Z.of_nat k)) = false
  end.
Proof.
  unfold Blockchain_init.
  destruct (mine_block digest fuel d _) as [g|e|] eqn:E; simpl.
  - apply mine_block_Return in E as (Hm & Hi & Ht & Hd & Hp & Hh).
    exists g. repeat split; auto.
  - now apply mine_block_no_raise in E.
  - intros k Hk.
    destruct (meets_difficulty d _) eqn:Hm; [|reflexivity].
    destruct (mine_block_enough k d fuel
                (Block_init digest 0 now genesis_data genesis_previous_hash 0) Hk)
      as [g Hg]; [reflexivity | exact Hm | congruence].
Qed.

(** ** Appending and queueing *)

(** X4. [add_block] raises [IndexError] on an empty chain and changes
    nothing. On a chain with a latest block it appends the block and
    returns [True] when the block is valid on the latest block, and returns
    [False] without a change when it is not; a block just added is refused
    when it is offered again. *)
Theorem add_block_spec s b :
  (chain s = [] -> add_block digest s b = (Raise IndexError, s))
  /\ (forall latest, last (chain s) = Some latest ->
        (is_valid_block digest s b latest = true ->
           add_block digest s b = (Return true, set_chain s (chain s ++ [b]))
           /\ add_block digest (set_chain s (chain s ++ [b])) b
              = (Return false, set_chain s (chain s ++ [b])))
        /\ (is_valid_block digest s b latest = false ->
              add_block digest s b = (Return false, s))).
Proof.
  split.
  - intros Hc. unfold add_block, latest_block. rewrite Hc, py_index_nil.
    reflexivity.
  - intros latest Hl. unfold add_block at 1 3.
    rewrite (latest_block_last _ _ Hl). simpl. split.
    + intros Hv. rewrite Hv. simpl. split; [reflexivity|].
      unfold add_block.
      rewrite (latest_block_last _ b) by (simpl; apply last_snoc). simpl.
      assert (Hself : is_valid_block digest (set_chain s (chain s ++ [b])) b b
                      = false).
      { unfold is_valid_block.
        destruct (Z.eqb_spec (index b) (index b + 1)); [lia | reflexivity]. }
      now rewrite Hself.
    + intros Hv. now rewrite Hv.
Qed.

Lemma add_data_all s (payloads : list json) :
  chain (fold_left add_data payloads s) = chain s
  /\ difficulty (fold_left add_data payloads s) = difficulty s
  /\ pending_data (fold_left add_data payloads s)
     = (pending_data s ++ payloads)%list.
Proof.
  revert s. induction payloads as [|d payloads IH]; intros s; simpl.
  - now rewrite app_nil_r.
  - destruct (IH (add_data s d)) as (Hc & Hd & Hq). simpl in *.
    rewrite Hc, Hd, Hq, <- app_assoc. auto.
Qed.

(** X5. The queue is first in, first out, and nothing is lost: the block
    mined after any number of [add_data] calls carries the payloads queued
    before them followed by theirs, in the order of the calls, and takes
    them all off the queue. [add_data] itself leaves the chain alone. *)
Theorem queued_payloads_are_mined_in_order (fuel : nat) (now : Timestamp) s
    (payloads : list json) (miner_address : string) new_block
    (after : Blockchain Timestamp) :
  mine_pending_data digest fuel now (fold_left add_data payloads s) miner_address
  = (Return (Some new_block), after) ->
  chain (fold_left add_data payloads s) = chain s
  /\ data new_block
     = JDict [("transactions", JList (pending_data s ++ payloads));
              ("miner", JStr miner_address)]
  /\ chain after = (chain s ++ [new_block])%list
  /\ pending_data after = [].
Proof.
  destruct (add_data_all s payloads) as (Hc & Hd & Hq).
  unfold mine_pending_data. rewrite Hq, Hc, Hd.
  destruct (pending_data s ++ payloads)%list as [|d0 q] eqn:Eq; [discriminate|].
  rewrite <- Eq. unfold latest_block. rewrite Hc.
  destruct (py_index (chain s) (-1)) as [latest|e|]; simpl; try discriminate.
  destruct (mine_block digest fuel (difficulty s) _) as [mined|e|] eqn:Em;
    simpl; try discriminate.
  intros [= <- <-]. simpl.
  apply mine_block_Return in Em as (_ & _ & _ & Hdata & _).
  auto.
Qed.

(** ** Looking blocks up *)

Lemma get_block_by_index_lookup s (i : Z) :
  get_block_by_index s i
  = Return (if (0 <=? i) && (i <? len (chain s)) then chain s !! Z.to_nat i
            else None).
Proof.
  unfold get_block_by_index.
  destruct (Z.leb_spec 0 i) as [H0|H0]; simpl; [|reflexivity].
  destruct (Z.ltb_spec i (len (chain s))) as [Hi|Hi]; [|reflexivity].
  destruct (lookup_in_range (chain s) i) as [b Hb]; [lia|].
  now rewrite (py_index_in_range _ _ _ H0 Hb), Hb.
Qed.

(** X6. [get_block_by_index] never raises and does not count from the end:
    outside [0 <= i < len(chain)] it returns nothing. On a chain with the
    structural invariant it returns the block of the chain whose index
    field is [i], and only that one. *)
Theorem get_block_by_index_spec s (i : Z) :
  (exists found, get_block_by_index s i = Return found)
  /\ (i < 0 \/ len (chain s) <= i -> get_block_by_index s i = Return None)
  /\ (chain_invariant s ->
      forall b, get_block_by_index s i = Return (Some b)
                <-> b ∈ chain s /\ index b = i).
Proof.
  rewrite get_block_by_index_lookup. split; [eauto|]. split.
  - intros [H|H].
    + destruct (Z.leb_spec 0 i); [lia | reflexivity].
    + destruct (Z.ltb_spec i (len (chain s))); [lia|].
      now rewrite andb_false_r.
  - intros (_ & _ & Hidx & _) b. split.
    + destruct (Z.leb_spec 0 i) as [H0|H0]; simpl; [|discriminate].
      destruct (Z.ltb_spec i (len (chain s))); [|discriminate].
      intros [= Hb]. split.
      * apply list_elem_of_lookup. eauto.
      * apply Hidx in Hb. lia.
    + intros [Hin <-]. apply list_elem_of_lookup in Hin as [k Hk].
      pose proof (Hidx k b Hk) as Hi. pose proof (lookup_lt_Some _ _ _ Hk) as Hlt.
      rewrite Hi. unfold len.
      destruct (Z.leb_spec 0 (Z.of_nat k)); [|lia].
      destruct (Z.ltb_spec (Z.of_nat k) (Z.of_nat (length (chain s)))); [|lia].
      simpl. now rewrite Nat2Z.id, Hk.
Qed.

Lemma find_by_hash_spec (blocks : list (Block Timestamp)) (hash_value : string) :
  match find_by_hash blocks hash_value with
  | Some b =>
      exists k : nat,
        blocks !! k = Some b /\ hash b = hash_value
        /\ forall (j : nat) b', (j < k)%nat -> blocks !! j = Some b' ->
                                hash b' <> hash_value
  | None => forall b, b ∈ blocks -> hash b <> hash_value
  end.
Proof.
  induction blocks as [|x blocks IH]; simpl.
  - intros b Hb. inversion Hb.
  - destruct (String.eqb_spec (hash x) hash_value) as [Hx|Hx].
    + exists O. repeat split; auto. intros j b' Hj. lia.
    + destruct (find_by_hash blocks hash_value) as [b|].
      * destruct IH as (k & Hk & Hb & Hfirst). exists (S k).
        repeat split; auto. intros [|j] b' Hj Hb'; simpl in Hb'.
        -- now injection Hb' as <-.
        -- apply (Hfirst j); [lia | exact Hb'].
      * intros b Hb. apply elem_of_cons in Hb as [->|Hb]; auto.
Qed.

(** X7. [get_block_by_hash] returns the first block of the chain, from the
    genesis block on, that has the hash asked for, and nothing exactly when
    no block of the chain has it. *)
Theorem get_block_by_hash_spec s (hash_value : string) :
  match get_block_by_hash s hash_value with
  | Some b =>
      exists k : nat,
        chain s !! k = Some b /\ hash b = hash_value
        /\ forall (j : nat) b', (j < k)%nat -> chain s !! j = Some b' ->
                                hash b' <> hash_value
  | None => forall b, b ∈ chain s -> hash b <> hash_value
  end.
Proof. unfold get_block_by_hash. apply find_by_hash_spec. Qed.

Lemma find_by_hash_app (blocks : list (Block Timestamp)) b (hash_value : string) :
  find_by_hash (blocks ++ [b]) hash_value
  = match find_by_hash blocks hash_value with
    | Some x => Some x
    | None => if String.eqb (hash b) hash_value then Some b else None
    end.
Proof.
  induction blocks as [|x blocks IH]; simpl; [reflexivity|].
  now destruct (String.eqb (hash x) hash_value).
Qed.

(** X8. What [add_block] appends can be looked up. After a block was added
    to a chain with the structural invariant, it is the latest block, the
    chain is one longer, [get_block_by_index] finds it under its own index,
    and [get_block_by_hash] under its hash unless an older block has the
    same hash; every lookup that succeeded before gives the same block. *)
Theorem appended_block_is_found s b latest :
  chain_invariant s ->
  last (chain s) = Some latest ->
  is_valid_block digest s b latest = true ->
  let after := snd (add_block digest s b) in
  fst (add_block digest s b) = Return true
  /\ latest_block after = Return b
  /\ get_chain_length after = get_chain_length s + 1
  /\ get_block_by_index after (index b) = Return (Some b)
  /\ (forall (i : Z) x, get_block_by_index s i = Return (Some x) ->
                        get_block_by_index after i = Return (Some x))
  /\ (forall (h : string) x, get_block_by_hash s h = Some x ->
                             get_block_by_hash after h = Some x)
  /\ ((forall x, x ∈ chain s -> hash x <> hash b) ->
      get_block_by_hash after (hash b) = Some b).
Proof.
  intros (Hne & _ & Hidx & _) Hl Hv after. subst after.
  unfold add_block. rewrite (latest_block_last _ _ Hl). simpl. rewrite Hv. simpl.
  apply is_valid_block_true in Hv as (Hi & _).
  rewrite last_lookup in Hl. pose proof (lookup_lt_Some _ _ _ Hl) as Hlt.
  apply Hidx in Hl.
  assert (Hb : index b = len (chain s)) by (unfold len; lia).
  split; [reflexivity|]. split; [apply py_index_last, last_snoc|].
  split; [unfold get_chain_length, len; simpl; rewrite length_app; simpl; lia|].
  split; [|split; [|split]].
  - rewrite get_block_by_index_lookup. simpl. rewrite Hb.
    unfold len. rewrite length_app. simpl.
    destruct (Z.leb_spec 0 (Z.of_nat (length (chain s)))); [|lia].
    destruct (Z.ltb_spec (Z.of_nat (length (chain s)))
                (Z.of_nat (length (chain s) + 1))); [|lia].
    simpl. rewrite Nat2Z.id. f_equal.
    apply lookup_snoc_Some. now right.
  - intros i x. rewrite !get_block_by_index_lookup. simpl.
    unfold len. rewrite length_app. simpl.
    destruct (Z.leb_spec 0 i); simpl; [|discriminate].
    destruct (Z.ltb_spec i (Z.of_nat (length (chain s)))); [|discriminate].
    destruct (Z.ltb_spec i (Z.of_nat (length (chain s) + 1))); [|lia].
    intros [= Hx]. f_equal. now apply lookup_app_l_Some.
  - intros h x. unfold get_block_by_hash. simpl. rewrite find_by_hash_app.
    now intros ->.
  - intros Hnew. unfold get_block_by_hash. simpl. rewrite find_by_hash_app.
    pose proof (find_by_hash_spec (chain s) (hash b)) as Hfind.
    destruct (find_by_hash (chain s) (hash b)) as [x|].
    + destruct Hfind as (k & Hk & Hx & _). exfalso.
      apply (Hnew x); [|exact Hx]. apply list_elem_of_lookup. eauto.
    + now rewrite String.eqb_refl.
Qed.

(** ** Saving and loading a chain *)

Lemma from_dict_all (chain_dict : list (BlockDict Timestamp)) :
  forall bc : Blockchain Timestamp,
    fold_left
      (fun bc block_dict =>
         set_chain bc (chain bc ++ [from_dict digest block_dict]))
      chain_dict bc
    = set_chain bc (chain bc ++ map (from_dict digest) chain_dict).
Proof.
  induction chain_dict as [|bd chain_dict IH]; intros bc; simpl.
  - now rewrite app_nil_r, set_chain_same.
  - rewrite IH. unfold set_chain. simpl. now rewrite <- app_assoc.
Qed.

Lemma is_valid_chain_difficulty s1 s2 c :
  difficulty s1 = difficulty s2 ->
  is_valid_chain digest s1 c = is_valid_chain digest s2 c.
Proof.
  intros Hd. destruct c as [|g rest]; [reflexivity|]. simpl.
  revert g. induction rest as [|b rest IH]; intros g; simpl; [reflexivity|].
  rewrite (is_valid_block_difficulty s1 s2 _ _ Hd).
  destruct (is_valid_block digest s2 b g); simpl; [apply IH | reflexivity].
Qed.

Lemma map_from_dict_to_dict c :
  Forall (fun b => data b <> JNull) c ->
  map (from_dict digest) (map to_dict c) = c.
Proof.
  induction 1 as [|b c Hb _ IH]; simpl; [reflexivity|].
  rewrite IH. destruct b as [i t d p n h]. simpl in Hb.
  unfold from_dict, to_dict, Block_init. simpl.
  now rewrite (data_or_empty_given d Hb).
Qed.

Lemma map_to_dict_from_dict (chain_dict : list (BlockDict Timestamp)) :
  map to_dict (map (from_dict digest) chain_dict)
  = map (fun bd => mkBlockDict (d_index bd) (d_timestamp bd)
                     (data_or_empty (d_data bd)) (d_previous_hash bd)
                     (d_nonce bd) (d_hash bd))
      chain_dict.
Proof.
  induction chain_dict as [|bd chain_dict IH]; simpl; [reflexivity|].
  rewrite IH. now destruct bd.
Qed.

Lemma map_to_dict_from_dict_given (chain_dict : list (BlockDict Timestamp)) :
  Forall (fun bd => d_data bd <> JNull) chain_dict ->
  map to_dict (map (from_dict digest) chain_dict) = chain_dict.
Proof.
  induction 1 as [|bd chain_dict Hbd _ IH]; simpl; [reflexivity|].
  rewrite IH. destruct bd as [i t d p n h]. simpl in Hbd.
  unfold from_dict, to_dict, Block_init. simpl.
  now rewrite (data_or_empty_given d Hbd).
Qed.

(** X9. Loading a chain. [Blockchain.from_dict] never raises; when it
    returns, the chain holds the blocks of the records in order, without a
    genesis block of its own and without any validation, the queue is
    empty and the difficulty is the one passed. Writing the loaded chain
    out gives the records back with every payload [None] replaced by the
    empty list, so the records themselves when no payload is [None]. A
    chain whose blocks carry a payload, written with [to_dict] and loaded
    again, has the same blocks, loses its queue, and, loaded with its own
    difficulty, validates exactly as before. *)
Theorem blockchain_dict_round_trip (fuel : nat) (now : Timestamp) (d : Z) s
    (chain_dict : list (BlockDict Timestamp)) :
  match Blockchain_from_dict digest fuel now chain_dict d with
  | Return loaded =>
      chain loaded = map (from_dict digest) chain_dict
      /\ Blockchain_to_dict loaded
         = map (fun bd => mkBlockDict (d_index bd) (d_timestamp bd)
                            (data_or_empty (d_data bd)) (d_previous_hash bd)
                            (d_nonce bd) (d_hash bd))
             chain_dict
      /\ (Forall (fun bd => d_data bd <> JNull) chain_dict ->
          Blockchain_to_dict loaded = chain_dict)
      /\ difficulty loaded = d /\ pending_data loaded = []
  | Raise _ => False
  | OutOfFuel => Blockchain_init digest fuel d now = OutOfFuel
  end
  /\ match Blockchain_from_dict digest fuel now (Blockchain_to_dict s) d with
     | Return loaded =>
         pending_data loaded = []
         /\ difficulty loaded = d
         /\ (Forall (fun b => data b <> JNull) (chain s) ->
             chain loaded = chain s
             /\ (d = difficulty s ->
                 is_valid_chain digest loaded (chain loaded)
                 = is_valid_chain digest s (chain s)))
     | Raise _ => False
     | OutOfFuel => Blockchain_init digest fuel d now = OutOfFuel
     end.
Proof.
  unfold Blockchain_from_dict, Blockchain_to_dict.
  destruct (Blockchain_init_cases fuel d now) as [[g E]|E]; rewrite E; simpl;
    [|auto].
  rewrite !from_dict_all. simpl. split.
  - split; [reflexivity|]. split; [apply map_to_dict_from_dict|].
    split; [apply map_to_dict_from_dict_given | auto].
  - split; [reflexivity|]. split; [reflexivity|]. intros Hdata.
    rewrite (map_from_dict_to_dict _ Hdata). split; [reflexivity|].
    intros ->. now apply is_valid_chain_difficulty.
Qed.

(** ** Blocks after a fork point *)

(** X10. [get_blocks_after_fork] splits the chain: for a fork point with at
    least one block after it, the blocks up to the fork point followed by
    the blocks returned are the chain, and there are
    [len(chain) - fork_point - 1] of them. For any other fork point, the
    [-1] that [find_common_ancestor] returns for chains without a common
    genesis block included, it returns no block. When the fork point is the
    common ancestor with a candidate that has a block at the next position,
    the first block returned differs from it in its hash. *)
Theorem get_blocks_after_fork_spec s (fork_point : Z) :
  (0 <= fork_point < len (chain s) - 1 ->
     (take (Z.to_nat (fork_point + 1)) (chain s)
      ++ get_blocks_after_fork s fork_point)%list = chain s
     /\ len (get_blocks_after_fork s fork_point)
        = len (chain s) - fork_point - 1)
  /\ (fork_point < 0 \/ len (chain s) - 1 <= fork_point ->
      get_blocks_after_fork s fork_point = [])
  /\ (forall (competing_chain : list (Block Timestamp)) b',
        fork_point = find_common_ancestor s competing_chain ->
        competing_chain !! Z.to_nat (fork_point + 1) = Some b' ->
        forall b, get_blocks_after_fork s fork_point !! O = Some b ->
                  hash b <> hash b').
Proof.
  unfold get_blocks_after_fork. split; [|split].
  - intros H.
    destruct (Z.ltb_spec fork_point 0); [lia|].
    destruct (Z.leb_spec (len (chain s) - 1) fork_point); [lia|]. simpl.
    unfold py_drop. destruct (Z.ltb_spec (fork_point + 1) 0); [lia|].
    split; [apply take_drop|].
    unfold len in *. rewrite length_drop. lia.
  - intros [H|H].
    + destruct (Z.ltb_spec fork_point 0); [reflexivity | lia].
    + destruct (Z.leb_spec (len (chain s) - 1) fork_point); [|lia].
      now rewrite orb_true_r.
  - intros competing_chain b' Hfp Hb' b.
    destruct (Z.ltb_spec fork_point 0); [discriminate|].
    destruct (Z.leb_spec (len (chain s) - 1) fork_point); [discriminate|].
    simpl. unfold py_drop. destruct (Z.ltb_spec (fork_point + 1) 0); [lia|].
    rewrite lookup_drop, Nat.add_0_r. intros Hb.
    unfold find_common_ancestor in Hfp.
    destruct (mismatch_or_agree (chain s) competing_chain) as [[k Hk]|Hagree].
    + rewrite (common_ancestor_loop_mismatch k) in Hfp by exact Hk.
      destruct Hk as (_ & x & y & Hx & Hy & Hxy).
      replace (Z.to_nat (fork_point + 1)) with k in * by lia. congruence.
    + rewrite common_ancestor_loop_agree in Hfp by exact Hagree.
      apply lookup_lt_Some in Hb, Hb'. unfold len in *. lia.
Qed.

(** ** Resolving conflicts with [replace_chain] *)

Lemma first_longest_keep (ok : list (Block Timestamp) -> Prop)
    (seen : list (list (Block Timestamp))) (c w : list (Block Timestamp)) :
  first_longest ok seen w ->
  (ok c -> len c <= len w) ->
  first_longest ok (seen ++ [c]) w.
Proof.
  intros (k & Hk & Hw & Hall & Hbefore) Hc.
  exists k. split; [now apply lookup_app_l_Some|]. split; [exact Hw|]. split.
  - intros j x Hx Hok. apply lookup_snoc_Some in Hx as [[_ Hx]|[_ <-]].
    + now apply (Hall j).
    + now apply Hc.
  - intros j x Hj Hx Hok. apply lookup_snoc_Some in Hx as [[_ Hx]|[-> _]].
    + now apply (Hbefore j).
    + apply lookup_lt_Some in Hk. lia.
Qed.

Lemma first_longest_adopt (ok : list (Block Timestamp) -> Prop)
    (seen : list (list (Block Timestamp))) (c : list (Block Timestamp)) :
  ok c ->
  (forall (j : nat) x, seen !! j = Some x -> ok x -> len x < len c) ->
  first_longest ok (seen ++ [c]) c.
Proof.
  intros Hc Hseen. exists (length seen).
  split; [apply lookup_snoc_Some; now right|]. split; [exact Hc|]. split.
  - intros j x Hx Hok. apply lookup_snoc_Some in Hx as [[_ Hx]|[_ <-]].
    + specialize (Hseen j x Hx Hok). lia.
    + lia.
  - intros j x Hj Hx Hok. apply lookup_snoc_Some in Hx as [[_ Hx]|[-> _]].
    + now apply (Hseen j).
    + lia.
Qed.

Lemma same_but_chain (a b0 : Blockchain Timestamp) :
  difficulty a = difficulty b0 -> pending_data a = pending_data b0 ->
  a = set_chain b0 (chain a).
Proof. destruct a, b0. simpl. now intros -> ->. Qed.

(** The loop of [resolve_conflicts], from the chain [s0] on: either nothing
    was replaced and no candidate seen is acceptable to [s0], or the chain
    is the first longest acceptable candidate seen. *)
Lemma resolve_conflicts_loop_spec (s0 : Blockchain Timestamp)
    (rest : list (list (BlockDict Timestamp))) :
  forall (seen : list (list (Block Timestamp))) (cur : Blockchain Timestamp)
         (replaced : bool),
    difficulty cur = difficulty s0 ->
    pending_data cur = pending_data s0 ->
    (if replaced
     then first_longest (longer_and_valid digest s0) seen (chain cur)
     else chain cur = chain s0
          /\ forall (j : nat) c, seen !! j = Some c ->
                                 ~ longer_and_valid digest s0 c) ->
    let result := resolve_conflicts_loop digest cur rest replaced in
    let all := (seen ++ map (map (from_dict digest)) rest)%list in
    difficulty (snd result) = difficulty s0
    /\ pending_data (snd result) = pending_data s0
    /\ (if fst result
        then first_longest (longer_and_valid digest s0) all (chain (snd result))
        else chain (snd result) = chain s0
             /\ forall (j : nat) c, all !! j = Some c ->
                                    ~ longer_and_valid digest s0 c).
Proof.
  induction rest as [|chain_data rest IH]; intros seen cur replaced Hd Hq Hinv;
    simpl.
  - rewrite app_nil_r. auto.
  - set (c := map (from_dict digest) chain_data).
    replace (seen ++ c :: map (map (from_dict digest)) rest)%list
      with ((seen ++ [c]) ++ map (map (from_dict digest)) rest)%list
      by now rewrite <- app_assoc.
    assert (Hlen : len (chain s0) <= len (chain cur)).
    { destruct replaced.
      - destruct Hinv as (_ & _ & [Hlonger _] & _). lia.
      - destruct Hinv as [-> _]. lia. }
    unfold replace_chain.
    destruct (Z.leb_spec (len c) (len (chain cur))) as [Hshort|Hlonger]; simpl.
    { apply IH; try assumption. destruct replaced.
      - apply first_longest_keep; [exact Hinv | intros _; exact Hshort].
      - destruct Hinv as [Hc Hnone]. split; [exact Hc|].
        intros j x Hx. apply lookup_snoc_Some in Hx as [[_ Hx]|[_ <-]].
        + now apply (Hnone j).
        + intros [Hl _]. rewrite Hc in Hshort. lia. }
    rewrite (is_valid_chain_difficulty cur s0 c Hd).
    destruct (is_valid_chain digest s0 c) eqn:Hv; simpl.
    + apply IH; try assumption. simpl.
      apply first_longest_adopt; [split; [lia | exact Hv]|].
      intros j x Hx Hok. destruct replaced.
      * destruct Hinv as (_ & _ & _ & Hall & _). specialize (Hall j x Hx Hok). lia.
      * destruct Hinv as [_ Hnone]. now apply Hnone in Hx.
    + apply IH; try assumption. destruct replaced.
      * apply first_longest_keep; [exact Hinv|]. intros [_ Hok]. congruence.
      * destruct Hinv as [Hc Hnone]. split; [exact Hc|].
        intros j x Hx. apply lookup_snoc_Some in Hx as [[_ Hx]|[_ <-]].
        -- now apply (Hnone j).
        -- intros [_ Hok]. congruence.
Qed.

(** X11. [resolve_conflicts] returns [True] exactly when it replaced the
    chain. It ends on the longest candidate that is strictly longer than the
    chain it started from and that [is_valid_chain] accepts, the first of
    that length in the list; without such a candidate it returns [False]
    and changes nothing. The queue and the difficulty are never touched.
    Unlike [resolve_fork], it does not look at the first block of a
    candidate. *)
Theorem resolve_conflicts_spec s (chains : list (list (BlockDict Timestamp))) :
  let result := resolve_conflicts digest s chains in
  let candidates := map (map (from_dict digest)) chains in
  difficulty (snd result) = difficulty s
  /\ pending_data (snd result) = pending_data s
  /\ (fst result = true ->
      first_longest (longer_and_valid digest s) candidates (chain (snd result)))
  /\ (fst result = false ->
      snd result = s
      /\ forall (j : nat) c, candidates !! j = Some c ->
                             ~ longer_and_valid digest s c).
Proof.
  intros result candidates. subst result candidates. unfold resolve_conflicts.
  destruct (resolve_conflicts_loop_spec s chains [] s false eq_refl eq_refl)
    as (Hd & Hq & H).
  { split; [reflexivity|]. intros j c Hc. discriminate. }
  simpl in H. split; [exact Hd|]. split; [exact Hq|]. split.
  - intros Ht. now rewrite Ht in H.
  - intros Hf. rewrite Hf in H. destruct H as [Hc Hnone]. split; [|exact Hnone].
    rewrite (same_but_chain _ s Hd Hq), Hc. apply set_chain_same.
Qed.

(** ** Chains that verify *)

Lemma pairwise_valid_difficulty s1 s2 c :
  difficulty s1 = difficulty s2 ->
  pairwise_valid digest s1 c -> pairwise_valid digest s2 c.
Proof.
  intros Hd H i b p Hb Hp.
  rewrite <- (is_valid_block_difficulty s1 s2 _ _ Hd). now apply (H i).
Qed.

Lemma pairwise_valid_snoc s c b latest :
  pairwise_valid digest s c ->
  last c = Some latest ->
  is_valid_block digest s b latest = true ->
  pairwise_valid digest s (c ++ [b]).
Proof.
  intros H Hl Hv i x y Hx Hy. rewrite last_lookup in Hl.
  pose proof (lookup_lt_Some _ _ _ Hl) as Hlt.
  apply lookup_snoc_Some in Hx as [[Hi Hx]|[Hi <-]].
  - rewrite lookup_app_l in Hy by lia. now apply (H i).
  - rewrite lookup_app_l in Hy by lia.
    replace i with (pred (length c)) in Hy by lia. congruence.
Qed.

Lemma pairwise_valid_take s c (n : Z) :
  pairwise_valid digest s c -> pairwise_valid digest s (py_take c n).
Proof.
  intros H i x y Hx Hy. unfold py_take in *.
  destruct (n <? 0); apply lookup_take_Some in Hx as [Hx _];
    apply lookup_take_Some in Hy as [Hy _]; now apply (H i).
Qed.

(** A chain has the invariant and all its adjacent pairs are valid. *)
Lemma mine_pending_data_verifies (fuel : nat) (now : Timestamp) s
    (miner_address : string) :
  chain_invariant s -> pairwise_valid digest s (chain s) ->
  let after := snd (mine_pending_data digest fuel now s miner_address) in
  pairwise_valid digest after (chain after).
Proof.
  intros (Hne & _ & Hidx & _) Hv after. subst after. unfold mine_pending_data.
  destruct (pending_data s) as [|d0 q]; [exact Hv|].
  destruct (last_is_Some _ Hne) as [latest Hl].
  rewrite (latest_block_last _ _ Hl). simpl.
  destruct (mine_block digest fuel (difficulty s) _) as [mined|e|] eqn:E;
    simpl; try exact Hv.
  apply mine_block_Return in E as (Hm & Hi & _ & _ & Hp & Hh). simpl in *.
  apply (pairwise_valid_difficulty s); [reflexivity|].
  apply (pairwise_valid_snoc _ _ _ latest); [exact Hv | exact Hl |].
  apply is_valid_block_intro; [|exact Hp | now apply Hh | exact Hm].
  rewrite last_lookup in Hl. pose proof (lookup_lt_Some _ _ _ Hl) as Hlt.
  apply Hidx in Hl. unfold len in Hi. lia.
Qed.

Lemma sync_append_loop_verifies (competing_chain : list (Block Timestamp))
    (sync_from_index : Z) (todo : nat) :
  forall (i : Z) (cur : Blockchain Timestamp),
    pairwise_valid digest cur (chain cur) ->
    1 <= i ->
    competing_chain !! Z.to_nat (i - 1) = last (chain cur) ->
    let after :=
      snd (sync_append_loop digest cur competing_chain sync_from_index i todo) in
    pairwise_valid digest after (chain after).
Proof.
  induction todo as [|todo IH]; intros i cur Hcur Hi Hprev; simpl;
    [exact Hcur|].
  destruct (Z.eqb_spec i 0); [lia|].
  destruct (py_index competing_chain i) as [block|e|] eqn:Eb; simpl;
    try exact Hcur.
  destruct (py_index competing_chain (i - 1)) as [previous|e|] eqn:Ep; simpl;
    try exact Hcur.
  apply py_index_Return in Eb, Ep; try lia.
  destruct (is_valid_block digest cur block previous) eqn:Hv; simpl.
  - rewrite Ep in Hprev. symmetry in Hprev. apply IH.
    + simpl. apply (pairwise_valid_difficulty cur); [reflexivity|].
      now apply (pairwise_valid_snoc _ _ _ previous).
    + lia.
    + simpl. rewrite last_snoc. now replace (i + 1 - 1) with i by lia.
  - apply (pairwise_valid_difficulty cur); [reflexivity|].
    now apply pairwise_valid_take.
Qed.

Lemma run_verifies (op : operation Timestamp) s :
  chain_invariant s -> pairwise_valid digest s (chain s) ->
  keeps_to_the_chain op s ->
  pairwise_valid digest (run digest op s) (chain (run digest op s)).
Proof.
  intros Hs Hv Hop. destruct op; simpl in *.
  - exact Hv.
  - now apply mine_pending_data_verifies.
  - unfold add_block.
    destruct (last_is_Some (chain s)) as [latest Hl]; [apply Hs|].
    rewrite (latest_block_last _ _ Hl). simpl.
    destruct (is_valid_block digest s block latest) eqn:Hb; simpl; [|exact Hv].
    apply (pairwise_valid_difficulty s); [reflexivity|].
    now apply (pairwise_valid_snoc _ _ _ latest).
  - unfold replace_chain.
    destruct (len new_chain <=? len (chain s)); [exact Hv|].
    destruct (is_valid_chain digest s new_chain) eqn:Hn; simpl; [|exact Hv].
    apply is_valid_chain_iff in Hn as [_ Hn].
    now apply (pairwise_valid_difficulty s).
  - unfold fork_detection_and_resolution.
    destruct (index received_block <? len (chain s)).
    + destruct (py_index (chain s) (index received_block)) as [existing|e|];
        simpl; try exact Hv.
      destruct (String.eqb (hash existing) (hash received_block)); [exact Hv|].
      destruct (index received_block =? 0); [exact Hv|].
      destruct (py_index (chain s) (index received_block - 1))
        as [predecessor|e|]; simpl; try exact Hv.
      now destruct (String.eqb (previous_hash received_block) (hash predecessor)).
    + destruct (index received_block =? len (chain s)); [|exact Hv].
      destruct (last_is_Some (chain s)) as [latest Hl]; [apply Hs|].
      rewrite (latest_block_last _ _ Hl). simpl.
      destruct (is_valid_block digest s received_block latest) eqn:Hb; simpl;
        [|exact Hv].
      apply (pairwise_valid_difficulty s); [reflexivity|].
      now apply (pairwise_valid_snoc _ _ _ latest).
  - unfold resolve_fork.
    assert (Hstart : scanned digest s [] None (len (map to_dict (chain s)))).
    { assert (Hlen : len (map to_dict (chain s)) = len (chain s))
        by (unfold len; now rewrite length_map).
      rewrite Hlen. split; [lia|]. split; [|reflexivity].
      intros j x Hx. discriminate. }
    pose proof (resolve_fork_loop_spec fuel clock s competing_chains _ _ _ Hstart)
      as Hloop. simpl in Hloop.
    destruct (resolve_fork_loop digest fuel clock 0 s competing_chains None _)
      as [[[|g rest]|]|e|]; simpl; try exact Hv.
    destruct Hloop as (out_len & _ & _ & (_ & _ & _ & _ & [_ [_ Hw]] & _) & _).
    now apply (pairwise_valid_difficulty s).
  - destruct Hop as [-> Hprev]. unfold sync_missing_blocks.
    destruct ((len (chain s) <? 0) || (len competing_chain <=? len (chain s)));
      [exact Hv|].
    destruct (Z.leb_spec (len (chain s)) (len (chain s))); [|lia].
    apply sync_append_loop_verifies; try assumption.
    destruct Hs as (Hne & _). unfold len. destruct (chain s); [contradiction|].
    simpl. lia.
Qed.

(** X12. Every chain built by the constructor and written by the
    operations within [keeps_to_the_chain] passes its own verification:
    [is_valid_chain] returns [True] on it, so every block after the first
    follows its predecessor's index, carries its hash, has the computed
    hash and meets the difficulty. *)
Theorem reachable_chain_verifies s :
  reachable digest s ->
  is_valid_chain digest s (chain s) = true.
Proof.
  intros Hr.
  assert (H : chain_invariant s /\ pairwise_valid digest s (chain s)).
  { induction Hr as [fuel d now s Hinit|op s Hr [Hs Hv] Hop].
    - split; [now apply (Blockchain_init_invariant fuel d now)|].
      destruct (Blockchain_init_cases fuel d now) as [[g E]|E]; [|congruence].
      rewrite E in Hinit. injection Hinit as <-. apply pairwise_valid_single.
    - split; [now apply run_keeps_invariant | now apply run_verifies]. }
  apply is_valid_chain_iff. split; [apply H | apply H].
Qed.

(** ** The three readings of a received block *)

(** X13. [handle_received_block] and [fork_detection_and_resolution] write
    the chain alike: on every received block, whatever they return, they
    leave the same chain object. On a chain with a genesis block and a
    block with a position they both return; whenever the second reports
    success so does the first, and they differ exactly on a block that is
    already in the chain at its index, which the first counts as handled
    and the second as not added. *)
Theorem received_block_handlers_agree s received :
  snd (handle_received_block digest s received)
  = snd (fork_detection_and_resolution digest s received)
  /\ (chain s <> [] -> 0 <= index received ->
      exists (handled : bool) (reason : string) (added : bool) (reason' : string),
        fst (handle_received_block digest s received) = Return (handled, reason)
        /\ fst (fork_detection_and_resolution digest s received)
           = Return (added, reason')
        /\ (added = true -> handled = true)
        /\ (handled = true /\ added = false
            <-> index received < len (chain s)
                /\ exists existing,
                     chain s !! Z.to_nat (index received) = Some existing
                     /\ hash existing = hash received)).
Proof.
  split.
  - unfold handle_received_block, fork_detection_and_resolution.
    destruct (Z.eqb_spec (index received) (len (chain s))) as [He|He];
      destruct (Z.ltb_spec (index received) (len (chain s))) as [Hl|Hl];
      try lia; try reflexivity.
    + destruct (latest_block s) as [latest|e|]; simpl; try reflexivity.
      now destruct (is_valid_block digest s received latest).
    + destruct (py_index (chain s) (index received)) as [existing|e|]; simpl;
        try reflexivity.
      destruct (String.eqb (hash existing) (hash received)); [reflexivity|].
      destruct (index received =? 0); [reflexivity|].
      destruct (py_index (chain s) (index received - 1)) as [p|e|]; simpl;
        try reflexivity.
      now destruct (String.eqb (previous_hash received) (hash p)).
  - intros Hne H0.
    destruct (Z.lt_trichotomy (index received) (len (chain s))) as [Hi|[Hi|Hi]].
    + destruct (lookup_in_range (chain s) (index received)) as [existing He];
        [lia|].
      rewrite (fork_detection_taken s received existing H0 He).
      unfold handle_received_block.
      destruct (Z.eqb_spec (index received) (len (chain s))); [lia|].
      destruct (Z.ltb_spec (index received) (len (chain s))); [|lia].
      rewrite (py_index_in_range _ _ _ H0 He). simpl.
      destruct (String.eqb_spec (hash existing) (hash received)) as [Hh|Hh].
      * do 4 eexists. split; [reflexivity|]. split; [reflexivity|].
        split; [discriminate|]. split; [|auto]. intros _. eauto.
      * assert (Hno : ~ (index received < len (chain s)
                         /\ exists x, chain s !! Z.to_nat (index received) = Some x
                                      /\ hash x = hash received)).
        { intros (_ & x & Hx & Hxh). congruence. }
        destruct (Z.eqb_spec (index received) 0).
        { do 4 eexists. split; [reflexivity|]. split; [reflexivity|].
          split; [discriminate|]. split; [intros [[=] _] | tauto]. }
        destruct (lookup_in_range (chain s) (index received - 1)) as [p Hp]; [lia|].
        rewrite Hp.
        destruct (String.eqb (previous_hash received) (hash p));
          (do 4 eexists; split; [reflexivity|]; split; [reflexivity|];
           split; [discriminate|]; split; [intros [[=] _] | tauto]).
    + destruct (last_is_Some _ Hne) as [latest Hl].
      rewrite (fork_detection_next s received latest Hi Hl).
      unfold handle_received_block.
      destruct (Z.eqb_spec (index received) (len (chain s))); [|lia].
      rewrite (latest_block_last _ _ Hl). simpl.
      destruct (is_valid_block digest s received latest);
        (do 4 eexists; split; [reflexivity|]; split; [reflexivity|];
         split; [auto|]; split; [intros [? ?]; congruence | intros [? _]; lia]).
    + rewrite (fork_detection_ahead s received Hi).
      unfold handle_received_block.
      destruct (Z.eqb_spec (index received) (len (chain s))); [lia|].
      destruct (Z.ltb_spec (index received) (len (chain s))); [lia|].
      do 4 eexists. split; [reflexivity|]. split; [reflexivity|].
      split; [discriminate|]. split; [intros [[=] _] | intros [? _]; lia].
Qed.

(** X14. [detect_fork] always sets its two flags alike, never reaches its
    last line ("Unknown state"), and reports no fork in two cases only: the
    block is already in the chain at its index, or it is the next block
    and valid on the latest block. So it reports a fork exactly when
    [handle_received_block] on the same block reports failure. For a chain
    with a genesis block and a block with a position. *)
Theorem detect_fork_spec s received :
  chain s <> [] ->
  0 <= index received ->
  exists (fork : bool) (message : fork_message) (reason : string),
    detect_fork digest s received = Return (fork, message, fork)
    /\ message <> Unknown_state
    /\ fst (handle_received_block digest s received)
       = Return (negb fork, reason)
    /\ (fork = false
        <-> (index received < len (chain s)
             /\ exists existing,
                  chain s !! Z.to_nat (index received) = Some existing
                  /\ hash existing = hash received)
            \/ (index received = len (chain s)
                /\ exists latest,
                     last (chain s) = Some latest
                     /\ is_valid_block digest s received latest = true)).
Proof.
  intros Hne H0. unfold detect_fork, handle_received_block.
  destruct (Z.lt_trichotomy (index received) (len (chain s))) as [Hi|[Hi|Hi]].
  - destruct (Z.ltb_spec (len (chain s)) (index received)); [lia|].
    destruct (Z.ltb_spec (index received) (len (chain s))); [|lia].
    destruct (Z.eqb_spec (index received) (len (chain s))); [lia|].
    destruct (lookup_in_range (chain s) (index received)) as [existing He];
      [lia|].
    rewrite (py_index_in_range _ _ _ H0 He). simpl.
    destruct (String.eqb_spec (hash existing) (hash received)) as [Hh|Hh];
      do 3 eexists; (split; [reflexivity|]); (split; [discriminate|]);
      (split; [reflexivity|]).
    + split; [|reflexivity]. intros _. left. eauto.
    + split; [discriminate|].
      intros [(_ & x & Hx & Hxh)|[? _]]; [congruence | lia].
  - destruct (Z.ltb_spec (len (chain s)) (index received)); [lia|].
    destruct (Z.ltb_spec (index received) (len (chain s))); [lia|].
    destruct (Z.eqb_spec (index received) (len (chain s))); [|lia].
    destruct (last_is_Some _ Hne) as [latest Hl].
    rewrite (latest_block_last _ _ Hl). simpl.
    destruct (is_valid_block digest s received latest) eqn:Hv.
    + pose proof (is_valid_block_true _ _ _ Hv) as (_ & Hp & _).
      apply String.eqb_eq in Hp. rewrite Hp. simpl.
      do 3 eexists. split; [reflexivity|]. split; [discriminate|].
      split; [reflexivity|]. split; [|reflexivity]. intros _. right. eauto.
    + assert (Hno : ~ (index received = len (chain s)
                       /\ exists x, last (chain s) = Some x
                                    /\ is_valid_block digest s received x = true)).
      { intros (_ & x & Hx & Hxv). congruence. }
      destruct (String.eqb (previous_hash received) (hash latest)); simpl;
        do 3 eexists; (split; [reflexivity|]); (split; [discriminate|]);
        (split; [reflexivity|]); (split; [discriminate|]);
        (intros [[? _]|Hnext]; [lia | contradiction]).
  - destruct (Z.ltb_spec (len (chain s)) (index received)); [|lia].
    destruct (Z.eqb_spec (index received) (len (chain s))); [lia|].
    destruct (Z.ltb_spec (index received) (len (chain s))); [lia|].
    do 3 eexists. split; [reflexivity|]. split; [discriminate|].
    split; [reflexivity|]. split; [discriminate|].
    intros [[? _]|[? _]]; lia.
Qed.

(** ** Fork resolution without a longer candidate *)

Lemma resolve_fork_loop_skips (fuel : nat) (clock : nat -> Timestamp) s
    (chains : list (list (BlockDict Timestamp))) (best_len : Z) :
  forall (k : nat) best,
    (forall chain_data, chain_data ∈ chains -> len chain_data <= best_len) ->
    resolve_fork_loop digest fuel clock k s chains best best_len = Return best.
Proof.
  induction chains as [|chain_data chains IH]; intros k best Hall; simpl;
    [reflexivity|].
  destruct (Z.leb_spec (len chain_data) best_len) as [_|Hlong].
  - apply IH. intros x Hx. apply Hall. now right.
  - specialize (Hall chain_data (list_elem_of_here _ _)). lia.
Qed.

(** X15. When no candidate is longer than the local chain, [resolve_fork]
    returns [False] and changes nothing, and it does so without validating
    anything: no scratch chain is built, so the call returns whatever the
    difficulty. This is the case of two forks of one block each on the
    same parent, offered to a chain that holds one of them. *)
Theorem resolve_fork_without_longer_candidate (fuel : nat)
    (clock : nat -> Timestamp) s
    (competing_chains : list (list (BlockDict Timestamp))) :
  (forall chain_data,
     chain_data ∈ competing_chains -> len chain_data <= len (chain s)) ->
  resolve_fork digest fuel clock s competing_chains = (Return false, s).
Proof.
  intros Hall. unfold resolve_fork.
  rewrite resolve_fork_loop_skips; [reflexivity|].
  intros x Hx. unfold len. rewrite length_map. now apply Hall.
Qed.

(** ** Chain work and the fork branch of a sync *)

Lemma chainWork_app (a b : list (Block Timestamp)) :
  chainWork (a ++ b) = chainWork a + chainWork b.
Proof.
  unfold chainWork. induction a as [|x a IH]; simpl; [reflexivity|].
  rewrite IH. lia.
Qed.

(** X16. In its fork branch [sync_missing_blocks] always returns, and it
    trades length for work: when it succeeds, the work of the whole local
    chain, the sum of [16^(leading zeros)] over its blocks, has strictly
    grown, the blocks up to the common ancestor are the ones the chain had,
    and at least one block of the candidate follows them; when it fails the
    chain object is unchanged. *)
Theorem sync_fork_increases_work s (competing_chain : list (Block Timestamp))
    (sync_from_index : Z) :
  0 <= sync_from_index < len competing_chain ->
  sync_from_index < len (chain s) ->
  let result := sync_missing_blocks digest s competing_chain sync_from_index in
  exists (ok : bool) (message : sync_message),
    fst result = Return (ok, message)
    /\ (ok = false -> snd result = s)
    /\ (ok = true ->
        _calculate_chain_work (chain s)
        < _calculate_chain_work (chain (snd result))
        /\ exists (common_ancestor : nat) b (rest : list (Block Timestamp)),
             message = Chain_replaced_after_fork (Z.of_nat common_ancestor)
             /\ chain (snd result)
                = (take (S common_ancestor) (chain s) ++ b :: rest)%list
             /\ drop (S common_ancestor) competing_chain = b :: rest
             /\ difficulty (snd result) = difficulty s
             /\ pending_data (snd result) = pending_data s).
Proof.
  intros Hfrom Hlocal result. subst result. unfold sync_missing_blocks.
  destruct (Z.ltb_spec sync_from_index 0); [lia|].
  destruct (Z.leb_spec (len competing_chain) sync_from_index); [lia|].
  destruct (Z.leb_spec (len (chain s)) sync_from_index); [lia|]. simpl.
  set (ca := find_common_ancestor s (py_take competing_chain (sync_from_index + 1))).
  assert (Hca : -1 <= ca) by apply find_common_ancestor_bounds.
  destruct (Z.eqb_spec ca (-1)) as [Hnone|Hsome].
  { do 2 eexists. split; [reflexivity|]. split; [reflexivity | discriminate]. }
  rewrite !calculate_chain_work_spec. unfold py_take, py_drop.
  destruct (Z.ltb_spec (ca + 1) 0); [lia|].
  replace (Z.to_nat (ca + 1)) with (S (Z.to_nat ca)) by lia.
  destruct (Z.ltb_spec (chainWork (drop (S (Z.to_nat ca)) (chain s)))
              (chainWork (drop (S (Z.to_nat ca)) competing_chain)))
    as [Hmore|Hless].
  - do 2 eexists. split; [reflexivity|]. split; [discriminate|]. intros _.
    simpl. split.
    + assert (Hsplit : chainWork (chain s)
                       = chainWork (take (S (Z.to_nat ca)) (chain s))
                         + chainWork (drop (S (Z.to_nat ca)) (chain s))).
      { now rewrite <- chainWork_app, take_drop. }
      rewrite chainWork_app, Hsplit. lia.
    + destruct (drop (S (Z.to_nat ca)) competing_chain) as [|b rest] eqn:Ed.
      * exfalso. unfold chainWork in Hmore at 2. simpl in Hmore.
        assert (0 <= chainWork (drop (S (Z.to_nat ca)) (chain s))); [|lia].
        generalize (drop (S (Z.to_nat ca)) (chain s)). intros l.
        unfold chainWork. induction l as [|x l IH]; simpl; [lia|].
        pose proof (Z.pow_nonneg 16 (Z.of_nat (leading_zeros (hash x)))). lia.
      * exists (Z.to_nat ca), b, rest.
        rewrite Z2Nat.id by lia. auto.
  - do 2 eexists. split; [reflexivity|]. split; [reflexivity | discriminate].
Qed.

(** ** The blocking miner *)

Lemma meets_difficulty_mono (d d' : Z) (h : string) :
  0 <= d <= d' ->
  meets_difficulty d' h = true -> meets_difficulty d h = true.
Proof.
  intros Hd Hm. apply meets_difficulty_leading in Hm.
  apply meets_difficulty_iff; lia.
Qed.

(** ** Double votes between two chains *)

(** On values that can be keys, [==] is symmetric and transitive. *)
Lemma py_eqb_key_sym (x y : json) :
  hashable x = true -> hashable y = true -> py_eqb x y = py_eqb y x.
Proof.
  destruct x as [|a|n|t| |], y as [|b|m|u| |]; simpl; try discriminate;
    intros _ _; try reflexivity.
  - now destruct a, b.
  - apply Z.eqb_sym.
  - apply Z.eqb_sym.
  - apply Z.eqb_sym.
  - apply String.eqb_sym.
Qed.

Lemma py_eqb_key_trans (x y z : json) :
  hashable x = true -> hashable y = true -> hashable z = true ->
  py_eqb x y = true -> py_eqb y z = true -> py_eqb x z = true.
Proof.
  destruct x as [|a|n|t| |], y as [|b|m|u| |], z as [|c|k|v| |]; simpl;
    try discriminate; intros _ _ _; try reflexivity;
    rewrite ?Z.eqb_eq, ?String.eqb_eq, ?Bool.eqb_true_iff;
    try congruence; try (destruct a, b; simpl; congruence);
    try (destruct b, c; simpl; congruence);
    try (destruct a; destruct c; simpl; lia);
    try (destruct a; destruct b; simpl; lia);
    try (destruct b; destruct c; simpl; lia);
    try (destruct b; simpl; lia).
Qed.

Implicit Types (our : list (json * first_vote)) (ours : list ballot).

Lemma votes_get_app voter our our' :
  votes_get voter (our ++ our')
  = match votes_get voter our with
    | Some r => Some r
    | None => votes_get voter our'
    end.
Proof.
  induction our as [|[k r] our IH]; simpl; [reflexivity|].
  now destruct (py_eqb k voter).
Qed.

Lemma is_vote_dict (entries : list (string * json)) :
  is_vote (JDict entries)
  = Done (match dict_get "voter_id" entries, dict_get "vote" entries with
          | Some _, Some _ => true
          | _, _ => false
          end).
Proof.
  unfold is_vote, contains; simpl.
  destruct (dict_get "voter_id" entries); [|reflexivity].
  now destruct (dict_get "vote" entries).
Qed.

Lemma readable_tx_cases (b : Block Timestamp) (tx : json) :
  readable_tx tx ->
  match ballot_of b tx with
  | Some t =>
      is_vote tx = Done true
      /\ subscript tx "voter_id" = Done (ballot_voter t)
      /\ subscript tx "vote" = Done (ballot_vote t)
      /\ hashable (ballot_voter t) = true
      /\ ballot_block t = index b
  | None => is_vote tx = Done false
  end.
Proof.
  unfold readable_tx, ballot_of.
  destruct tx as [|a|n|t|items|entries]; try (intros H; exact H).
  rewrite is_vote_dict. simpl.
  destruct (dict_get "voter_id" entries) as [voter|]; [|reflexivity].
  destruct (dict_get "vote" entries) as [v|]; [|reflexivity].
  simpl. intros H. repeat split; assumption.
Qed.

Lemma record_votes_spec b (txs : list json) our :
  Forall readable_tx txs ->
  record_votes b txs our
  = Done (fold_left (enter b) (omap (ballot_of b) txs) our).
Proof.
  intros Htxs. revert our.
  induction Htxs as [|tx txs Htx _ IH]; intros our; [reflexivity|].
  simpl. pose proof (readable_tx_cases b tx Htx) as Hc.
  destruct (ballot_of b tx) as [t|].
  - destruct Hc as (-> & -> & -> & Hh & _). simpl.
    unfold votes_lookup. rewrite Hh. simpl.
    unfold enter at 2.
    destruct (votes_get (ballot_voter t) our); simpl; apply IH.
  - rewrite Hc. simpl. apply IH.
Qed.

Lemma readable_cases b :
  readable b ->
  (contains "transactions" (data b) = Done false /\ transactions_of b = [])
  \/ (contains "transactions" (data b) = Done true
      /\ (exists transactions,
            subscript (data b) "transactions" = Done transactions
            /\ iterate transactions = Done (transactions_of b))
      /\ Forall readable_tx (transactions_of b)).
Proof.
  unfold readable, transactions_of.
  destruct (data b) as [|a|n|t|items|entries];
    try (intros H; left; split; [exact H | reflexivity]).
  simpl. destruct (dict_get "transactions" entries) as [v|];
    [|intros _; left; split; reflexivity].
  destruct v as [|a|n|t|txs|es]; try contradiction.
  intros H. right. split; [reflexivity|]. split; [|exact H].
  exists (JList txs). split; reflexivity.
Qed.

Lemma collect_votes_spec c our :
  Forall readable c ->
  collect_votes c our
  = Done (fold_left
            (fun acc b => fold_left (enter b) (omap (ballot_of b) (transactions_of b)) acc)
            c our).
Proof.
  intros Hc. revert our.
  induction Hc as [|b c Hb _ IH]; intros our; [reflexivity|].
  simpl. destruct (readable_cases b Hb) as [(-> & ->)|(-> & (tr & -> & Hit) & Htxs)];
    simpl.
  - apply IH.
  - rewrite Hit. simpl.
    rewrite (record_votes_spec b _ our Htxs). simpl. apply IH.
Qed.

Lemma first_ballot_app voter ours ours' :
  first_ballot voter (ours ++ ours')
  = match first_ballot voter ours with
    | Some o => Some o
    | None => first_ballot voter ours'
    end.
Proof.
  unfold first_ballot. induction ours as [|o ours IH]; simpl; [reflexivity|].
  now destruct (py_eqb (ballot_voter o) voter).
Qed.

Lemma enter_holds b our ours (t : ballot) :
  Forall (fun o => hashable (ballot_voter o) = true) ours ->
  hashable (ballot_voter t) = true ->
  ballot_block t = index b ->
  holds_first_ballots our ours ->
  holds_first_ballots (enter b our t) (ours ++ [t]).
Proof.
  intros Hours Ht Hb Hinv voter Hv.
  rewrite first_ballot_app. unfold enter.
  pose proof (Hinv voter Hv) as Hvoter.
  pose proof (Hinv (ballot_voter t) Ht) as Hkey.
  destruct (votes_get (ballot_voter t) our) as [rk|] eqn:Ek.
  - destruct (votes_get voter our) as [r|];
      destruct (first_ballot voter ours) as [o|] eqn:Eo;
      try contradiction; [exact Hvoter|].
    simpl. destruct (py_eqb (ballot_voter t) voter) eqn:Etv; [|exact I].
    destruct (first_ballot (ballot_voter t) ours) as [ok|] eqn:Eok; [|exact Hkey].
    unfold first_ballot in Eok, Eo.
    apply find_some in Eok as [Hin Heq].
    apply (find_none _ _ Eo) in Hin as Hne.
    apply list_elem_of_In in Hin.
    rewrite Forall_forall in Hours. specialize (Hours _ Hin).
    rewrite (py_eqb_key_trans _ _ _ Hours Ht Hv Heq Etv) in Hne. discriminate.
  - rewrite votes_get_app. simpl.
    destruct (votes_get voter our) as [r|];
      destruct (first_ballot voter ours) as [o|];
      try contradiction; [exact Hvoter|].
    simpl. destruct (py_eqb (ballot_voter t) voter); [|exact I].
    simpl. split; [reflexivity | now rewrite Hb].
Qed.

Lemma ballots_of_block b :
  Forall readable_tx (transactions_of b) ->
  Forall (fun t => hashable (ballot_voter t) = true /\ ballot_block t = index b)
    (omap (ballot_of b) (transactions_of b)).
Proof.
  induction 1 as [|tx txs Htx _ IH]; simpl; [constructor|].
  pose proof (readable_tx_cases b tx Htx) as Hc.
  destruct (ballot_of b tx) as [t|]; [|exact IH].
  constructor; [|exact IH]. split; apply Hc.
Qed.

Lemma readable_transactions b :
  readable b -> Forall readable_tx (transactions_of b).
Proof.
  intros Hb. destruct (readable_cases b Hb) as [(_ & ->)|(_ & _ & H)];
    [constructor | exact H].
Qed.

Lemma ballots_hashable c :
  Forall readable c ->
  Forall (fun t => hashable (ballot_voter t) = true) (ballots c).
Proof.
  induction 1 as [|b c Hb _ IH]; simpl; [constructor|].
  apply Forall_app. split; [|exact IH].
  eapply Forall_impl; [apply ballots_of_block, readable_transactions, Hb|].
  now intros t [Ht _].
Qed.

Lemma enter_all_holds b (ts : list ballot) our ours :
  Forall (fun t => hashable (ballot_voter t) = true /\ ballot_block t = index b) ts ->
  Forall (fun o => hashable (ballot_voter o) = true) ours ->
  holds_first_ballots our ours ->
  holds_first_ballots (fold_left (enter b) ts our) (ours ++ ts).
Proof.
  intros Hts. revert our ours.
  induction Hts as [|t ts [Ht Hb] _ IH]; intros our ours Hours Hinv; simpl.
  - now rewrite app_nil_r.
  - replace (ours ++ t :: ts)%list with ((ours ++ [t]) ++ ts)%list
      by now rewrite <- app_assoc.
    apply IH.
    + apply Forall_app. split; [exact Hours | now constructor].
    + now apply enter_holds.
Qed.

Lemma collect_votes_holds c our ours :
  Forall readable c ->
  Forall (fun o => hashable (ballot_voter o) = true) ours ->
  holds_first_ballots our ours ->
  exists our',
    collect_votes c our = Done our'
    /\ holds_first_ballots our' (ours ++ ballots c).
Proof.
  intros Hc Hours0 Hinv0.
  rewrite (collect_votes_spec c our Hc). eexists. split; [reflexivity|].
  revert our ours Hours0 Hinv0.
  induction Hc as [|b c Hb Hc IH]; intros our ours Hours Hinv; simpl.
  - now rewrite app_nil_r.
  - rewrite app_assoc. apply IH.
    + apply Forall_app. split; [exact Hours|].
      eapply Forall_impl; [apply ballots_of_block, readable_transactions, Hb|].
      now intros t [Ht _].
    + apply enter_all_holds; [|exact Hours | exact Hinv].
      apply ballots_of_block, readable_transactions, Hb.
Qed.

Lemma compare_votes_spec b (txs : list json) our ours (double_spends : list json) :
  holds_first_ballots our ours ->
  Forall readable_tx txs ->
  compare_votes b txs our double_spends
  = Done (double_spends ++ omap (conflict ours) (omap (ballot_of b) txs))%list.
Proof.
  intros Hinv Htxs. revert double_spends.
  induction Htxs as [|tx txs Htx _ IH]; intros double_spends; simpl.
  - now rewrite app_nil_r.
  - pose proof (readable_tx_cases b tx Htx) as Hc.
    destruct (ballot_of b tx) as [t|].
    + destruct Hc as (-> & -> & -> & Hh & Hb). simpl.
      unfold votes_lookup. rewrite Hh. simpl.
      unfold conflict. specialize (Hinv _ Hh).
      destruct (votes_get (ballot_voter t) our) as [r|];
        destruct (first_ballot (ballot_voter t) ours) as [o|];
        try contradiction; [|apply IH].
      destruct Hinv as [Hvote Hblock]. rewrite Hvote.
      destruct (py_eqb (ballot_vote o) (ballot_vote t)); simpl; [apply IH|].
      rewrite IH. rewrite <- app_assoc. simpl.
      unfold double_spend. now rewrite Hvote, Hblock, Hb.
    + rewrite Hc. simpl. apply IH.
Qed.

Lemma check_votes_spec c our ours (double_spends : list json) :
  holds_first_ballots our ours ->
  Forall readable c ->
  check_votes c our double_spends
  = Done (double_spends ++ omap (conflict ours) (ballots c))%list.
Proof.
  intros Hinv Hc. revert double_spends.
  induction Hc as [|b c Hb _ IH]; intros double_spends; simpl.
  - now rewrite app_nil_r.
  - rewrite omap_app, app_assoc.
    destruct (readable_cases b Hb) as [(-> & ->)|(-> & (tr & -> & Hit) & Htxs)];
      simpl.
    + rewrite IH. now rewrite app_nil_r.
    + rewrite Hit. simpl.
      rewrite (compare_votes_spec b _ our ours double_spends Hinv Htxs). simpl.
      apply IH.
Qed.

(** X18. On chains whose blocks it can read, [detect_double_spending]
    returns, and reports the ballots of the competing chain, in their
    order, whose voter has a first ballot in our chain with another vote.
    A ballot is a transaction with the keys ['voter_id'] and ['vote']; of
    the ballots of a voter in our chain only the first is compared, each
    of those in the competing chain is. *)
Theorem detect_double_spending_spec s (competing_chain : list (Block Timestamp)) :
  Forall readable (chain s) ->
  Forall readable competing_chain ->
  detect_double_spending s competing_chain
  = Done (omap (conflict (ballots (chain s))) (ballots competing_chain)).
Proof.
  intros Hours Htheirs. unfold detect_double_spending.
  destruct (collect_votes_holds (chain s) [] [] Hours) as (our & -> & Hinv);
    [constructor | now intros voter _ |].
  simpl. simpl in Hinv.
  now rewrite (check_votes_spec competing_chain our _ [] Hinv Htheirs).
Qed.

Section MinerProperties.

Variable payload_of_time : Timestamp -> json.

(** X17. [mine_single_block] on an empty queue returns no block and
    changes nothing. Without a callback, on a queue that is not empty and a
    chain with the structural invariant, it either is still searching, with
    nothing changed, or has appended one block and emptied the queue: the
    block stands at index [len(chain)] on the latest hash, carries the
    queue, the miner address and a clock reading, and its hash is the
    computed one and meets the miner's difficulty. The block is valid for
    the chain, and the invariant kept, when the miner's difficulty is at
    least the chain's. *)
Theorem mine_single_block_spec (fuel : nat) (data_time block_time : Timestamp)
    (m : Miner Timestamp) s :
  let result :=
    mine_single_block digest payload_of_time fuel data_time block_time m s in
  (pending_data s = [] -> result = (Return None, s))
  /\ (on_block_mined m = None -> chain_invariant s -> pending_data s <> [] ->
      result = (OutOfFuel, s)
      \/ exists block latest,
           last (chain s) = Some latest
           /\ result = (Return (Some block),
                        mkBlockchain (chain s ++ [block]) (difficulty s) [])
           /\ index block = len (chain s)
           /\ previous_hash block = hash latest
           /\ data block
              = JDict [("transactions", JList (pending_data s));
                       ("miner", JStr (miner_address m));
                       ("timestamp", payload_of_time data_time)]
           /\ hash block = calculate_hash digest block
           /\ meets_difficulty (miner_difficulty m) (hash block) = true
           /\ (0 <= difficulty s <= miner_difficulty m ->
               is_valid_block digest s block latest = true
               /\ chain_invariant (snd result))).
Proof.
  intros result. subst result. unfold mine_single_block. split.
  - now intros ->.
  - intros Hcb (Hne & Hl & Hi & Hm) Hq.
    destruct (pending_data s) as [|d0 q] eqn:Eq; [contradiction|].
    rewrite <- Eq. clear Hq.
    destruct (last_is_Some _ Hne) as [latest Hlast].
    unfold _create_block. rewrite (latest_block_last _ _ Hlast). simpl.
    destruct (mine_block digest fuel (miner_difficulty m) _) as [mined|e|] eqn:E;
      simpl.
    + right. rewrite Hcb.
      apply mine_block_Return in E as (Hmeets & Hidx & _ & Hdata & Hprev & Hhash).
      simpl in *.
      assert (Hh : hash mined = calculate_hash digest mined)
        by (apply Hhash; reflexivity).
      exists mined, latest.
      split; [exact Hlast|]. split; [reflexivity|]. split; [exact Hidx|].
      split; [exact Hprev|]. split; [exact Hdata|]. split; [exact Hh|].
      split; [exact Hmeets|]. intros Hd. split.
      * apply is_valid_block_intro; auto.
        -- rewrite last_lookup in Hlast.
           pose proof (lookup_lt_Some _ _ _ Hlast) as Hlt.
           apply Hi in Hlast. unfold len in Hidx. lia.
        -- now apply (meets_difficulty_mono _ (miner_difficulty m)).
      * split; [simpl; now destruct (chain s)|]. simpl.
        apply (invariant_snoc _ _ _ latest); auto.
        apply meets_difficulty_leading in Hmeets. lia.
    + now apply mine_block_no_raise in E.
    + now left.
Qed.

End MinerProperties.

(** ** The voting layer *)

Section VotingProperties.

Variable payload_of_time : Timestamp -> json.
Variable sha256_hex : string -> string.
Variable dumps : json -> string.

Implicit Types (e : Election Timestamp) (voter : Voter) (m : Miner Timestamp).
Implicit Types (results : list (string * Z)) (voter_votes : list (json * json)).

(** A transaction of the voting layer is a dict without the key ['vote']. *)
Lemma application_tx_no_ballot (tx : json) :
  application_tx payload_of_time sha256_hex dumps tx ->
  exists entries, tx = JDict entries /\ dict_get "vote" entries = None.
Proof.
  intros [(voter & candidate & id & now & ->)|[(e & ->)|(e & now & ->)]];
    eexists; (split; [reflexivity|]); reflexivity.
Qed.

Lemma application_block_readable b :
  application_block payload_of_time sha256_hex dumps b ->
  readable b /\ omap (ballot_of b) (transactions_of b) = [].
Proof.
  unfold readable, transactions_of.
  intros [->|(txs & address & time & Htxs & ->)];
    [split; [exact I | reflexivity]|].
  simpl. induction Htxs as [|tx txs Htx _ [IH1 IH2]];
    [split; [constructor | reflexivity]|].
  destruct (application_tx_no_ballot tx Htx) as (entries & -> & Hno).
  split.
  - constructor; [|exact IH1]. simpl. rewrite Hno.
    now destruct (dict_get "voter_id" entries).
  - simpl. rewrite Hno. destruct (dict_get "voter_id" entries); exact IH2.
Qed.

Lemma application_chain_no_ballots c :
  Forall (application_block payload_of_time sha256_hex dumps) c ->
  Forall readable c /\ ballots c = [].
Proof.
  induction 1 as [|b c Hb _ [IH1 IH2]]; [split; [constructor | reflexivity]|].
  destruct (application_block_readable b Hb) as [Hr Hn].
  split; [now constructor|]. simpl. now rewrite Hn, IH2.
Qed.

(** X19. [detect_double_spending] does not see the votes of the voting
    layer: between two chains whose blocks carry only what [Voter.cast_vote],
    [_register_election] and [end_election] write, it reports nothing,
    whatever the voters chose in the one and in the other. The votes it
    compares are under the key ['vote']; [Voter.cast_vote] writes the choice
    under ['candidate']. *)
Theorem detect_double_spending_misses_votes s
    (competing_chain : list (Block Timestamp)) :
  Forall (application_block payload_of_time sha256_hex dumps) (chain s) ->
  Forall (application_block payload_of_time sha256_hex dumps) competing_chain ->
  detect_double_spending s competing_chain = Done [].
Proof.
  intros Hours Htheirs.
  apply application_chain_no_ballots in Hours as [Hours Hnone].
  apply application_chain_no_ballots in Htheirs as [Htheirs Hnone'].
  unfold detect_double_spending.
  destruct (collect_votes_holds (chain s) [] [] Hours) as (our & -> & Hinv);
    [constructor | now intros voter _ |].
  simpl.
  rewrite (check_votes_spec competing_chain our _ [] Hinv Htheirs).
  now rewrite Hnone'.
Qed.



(** *** What the miner appends *)

Lemma mine_single_block_cases (fuel : nat) (data_time block_time : Timestamp) m s :
  on_block_mined m = None ->
  pending_data s <> [] ->
  (exists block latest,
     mine_single_block digest payload_of_time fuel data_time block_time m s
     = (Return (Some block),
        mkBlockchain (chain s ++ [block]) (difficulty s) [])
     /\ index block = len (chain s)
     /\ data block
        = JDict [("transactions", JList (pending_data s));
                 ("miner", JStr (miner_address m));
                 ("timestamp", payload_of_time data_time)]
     /\ last (chain s) = Some latest
     /\ previous_hash block = hash latest
     /\ hash block = calculate_hash digest block
     /\ meets_difficulty (miner_difficulty m) (hash block) = true)
  \/ ((forall r,
         fst (mine_single_block digest payload_of_time fuel data_time
                block_time m s) <> Return r)
      /\ snd (mine_single_block digest payload_of_time fuel data_time
                block_time m s) = s).
Proof.
  intros Hcb Hq. unfold mine_single_block.
  destruct (pending_data s) as [|tx txs] eqn:Eq; [contradiction|].
  rewrite <- Eq. unfold _create_block.
  destruct (last (chain s)) as [latest|] eqn:Hl.
  2:{ apply last_None in Hl. unfold latest_block. rewrite Hl, py_index_nil.
      right. split; [discriminate | reflexivity]. }
  rewrite (latest_block_last _ _ Hl). simpl.
  destruct (mine_block digest fuel (miner_difficulty m) _) as [mined|err|] eqn:E;
    simpl; [|right; split; [discriminate | reflexivity]..].
  left. rewrite Hcb.
  apply mine_block_Return in E as (Hm & Hidx & _ & Hdata & Hprev & Hhash).
  exists mined, latest. split; [reflexivity|]. split; [exact Hidx|].
  split; [exact Hdata|]. split; [reflexivity|]. split; [exact Hprev|].
  split; [now apply Hhash | exact Hm].
Qed.

Lemma block_txs_mined b (txs : list json) (address : string) (time : json) :
  data b = JDict [("transactions", JList txs); ("miner", JStr address);
                  ("timestamp", time)] ->
  block_txs b = Done txs.
Proof. unfold block_txs. now intros ->. Qed.

(** *** The scan for a vote of a voter *)

Lemma has_voted_in_cons e (id : string) b c :
  has_voted_in e id (b :: c)
  = try! txs := block_txs b in
    if existsb (is_vote_of e id) txs then Done true else has_voted_in e id c.
Proof.
  unfold block_txs. simpl.
  destruct (contains "transactions" (data b)) as [[|]|err]; simpl; try reflexivity.
  destruct (subscript (data b) "transactions") as [tr|err]; simpl; [|reflexivity].
  now destruct (iterate tr).
Qed.

Lemma has_voted_in_found e (id : string) c b (txs : list json)
    (more : list (Block Timestamp)) :
  has_voted_in e id c = Done false ->
  block_txs b = Done txs ->
  existsb (is_vote_of e id) txs = true ->
  has_voted_in e id (c ++ b :: more) = Done true.
Proof.
  intros Hc Hb Hfound. induction c as [|a c IH].
  - simpl app. rewrite has_voted_in_cons, Hb. simpl. now rewrite Hfound.
  - simpl app. rewrite has_voted_in_cons in Hc |- *.
    destruct (block_txs a) as [atxs|err]; simpl in *; [|discriminate].
    destruct (existsb (is_vote_of e id) atxs); [discriminate | now apply IH].
Qed.

Lemma has_voted_in_none e (id : string) c :
  has_voted_in e id c = Done false ->
  forall b (txs : list json) (tx : json),
    b ∈ c -> block_txs b = Done txs -> tx ∈ txs -> is_vote_of e id tx = false.
Proof.
  induction c as [|a c IH]; intros Hc b txs tx Hb Htxs Htx.
  - now apply elem_of_nil in Hb.
  - rewrite has_voted_in_cons in Hc.
    destruct (block_txs a) as [atxs|err] eqn:Ea; simpl in Hc; [|discriminate].
    destruct (existsb (is_vote_of e id) atxs) eqn:Ex; [discriminate|].
    apply elem_of_cons in Hb as [->|Hb].
    + rewrite Ea in Htxs. injection Htxs as ->.
      destruct (is_vote_of e id tx) eqn:Ev; [|reflexivity].
      assert (Hex : existsb (is_vote_of e id) txs = true).
      { apply existsb_exists. exists tx. split; [|exact Ev].
        now apply list_elem_of_In. }
      congruence.
    + now apply (IH Hc b txs tx).
Qed.

Lemma cast_vote_is_vote_of e e' voter (candidate : string) (now : Timestamp) :
  election_id e' = election_id e ->
  is_vote_of e' (voter_id voter)
    (Voter_cast_vote payload_of_time sha256_hex dumps voter candidate
       (election_id e) now) = true.
Proof.
  intros He. unfold is_vote_of, is_vote_in, tx_get, Voter_cast_vote. simpl.
  rewrite He. now rewrite !String.eqb_refl.
Qed.

Lemma candidate_listed (candidate : string) (names : list string) :
  existsb (fun name => String.eqb name candidate) names = true
  <-> candidate ∈ names.
Proof.
  rewrite existsb_exists. split.
  - intros (name & Hin & Heq). apply String.eqb_eq in Heq as ->.
    now apply list_elem_of_In.
  - intros Hin. exists candidate. split; [now apply list_elem_of_In|].
    apply String.eqb_refl.
Qed.

(** X20. The outcomes of [Election.cast_vote], for a miner without a
    callback. A refused vote leaves the chain and the queue as they were,
    and is refused because the election is closed, or the candidate is not
    listed, or the chain holds a vote of the voter in this election, in
    that order. An accepted vote appends one block at index [len(chain)]
    whose transactions are the queue followed by the vote, and empties the
    queue. When the search for the vote raises nothing is written; when
    the miner fails the vote stays queued. The message that the block
    could not be mined is never returned. *)
Theorem Election_cast_vote_spec (fuel : nat)
    (vote_time data_time block_time : Timestamp) e voter (candidate : string) s :
  on_block_mined (miner e) = None ->
  let vote_tx :=
    Voter_cast_vote payload_of_time sha256_hex dumps voter candidate
      (election_id e) vote_time in
  match Election_cast_vote digest payload_of_time sha256_hex dumps fuel
          vote_time data_time block_time e voter candidate s with
  | Failed error =>
      is_active e = true /\ candidate ∈ candidates e
      /\ _has_voter_cast_vote e s (voter_id voter) = Failed error
  | Done (Return (true, message), s') =>
      message = Vote_recorded candidate
      /\ is_active e = true /\ candidate ∈ candidates e
      /\ _has_voter_cast_vote e s (voter_id voter) = Done false
      /\ exists block,
           s' = mkBlockchain (chain s ++ [block]) (difficulty s) []
           /\ index block = len (chain s)
           /\ block_txs block = Done (pending_data s ++ [vote_tx])%list
  | Done (Return (false, message), s') =>
      s' = s
      /\ (message = Election_is_not_active /\ is_active e = false
          \/ message = Invalid_candidate (candidates e)
             /\ is_active e = true /\ candidate ∉ candidates e
          \/ message = Voter_has_already_cast_a_vote
             /\ is_active e = true /\ candidate ∈ candidates e
             /\ _has_voter_cast_vote e s (voter_id voter) = Done true)
  | Done (_, s') =>
      is_active e = true /\ candidate ∈ candidates e
      /\ _has_voter_cast_vote e s (voter_id voter) = Done false
      /\ s' = add_data s vote_tx
  end.
Proof.
  intros Hcb vote_tx. unfold Election_cast_vote.
  destruct (is_active e) eqn:Ea; simpl;
    [|split; [reflexivity | left; split; reflexivity]].
  destruct (existsb _ (candidates e)) eqn:Ec; simpl.
  2:{ split; [reflexivity|]. right. left. split; [reflexivity|].
      split; [reflexivity|]. rewrite <- candidate_listed, Ec. discriminate. }
  apply candidate_listed in Ec.
  destruct (_has_voter_cast_vote e s (voter_id voter)) as [[|]|error]; simpl.
  - split; [reflexivity|]. right. right. repeat split; assumption.
  - fold vote_tx.
    assert (Hq : pending_data (add_data s vote_tx) <> [])
      by (unfold add_data; simpl; now destruct (pending_data s)).
    destruct (mine_single_block_cases fuel data_time block_time (miner e)
                (add_data s vote_tx) Hcb Hq)
      as [(block & latest & -> & Hi & Hd & _)|[Hno Hs]].
    + simpl. split; [reflexivity|]. do 3 (split; [done|]).
      exists block. split; [reflexivity|]. split.
      * rewrite Hi. unfold add_data, len. simpl. reflexivity.
      * apply (block_txs_mined _ _ _ _ Hd).
    + destruct (mine_single_block _ _ _ _ _ _ _) as [[r|err|] s'];
        simpl in *; [now destruct (Hno r)|..]; subst s'; repeat split; done.
  - repeat split; done.
Qed.

Lemma is_vote_of_same_id e e' (id : string) (tx : json) :
  election_id e' = election_id e -> is_vote_of e' id tx = is_vote_of e id tx.
Proof. intros He. unfold is_vote_of, is_vote_in. now rewrite He. Qed.

Lemma has_voted_in_same_id e e' (id : string) c :
  election_id e' = election_id e -> has_voted_in e' id c = has_voted_in e id c.
Proof.
  intros He. induction c as [|b c IH]; [reflexivity|].
  rewrite !has_voted_in_cons, IH.
  destruct (block_txs b) as [txs|err]; simpl; [|reflexivity].
  replace (existsb (is_vote_of e' id) txs) with (existsb (is_vote_of e id) txs);
    [reflexivity|].
  clear IH. induction txs as [|tx txs IH]; [reflexivity|]. simpl.
  now rewrite IH, (is_vote_of_same_id e e' id tx He).
Qed.

(** What an accepted vote tells. *)
Lemma Election_cast_vote_accepted (fuel : nat)
    (vote_time data_time block_time : Timestamp) e voter (candidate : string)
    s s' (message : vote_message) :
  on_block_mined (miner e) = None ->
  Election_cast_vote digest payload_of_time sha256_hex dumps fuel
    vote_time data_time block_time e voter candidate s
  = Done (Return (true, message), s') ->
  candidate ∈ candidates e
  /\ has_voted_in e (voter_id voter) (chain s) = Done false
  /\ exists block,
       s' = mkBlockchain (chain s ++ [block]) (difficulty s) []
       /\ block_txs block
          = Done (pending_data s
                  ++ [Voter_cast_vote payload_of_time sha256_hex dumps voter
                        candidate (election_id e) vote_time])%list.
Proof.
  intros Hcb. unfold Election_cast_vote.
  destruct (is_active e); simpl; [|discriminate].
  destruct (existsb _ (candidates e)) eqn:Ec; simpl; [|discriminate].
  apply candidate_listed in Ec.
  unfold _has_voter_cast_vote.
  destruct (has_voted_in e (voter_id voter) (chain s)) as [[|]|error]; simpl;
    try discriminate.
  set (vote_tx := Voter_cast_vote _ _ _ _ _ _ _).
  assert (Hq : pending_data (add_data s vote_tx) <> [])
    by (unfold add_data; simpl; now destruct (pending_data s)).
  destruct (mine_single_block_cases fuel data_time block_time (miner e)
              (add_data s vote_tx) Hcb Hq)
      as [(block & latest & -> & Hi & Hd & _)|[Hno Hs]].
  - simpl. intros [= <- <-]. split; [exact Ec|]. split; [reflexivity|].
    exists block. split; [reflexivity|]. apply (block_txs_mined _ _ _ _ Hd).
  - destruct (mine_single_block _ _ _ _ _ _ _) as [[r|err|] s0];
      simpl in *; try discriminate. now destruct (Hno r).
Qed.

(** X21. One voter, one vote: once [Election.cast_vote] has accepted a
    vote, the chain holds it, and as long as the chain keeps the blocks it
    has, every later call for an election of that id and a voter of that
    id is refused and writes nothing, whoever the candidate. *)
Theorem one_vote_per_voter (fuel : nat)
    (vote_time data_time block_time : Timestamp) e voter (candidate : string)
    s s' (message : vote_message) :
  on_block_mined (miner e) = None ->
  Election_cast_vote digest payload_of_time sha256_hex dumps fuel
    vote_time data_time block_time e voter candidate s
  = Done (Return (true, message), s') ->
  _has_voter_cast_vote e s' (voter_id voter) = Done true
  /\ forall (fuel' : nat) (vote_time' data_time' block_time' : Timestamp)
       e' voter' (candidate' : string) s'' (more : list (Block Timestamp)),
       election_id e' = election_id e ->
       voter_id voter' = voter_id voter ->
       chain s'' = (chain s' ++ more)%list ->
       exists message',
         Election_cast_vote digest payload_of_time sha256_hex dumps fuel'
           vote_time' data_time' block_time' e' voter' candidate' s''
         = Done (Return (false, message'), s'').
Proof.
  intros Hcb Hcast.
  pose proof (Election_cast_vote_accepted fuel vote_time data_time block_time
                e voter candidate s s' message Hcb Hcast)
    as (_ & Hnot & block & -> & Htxs).
  assert (Hfound : forall e' voter' (more : list (Block Timestamp)),
             election_id e' = election_id e ->
             voter_id voter' = voter_id voter ->
             has_voted_in e' (voter_id voter') (chain s ++ block :: more)
             = Done true).
  { intros e' voter' more He Hv. rewrite Hv.
    eapply (has_voted_in_found e' _ _ block _ more); [|exact Htxs|].
    { now rewrite (has_voted_in_same_id e e' _ _ He). }
    apply existsb_exists. eexists. split.
    - apply in_or_app. right. left. reflexivity.
    - now apply cast_vote_is_vote_of. }
  split.
  - unfold _has_voter_cast_vote. simpl.
    replace (chain s ++ [block])%list with (chain s ++ block :: [])%list
      by reflexivity.
    now apply Hfound.
  - intros fuel' vote_time' data_time' block_time' e' voter' candidate' s'' more
           He Hv Hchain.
    unfold Election_cast_vote.
    destruct (is_active e'); simpl; [|eexists; reflexivity].
    destruct (existsb _ (candidates e')); simpl; [|eexists; reflexivity].
    unfold _has_voter_cast_vote. rewrite Hchain. simpl.
    rewrite <- app_assoc. simpl.
    rewrite (Hfound e' voter' more He Hv). simpl. eexists; reflexivity.
Qed.


(** *** The tally *)

Lemma tally_as_state e c results voter_votes :
  tally e c results voter_votes
  = try! state := tally_state e c results voter_votes in Done (fst state).
Proof.
  revert results voter_votes.
  induction c as [|b c IH]; intros results voter_votes; [reflexivity|].
  simpl. unfold block_txs.
  destruct (contains "transactions" (data b)) as [[|]|err]; simpl;
    [|apply IH | reflexivity].
  destruct (subscript (data b) "transactions") as [tr|err]; simpl; [|reflexivity].
  destruct (iterate tr) as [txs|err]; simpl; [|reflexivity].
  destruct (count_votes e txs results voter_votes) as [[r vv]|err]; simpl;
    [apply IH | reflexivity].
Qed.

Lemma tally_state_app e c (more : list (Block Timestamp)) results voter_votes :
  tally_state e (c ++ more) results voter_votes
  = try! state := tally_state e c results voter_votes in
    tally_state e more (fst state) (snd state).
Proof.
  revert results voter_votes.
  induction c as [|b c IH]; intros results voter_votes; [reflexivity|].
  simpl. destruct (block_txs b) as [txs|err]; simpl; [|reflexivity].
  destruct (count_votes e txs results voter_votes) as [[r vv]|err]; simpl;
    [apply IH | reflexivity].
Qed.

Lemma py_eqb_key_refl (x : json) : hashable x = true -> py_eqb x x = true.
Proof.
  destruct x as [|a|n|t| |]; simpl; try discriminate; intros _;
    [reflexivity | now destruct a | apply Z.eqb_refl | apply String.eqb_refl].
Qed.

Lemma set_count_votes_for (name k : string) (n : Z) results :
  votes_for k (set_count name n results)
  = if String.eqb name k then Some n else votes_for k results.
Proof.
  induction results as [|[k0 m] rest IH]; simpl; [reflexivity|].
  destruct (String.eqb_spec k0 name) as [->|Hk0]; simpl.
  - now destruct (String.eqb name k).
  - rewrite IH. destruct (String.eqb_spec k0 k) as [->|Hk]; [|reflexivity].
    destruct (String.eqb_spec name k); [congruence | reflexivity].
Qed.

Lemma no_votes_votes_for (names : list string) (k : string) results :
  votes_for k (fold_left (fun r name => set_count name 0 r) names results)
  = if existsb (fun name => String.eqb name k) names then Some 0
    else votes_for k results.
Proof.
  revert results. induction names as [|name names IH]; intros results;
    [reflexivity|].
  simpl. rewrite IH, set_count_votes_for.
  destruct (existsb _ names); [now rewrite orb_true_r|].
  now destruct (String.eqb name k).
Qed.

Lemma add_vote_spec (name : string) results (n : Z) :
  votes_for name results = Some n ->
  exists results',
    add_vote name results = Done results'
    /\ votes_for name results' = Some (n + 1)
    /\ forall other, other <> name ->
         votes_for other results' = votes_for other results.
Proof.
  induction results as [|[k m] rest IH]; simpl; [discriminate|].
  destruct (String.eqb_spec k name) as [->|Hk].
  - intros [= ->]. eexists. split; [reflexivity|]. simpl.
    rewrite String.eqb_refl. split; [reflexivity|]. intros other Ho.
    destruct (String.eqb_spec name other); [congruence | reflexivity].
  - intros H. destruct (IH H) as (rest' & -> & H1 & H2). simpl.
    eexists. split; [reflexivity|]. simpl.
    destruct (String.eqb_spec k name); [contradiction|].
    split; [exact H1|]. intros other Ho.
    destruct (String.eqb k other); [reflexivity | now apply H2].
Qed.

Lemma add_vote_key (name : string) results results' :
  add_vote name results = Done results' -> is_Some (votes_for name results).
Proof.
  revert results'. induction results as [|[k m] rest IH]; intros results';
    simpl; [discriminate|].
  destruct (String.eqb k name); [now eexists|].
  destruct (add_vote name rest) as [rest'|err]; [|discriminate].
  intros _. now apply (IH rest').
Qed.

Lemma entries_for_snoc (k : string) voter_votes (kv : json * json) :
  entries_for k (voter_votes ++ [kv])
  = entries_for k voter_votes + (if py_eqb (snd kv) (JStr k) then 1 else 0).
Proof.
  induction voter_votes as [|a rest IH]; simpl; [lia|]. rewrite IH. lia.
Qed.

Lemma counted_start e :
  counted e [] (no_votes (candidates e)) [].
Proof.
  unfold no_votes. repeat split.
  - intros Hin. rewrite no_votes_votes_for.
    apply candidate_listed in Hin. rewrite Hin. now eexists.
  - rewrite no_votes_votes_for.
    destruct (existsb _ (candidates e)) eqn:E; [now rewrite <- candidate_listed|].
    simpl. now intros [x Hx].
  - intros name n. rewrite no_votes_votes_for.
    destruct (existsb _ (candidates e)); simpl; congruence.
  - intros i j a b _ Ha. now rewrite lookup_nil in Ha.
  - intros id candidate Hin. now apply elem_of_nil in Hin.
  - intros entries Hin. now apply elem_of_nil in Hin.
Qed.

(** A transaction that leaves the two dicts as they are. *)
Lemma counted_skip e (scanned : list json) (tx : json) results voter_votes :
  counted e scanned results voter_votes ->
  (forall entries, tx = JDict entries -> valid_vote e entries ->
     exists kv, kv ∈ voter_votes
                /\ py_eqb (fst kv) (tx_get entries "voter_id") = true) ->
  counted e (scanned ++ [tx]) results voter_votes.
Proof.
  intros (Hkeys & Hcount & Hdiff & Hsound & Hcomplete) Htx.
  split; [exact Hkeys|]. split; [exact Hcount|]. split; [exact Hdiff|]. split.
  - intros id candidate Hin.
    destruct (Hsound id candidate Hin) as (entries & Hs & Hrest).
    exists entries. split; [|exact Hrest]. apply elem_of_app. now left.
  - intros entries Hin Hvalid.
    apply elem_of_app in Hin as [Hin|Hin]; [now apply Hcomplete|].
    apply list_elem_of_singleton in Hin. now apply Htx.
Qed.

(** A transaction that is counted. *)
Lemma counted_record e (scanned : list json) (entries : list (string * json))
    (name : string) results results' voter_votes :
  counted e scanned results voter_votes ->
  is_vote_in e (JDict entries) = true ->
  tx_get entries "candidate" = JStr name ->
  name ∈ candidates e ->
  has_voted (tx_get entries "voter_id") voter_votes = Done false ->
  add_vote name results = Done results' ->
  counted e (scanned ++ [JDict entries]) results'
    (voter_votes ++ [(tx_get entries "voter_id", JStr name)]).
Proof.
  intros (Hkeys & Hcount & Hdiff & Hsound & Hcomplete) Hvote Hcand Hlisted
         Hnew Hadd.
  unfold has_voted in Hnew.
  destruct (hashable (tx_get entries "voter_id")) eqn:Hh; [|discriminate].
  injection Hnew as Hnew.
  destruct (add_vote_key _ _ _ Hadd) as [n Hn].
  destruct (add_vote_spec _ _ _ Hn) as (r & Hr & Hsame & Hother).
  rewrite Hadd in Hr. injection Hr as <-.
  split; [|split; [|split; [|split]]].
  - intros k. rewrite Hkeys.
    destruct (String.eqb_spec k name) as [->|Hk].
    + rewrite Hn, Hsame. split; intros _; now eexists.
    + now rewrite (Hother k Hk).
  - intros k m. rewrite entries_for_snoc. simpl.
    destruct (String.eqb_spec name k) as [<-|Hk].
    + rewrite Hsame. intros [= <-]. rewrite (Hcount _ _ Hn). lia.
    + rewrite (Hother k) by congruence. intros Hm.
      rewrite (Hcount _ _ Hm). lia.
  - intros i j a b Hij Ha Hb.
    apply lookup_snoc_Some in Hb as [[Hj Hb]|[Hj <-]].
    + apply lookup_snoc_Some in Ha as [[Hi Ha]|[Hi _]]; [|lia].
      now apply (Hdiff i j).
    + apply lookup_snoc_Some in Ha as [[Hi Ha]|[Hi _]]; [|lia].
      simpl. destruct (py_eqb (fst a) (tx_get entries "voter_id")) eqn:E;
        [|reflexivity].
      assert (Hex : existsb (fun kv => py_eqb (fst kv) (tx_get entries "voter_id"))
                      voter_votes = true).
      { apply existsb_exists. exists a. split; [|exact E].
        apply list_elem_of_In, list_elem_of_lookup. now exists i. }
      congruence.
  - intros id candidate Hin.
    apply elem_of_app in Hin as [Hin|Hin].
    + destruct (Hsound id candidate Hin) as (es & Hs & Hrest).
      exists es. split; [|exact Hrest]. apply elem_of_app. now left.
    + apply list_elem_of_singleton in Hin. injection Hin as -> ->.
      exists entries. split; [apply elem_of_app; right; apply list_elem_of_here|].
      split; [|split; [reflexivity | now rewrite Hcand]].
      split; [exact Hvote|]. now exists name.
  - intros es Hin Hvalid.
    apply elem_of_app in Hin as [Hin|Hin].
    + destruct (Hcomplete es Hin Hvalid) as (kv & Hkv & Heq).
      exists kv. split; [|exact Heq]. apply elem_of_app. now left.
    + apply list_elem_of_singleton in Hin. injection Hin as ->.
      eexists. split; [apply elem_of_app; right; apply list_elem_of_here|].
      simpl. now apply py_eqb_key_refl.
Qed.

Lemma listed_candidate e (candidate : json) :
  existsb (fun name => py_eqb (JStr name) candidate) (candidates e) = true
  <-> exists name, candidate = JStr name /\ name ∈ candidates e.
Proof.
  rewrite existsb_exists. split.
  - intros (name & Hin & Heq).
    destruct candidate as [|a|n|t| |]; simpl in Heq; try discriminate.
    apply String.eqb_eq in Heq as <-. exists name.
    split; [reflexivity | now apply list_elem_of_In].
  - intros (name & -> & Hin). exists name.
    split; [now apply list_elem_of_In | apply String.eqb_refl].
Qed.

Lemma count_votes_counted e (txs scanned : list json) results voter_votes
    results' voter_votes' :
  counted e scanned results voter_votes ->
  count_votes e txs results voter_votes = Done (results', voter_votes') ->
  counted e (scanned ++ txs) results' voter_votes'.
Proof.
  revert scanned results voter_votes.
  induction txs as [|tx txs IH]; intros scanned results voter_votes Hinv.
  - simpl. intros [= <- <-]. now rewrite app_nil_r.
  - replace (scanned ++ tx :: txs)%list with ((scanned ++ [tx]) ++ txs)%list
      by now rewrite <- app_assoc.
    simpl.
    destruct tx as [|a|n|t|items|entries];
      try (apply IH, counted_skip; [exact Hinv | discriminate]).
    destruct (is_vote_in e (JDict entries)) eqn:Hvote.
    2:{ apply IH, counted_skip; [exact Hinv|].
        intros es [= <-] [Hv _]. congruence. }
    destruct (has_voted (tx_get entries "voter_id") voter_votes)
      as [[|]|err] eqn:Hdouble; simpl; [| |discriminate].
    + destruct (first_eight _) as [shown|err]; simpl; [|discriminate].
      apply IH, counted_skip; [exact Hinv|].
      intros es [= <-] _. unfold has_voted in Hdouble.
      destruct (hashable _); [|discriminate]. injection Hdouble as Hdouble.
      apply existsb_exists in Hdouble as (kv & Hin & Heq).
      exists kv. split; [now apply list_elem_of_In | exact Heq].
    + destruct (existsb _ (candidates e)) eqn:Hlisted.
      * apply listed_candidate in Hlisted as (name & Hc & Hin).
        rewrite Hc.
        destruct (add_vote name results) as [r|err] eqn:Hadd; simpl;
          [|discriminate].
        apply IH. eapply counted_record; eassumption.
      * apply IH, counted_skip; [exact Hinv|].
        intros es [= <-] [_ Hname].
        apply listed_candidate in Hname.
        discriminate (eq_trans (eq_sym Hname) Hlisted).
Qed.


Lemma tally_state_counted e c (scanned : list json) results voter_votes
    results' voter_votes' :
  counted e scanned results voter_votes ->
  tally_state e c results voter_votes = Done (results', voter_votes') ->
  exists all_txs : list json,
    (forall tx, tx ∈ all_txs
                <-> exists b txs, b ∈ c /\ block_txs b = Done txs /\ tx ∈ txs)
    /\ counted e (scanned ++ all_txs) results' voter_votes'.
Proof.
  revert scanned results voter_votes.
  induction c as [|b c IH]; intros scanned results voter_votes Hinv; simpl.
  - intros [= <- <-]. exists []. rewrite app_nil_r. split; [|exact Hinv].
    intros tx. split; [intros Hin; now apply elem_of_nil in Hin|].
    intros (b & txs & Hb & _). now apply elem_of_nil in Hb.
  - destruct (block_txs b) as [txs|err] eqn:Eb; simpl; [|discriminate].
    destruct (count_votes e txs results voter_votes) as [[r vv]|err] eqn:Ec;
      simpl; [|discriminate].
    intros Hrest.
    destruct (IH _ _ _ (count_votes_counted _ _ _ _ _ _ _ Hinv Ec) Hrest)
      as (rest_txs & Hall & Hfinal).
    exists (txs ++ rest_txs)%list. rewrite app_assoc. split; [|exact Hfinal].
    intros tx. rewrite elem_of_app, Hall. split.
    + intros [Hin|(b' & txs' & Hb' & Htxs' & Hin)].
      * exists b, txs. split; [apply list_elem_of_here | now split].
      * exists b', txs'. split; [now apply list_elem_of_further | now split].
    + intros (b' & txs' & Hb' & Htxs' & Hin).
      apply elem_of_cons in Hb' as [->|Hb'].
      * left. rewrite Eb in Htxs'. now injection Htxs' as ->.
      * right. now exists b', txs'.
Qed.

Lemma get_results_state e s results :
  get_results e s = Done results ->
  exists voter_votes (all_txs : list json),
    tally_state e (chain s) (no_votes (candidates e)) []
    = Done (results, voter_votes)
    /\ (forall tx, tx ∈ all_txs
                   <-> exists b txs,
                         b ∈ chain s /\ block_txs b = Done txs /\ tx ∈ txs)
    /\ counted e all_txs results voter_votes.
Proof.
  unfold get_results. rewrite tally_as_state.
  destruct (tally_state e (chain s) _ []) as [[r vv]|err] eqn:E; simpl;
    [|discriminate].
  intros [= ->].
  destruct (tally_state_counted e _ [] _ _ _ _ (counted_start e) E)
    as (all_txs & Hall & Hfinal).
  now exists vv, all_txs.
Qed.

Lemma count_votes_one e (entries : list (string * json)) (id : json)
    (name : string) results results' voter_votes :
  is_vote_in e (JDict entries) = true ->
  tx_get entries "voter_id" = id ->
  has_voted id voter_votes = Done false ->
  tx_get entries "candidate" = JStr name ->
  name ∈ candidates e ->
  add_vote name results = Done results' ->
  count_votes e [JDict entries] results voter_votes
  = Done (results', (voter_votes ++ [(id, JStr name)])%list).
Proof.
  intros Hvote Hid Hnew Hc Hlisted Hadd.
  cbn [count_votes]. rewrite Hvote, Hid, Hc, Hnew. cbn [attempt_bind].
  replace (existsb _ (candidates e)) with true.
  - now rewrite Hadd.
  - symmetry. apply listed_candidate. now exists name.
Qed.

(** X22. An accepted vote is counted, and counted once: when the queue was
    empty and [get_results] returned before the vote, it returns after it,
    with the count of the chosen candidate one higher and the other
    counts as they were. *)
Theorem accepted_vote_is_counted (fuel : nat)
    (vote_time data_time block_time : Timestamp) e voter (candidate : string)
    s s' (message : vote_message) results :
  on_block_mined (miner e) = None ->
  pending_data s = [] ->
  Election_cast_vote digest payload_of_time sha256_hex dumps fuel
    vote_time data_time block_time e voter candidate s
  = Done (Return (true, message), s') ->
  get_results e s = Done results ->
  exists (n : Z) results',
    votes_for candidate results = Some n
    /\ get_results e s' = Done results'
    /\ votes_for candidate results' = Some (n + 1)
    /\ forall other, other <> candidate ->
         votes_for other results' = votes_for other results.
Proof.
  intros Hcb Hq Hcast Hres.
  destruct (Election_cast_vote_accepted fuel vote_time data_time block_time
              e voter candidate s s' message Hcb Hcast)
    as (Hlisted & Hnot & block & -> & Htxs).
  rewrite Hq in Htxs. simpl in Htxs.
  destruct (get_results_state e s results Hres)
    as (voter_votes & all_txs & Hstate & Hall & Hinv).
  destruct Hinv as (Hkeys & _ & _ & Hsound & _).
  destruct (proj1 (Hkeys candidate) Hlisted) as [n Hn].
  destruct (add_vote_spec _ _ _ Hn) as (results' & Hadd & Hsame & Hother).
  exists n, results'. split; [exact Hn|]. split; [|split; assumption].
  unfold get_results. rewrite tally_as_state. simpl chain.
  rewrite tally_state_app, Hstate.
  cbn [attempt_bind fst snd tally_state]. rewrite Htxs. cbn [attempt_bind].
  assert (Hnew : has_voted (JStr (voter_id voter)) voter_votes = Done false).
  { unfold has_voted. simpl. f_equal.
    destruct (existsb _ voter_votes) eqn:Ex; [|reflexivity].
    apply existsb_exists in Ex as ([id chosen] & Hin & Heq). simpl in Heq.
    apply list_elem_of_In in Hin.
    destruct (Hsound id chosen Hin) as (entries & Hscanned & [Hvote _] & -> & _).
    apply Hall in Hscanned as (b & txs & Hb & Hbtxs & Htx).
    pose proof (has_voted_in_none e _ _ Hnot b txs _ Hb Hbtxs Htx) as Hno.
    unfold is_vote_of in Hno. rewrite Hvote in Hno. simpl in Hno. congruence. }
  unfold Voter_cast_vote. cbv zeta.
  rewrite (count_votes_one e _ (JStr (voter_id voter)) candidate results results'
             voter_votes); [reflexivity | | reflexivity | exact Hnew | reflexivity
                           | exact Hlisted | exact Hadd].
  unfold is_vote_in, tx_get. simpl. now rewrite String.eqb_refl.
Qed.

(** X23. What [get_results] returns: the counts of the listed candidates,
    each the number of voters recorded for the candidate, where no voter
    is recorded twice, every recorded voter has a vote of this election
    for that candidate in the chain, and every voter with a vote for a
    listed candidate in the chain is recorded. *)
Theorem get_results_spec e s results :
  get_results e s = Done results ->
  (forall name, name ∈ candidates e <-> is_Some (votes_for name results))
  /\ exists voter_votes,
       (forall name n,
          votes_for name results = Some n -> n = entries_for name voter_votes)
       /\ (forall (i j : nat) (first second : json * json),
             (i < j)%nat ->
             voter_votes !! i = Some first -> voter_votes !! j = Some second ->
             py_eqb (fst first) (fst second) = false)
       /\ (forall id chosen : json,
             (id, chosen) ∈ voter_votes ->
             vote_in_chain e (chain s) id chosen
             /\ exists name, chosen = JStr name /\ name ∈ candidates e)
       /\ (forall (id : json) (name : string),
             vote_in_chain e (chain s) id (JStr name) ->
             name ∈ candidates e ->
             exists kv, kv ∈ voter_votes /\ py_eqb (fst kv) id = true).
Proof.
  intros Hres.
  destruct (get_results_state e s results Hres)
    as (voter_votes & all_txs & _ & Hall & Hinv).
  destruct Hinv as (Hkeys & Hcount & Hdiff & Hsound & Hcomplete).
  split; [exact Hkeys|]. exists voter_votes.
  split; [exact Hcount|]. split; [exact Hdiff|]. split.
  - intros id chosen Hin.
    destruct (Hsound id chosen Hin)
      as (entries & Hscanned & [Hvote Hname] & Hid & Hc).
    apply Hall in Hscanned as (b & txs & Hb & Hbtxs & Htx).
    split; [now exists b, txs, entries|]. now rewrite Hc.
  - intros id name (b & txs & entries & Hb & Hbtxs & Htx & Hvote & -> & Hc) Hin.
    apply Hcomplete; [apply Hall; now exists b, txs|].
    split; [exact Hvote|]. now exists name.
Qed.


(** *** The chain of the voting layer *)

Lemma mine_single_block_keeps (fuel : nat) (data_time block_time : Timestamp)
    m s :
  on_block_mined m = None ->
  0 <= difficulty s <= miner_difficulty m ->
  chain_invariant s ->
  verify_blockchain digest s = true ->
  Forall (application_block payload_of_time sha256_hex dumps) (chain s) ->
  Forall (application_tx payload_of_time sha256_hex dumps) (pending_data s) ->
  pending_data s <> [] ->
  forall r s',
    mine_single_block digest payload_of_time fuel data_time block_time m s
    = (Return r, s') ->
    voting_chain digest payload_of_time sha256_hex dumps s'
    /\ difficulty s' = difficulty s.
Proof.
  intros Hcb Hd (Hne & Hlinked & Hindexed & Hmined) Hvalid Hblocks Hq Hsome r s'.
  destruct (mine_single_block_cases fuel data_time block_time m s Hcb Hsome)
    as [(block & latest & -> & Hi & Hdata & Hl & Hprev & Hhash & Hmeets)
       |[Hno _]].
  2:{ intros Hr. rewrite Hr in Hno. now destruct (Hno r). }
  intros [= _ <-]. split; [|reflexivity].
  assert (Hmeets' : meets_difficulty (difficulty s) (hash block) = true)
    by now apply (meets_difficulty_mono _ (miner_difficulty m)).
  assert (Hlatest : index latest + 1 = len (chain s)).
  { rewrite last_lookup in Hl.
    pose proof (lookup_lt_Some _ _ _ Hl) as Hlt.
    apply Hindexed in Hl. unfold len. lia. }
  split; [reflexivity|]. split; [|split].
  - simpl. apply Forall_app. split; [exact Hblocks|].
    constructor; [|constructor]. right.
    exists (pending_data s), (miner_address m), (payload_of_time data_time).
    split; [exact Hq | exact Hdata].
  - split; [simpl; now destruct (chain s)|]. simpl.
    apply (invariant_snoc _ _ _ latest); auto.
    now apply meets_difficulty_leading.
  - unfold verify_blockchain in *. simpl.
    rewrite (is_valid_chain_difficulty _ s) by reflexivity.
    apply is_valid_chain_iff in Hvalid as [_ Hpairs].
    apply is_valid_chain_iff. split; [now destruct (chain s)|].
    apply (pairwise_valid_snoc _ _ _ latest); [exact Hpairs | exact Hl |].
    apply is_valid_block_intro; [lia | exact Hprev | exact Hhash | exact Hmeets'].
Qed.

(** X24. The chain of the voting layer. The chain the constructor makes
    has nothing queued, passes [verify_blockchain] and holds no payload
    that is not of the voting layer; every method of an election that
    writes, with a miner that has no callback and mines at the difficulty
    of the chain or above, keeps it so whenever it returns:
    [Election.__init__] with its registration, [Election.cast_vote]
    whether it accepts or refuses, and [end_election], which also closes
    the election and returns the tally of the chain it leaves. *)
Theorem voting_layer_keeps_its_chain :
  (forall (fuel : nat) (d : Z) (now : Timestamp) s,
     Blockchain_init digest fuel d now = Return s ->
     voting_chain digest payload_of_time sha256_hex dumps s)
  /\ (forall (fuel : nat) (election_uuid miner_uuid : string)
        (now data_time block_time : Timestamp) (election_title : string)
        (election_candidates : list string) s (given : option (Miner Timestamp))
        e s',
        voting_chain digest payload_of_time sha256_hex dumps s ->
        0 <= difficulty s ->
        (forall m, given = Some m ->
           on_block_mined m = None /\ difficulty s <= miner_difficulty m) ->
        Election_init digest payload_of_time fuel election_uuid miner_uuid
          now data_time block_time election_title election_candidates s given
        = (Return e, s') ->
        voting_chain digest payload_of_time sha256_hex dumps s'
        /\ difficulty s' = difficulty s
        /\ is_active e = true /\ candidates e = election_candidates
        /\ on_block_mined (miner e) = None
        /\ difficulty s <= miner_difficulty (miner e))
  /\ (forall (fuel : nat) (vote_time data_time block_time : Timestamp)
        e voter (choice : string) s (result : bool * vote_message) s',
        voting_chain digest payload_of_time sha256_hex dumps s ->
        on_block_mined (miner e) = None ->
        0 <= difficulty s <= miner_difficulty (miner e) ->
        Election_cast_vote digest payload_of_time sha256_hex dumps fuel
          vote_time data_time block_time e voter choice s
        = Done (Return result, s') ->
        voting_chain digest payload_of_time sha256_hex dumps s'
        /\ difficulty s' = difficulty s)
  /\ (forall (fuel : nat) (now data_time block_time : Timestamp)
        e s (results : attempt (list (string * Z))) e' s',
        voting_chain digest payload_of_time sha256_hex dumps s ->
        on_block_mined (miner e) = None ->
        0 <= difficulty s <= miner_difficulty (miner e) ->
        end_election digest payload_of_time fuel now data_time block_time e s
        = (Return results, e', s') ->
        voting_chain digest payload_of_time sha256_hex dumps s'
        /\ difficulty s' = difficulty s
        /\ is_active e' = false /\ election_id e' = election_id e
        /\ results = get_results e' s').
Proof.
  assert (Hstep : forall (fuel : nat) (data_time block_time : Timestamp) m s
                    (tx : json) r s',
             voting_chain digest payload_of_time sha256_hex dumps s ->
             on_block_mined m = None ->
             0 <= difficulty s <= miner_difficulty m ->
             application_tx payload_of_time sha256_hex dumps tx ->
             mine_single_block digest payload_of_time fuel data_time block_time
               m (add_data s tx) = (Return r, s') ->
             voting_chain digest payload_of_time sha256_hex dumps s'
             /\ difficulty s' = difficulty s).
  { intros fuel data_time block_time m s tx r s'
           (Hq & Hblocks & Hinv & Hvalid) Hcb Hd Htx Hmined.
    apply (mine_single_block_keeps fuel data_time block_time m (add_data s tx)
             Hcb Hd Hinv) with (r := r); [| exact Hblocks | | | exact Hmined].
    - unfold verify_blockchain in *.
      now rewrite (is_valid_chain_difficulty (add_data s tx) s).
    - unfold add_data. simpl. rewrite Hq. constructor; [exact Htx | constructor].
    - unfold add_data. simpl. now destruct (pending_data s). }
  split; [|split; [|split]].
  - intros fuel d now s Hinit.
    pose proof (Blockchain_init_invariant fuel d now s Hinit) as Hinv.
    unfold Blockchain_init in Hinit.
    destruct (mine_block digest fuel d _) as [g|err|] eqn:E; simpl in Hinit;
      try discriminate.
    injection Hinit as <-.
    split; [reflexivity|]. split; [|split; [exact Hinv | reflexivity]].
    constructor; [|constructor]. left.
    now apply mine_block_Return in E as (_ & _ & _ & -> & _).
  - intros fuel election_uuid miner_uuid now data_time block_time
           election_title election_candidates s given e s' Hchain Hd Hgiven.
    unfold Election_init, _register_election.
    set (m := match given with Some m => m | None => _ end).
    assert (Hm : on_block_mined m = None /\ difficulty s <= miner_difficulty m).
    { subst m. destruct given as [m|]; [now apply Hgiven|].
      split; [reflexivity | simpl; lia]. }
    destruct Hm as [Hcb Hdm].
    set (e0 := mkElection _ _ _ _ _ _ _ _).
    destruct (mine_single_block _ _ _ _ _ _ _) as [[r|err|] s1] eqn:E;
      simpl; try discriminate.
    intros [= <- <-].
    destruct (Hstep _ _ _ _ _ _ _ _ Hchain Hcb (conj Hd Hdm)
                (or_intror (or_introl (ex_intro _ e0 eq_refl))) E)
      as [Hkeep Hsame].
    split; [exact Hkeep|]. split; [exact Hsame|]. repeat split; assumption.
  - intros fuel vote_time data_time block_time e voter choice s result s'
           Hchain Hcb Hd.
    unfold Election_cast_vote.
    destruct (is_active e); simpl;
      [|intros [= _ <-]; split; [exact Hchain | reflexivity]].
    destruct (existsb _ (candidates e)); simpl;
      [|intros [= _ <-]; split; [exact Hchain | reflexivity]].
    destruct (_has_voter_cast_vote e s (voter_id voter)) as [[|]|err]; simpl;
      [intros [= _ <-]; split; [exact Hchain | reflexivity] | | discriminate].
    set (vote_tx := Voter_cast_vote _ _ _ _ _ _ _).
    destruct (mine_single_block _ _ _ _ _ _ _) as [[r|err|] s1] eqn:E;
      simpl; try discriminate.
    intros Hres.
    assert (Hs : s1 = s') by (destruct r; now injection Hres). subst s1.
    apply (Hstep _ _ _ _ _ _ _ _ Hchain Hcb Hd) in E; [exact E|].
    left. now eexists _, _, _, _.
  - intros fuel now data_time block_time e s results e' s' Hchain Hcb Hd.
    unfold end_election.
    destruct (mine_single_block _ _ _ _ _ _ _) as [[r|err|] s1] eqn:E;
      simpl; try discriminate.
    intros [= <- <- <-].
    apply (Hstep _ _ _ _ _ _ _ _ Hchain Hcb Hd) in E as [Hkeep Hsame];
      [|right; right; now exists e, now].
    repeat split; try assumption; apply Hkeep.
Qed.

End VotingProperties.

End Properties.

(** * The model at work

    The theorems above, applied to the small instance, and the places
    where the code leaves the specification. *)

(** C2 at the toy chain: block 1 is valid on the genesis block. *)
Lemma is_valid_block_iff_witness :
  is_valid_block Toy.digest Toy.fresh Toy.b1 Toy.g0 = true
  /\ (is_valid_block Toy.digest Toy.fresh Toy.b1 Toy.g0 = true
      <-> index Toy.b1 = index Toy.g0 + 1
          /\ previous_hash Toy.b1 = hash Toy.g0
          /\ hash Toy.b1 = calculate_hash Toy.digest Toy.b1
          /\ difficulty Toy.fresh <= Z.of_nat (leading_zeros (hash Toy.b1))).
Proof.
  split; [reflexivity|].
  apply (is_valid_block_iff Toy.digest Toy.fresh Toy.b1 Toy.g0).
  vm_compute. discriminate.
Defined.

(** C4 at the toy chain: a valid candidate one block longer takes the
    place of the chain, and a candidate of equal length is refused, valid
    as it is. *)
Lemma replace_chain_iff_witness :
  replace_chain Toy.digest Toy.fresh [Toy.g0; Toy.b1]
  = (true, Toy.ledger [Toy.g0; Toy.b1])
  /\ is_valid_chain Toy.digest (Toy.ledger [Toy.g0; Toy.b1])
       [Toy.g0; Toy.b1_other] = true
  /\ replace_chain Toy.digest (Toy.ledger [Toy.g0; Toy.b1]) [Toy.g0; Toy.b1_other]
     = (false, Toy.ledger [Toy.g0; Toy.b1]).
Proof.
  split; [|split; [vm_compute; reflexivity|]].
  - destruct (replace_chain_iff Toy.digest Toy.fresh [Toy.g0; Toy.b1])
      as (_ & _ & _ & H & _).
    destruct H as (Ht & Hc & Hd & Hq);
      [vm_compute; reflexivity | vm_compute; reflexivity |].
    destruct (replace_chain Toy.digest Toy.fresh [Toy.g0; Toy.b1])
      as [accepted [c d q]].
    simpl in Ht, Hc, Hd, Hq. now subst.
  - destruct (replace_chain_iff Toy.digest (Toy.ledger [Toy.g0; Toy.b1])
                [Toy.g0; Toy.b1_other]) as (_ & _ & _ & _ & _ & H & _).
    apply H. vm_compute. discriminate.
Defined.

(** C7 at the toy chain: block 1 offered to the chain of the constructor
    is appended; offered again it is already there; another block 1 on the
    same genesis block is reported as a fork, and nothing is changed. *)
Lemma fork_detection_decision_table_witness :
  fork_detection_and_resolution Toy.digest Toy.fresh Toy.b1
  = (Return (true, "Block added to chain"), Toy.ledger [Toy.g0; Toy.b1])
  /\ fork_detection_and_resolution Toy.digest (Toy.ledger [Toy.g0; Toy.b1])
       Toy.b1
     = (Return (false, "Block already exists in our chain"),
        Toy.ledger [Toy.g0; Toy.b1])
  /\ fork_detection_and_resolution Toy.digest (Toy.ledger [Toy.g0; Toy.b1])
       Toy.b1_other
     = (Return (false, "Fork detected, need full chain comparison"),
        Toy.ledger [Toy.g0; Toy.b1]).
Proof.
  split; [|split].
  - destruct (fork_detection_decision_table Toy.digest Toy.fresh Toy.b1)
      as (_ & H & _); [discriminate | vm_compute; discriminate |].
    destruct H as (latest & Hl & H & _); [reflexivity|].
    injection Hl as <-. apply H. vm_compute. reflexivity.
  - destruct (fork_detection_decision_table Toy.digest
                (Toy.ledger [Toy.g0; Toy.b1]) Toy.b1)
      as (_ & _ & H); [discriminate | vm_compute; discriminate |].
    destruct H as (existing & He & H & _); [reflexivity|].
    injection He as <-. apply H. reflexivity.
  - destruct (fork_detection_decision_table Toy.digest
                (Toy.ledger [Toy.g0; Toy.b1]) Toy.b1_other)
      as (_ & _ & H); [discriminate | vm_compute; discriminate |].
    destruct H as (existing & He & _ & _ & H); [reflexivity|].
    injection He as <-.
    destruct H as (predecessor & Hp & H);
      [vm_compute; discriminate | reflexivity |].
    injection Hp as <-. apply H. reflexivity.
Defined.



(** C9, scenario D: a candidate equal to the local chain but for block 3,
    mined again on another payload, has its common ancestor at 2. *)
Lemma find_common_ancestor_spec_witness :
  find_common_ancestor (Toy.ledger [Toy.g0; Toy.b1; Toy.b2; Toy.b3])
    [Toy.g0; Toy.b1; Toy.b2; Toy.b3_other] = 2.
Proof.
  destruct (find_common_ancestor_spec (Toy.ledger [Toy.g0; Toy.b1; Toy.b2; Toy.b3])
              [Toy.g0; Toy.b1; Toy.b2; Toy.b3_other]) as (_ & H & _).
  apply (H 3%nat). split.
  - intros [|[|[|j]]] x y Hj Hx Hy; try lia;
      injection Hx as <-; injection Hy as <-; reflexivity.
  - exists Toy.b3, Toy.b3_other. repeat split. vm_compute. discriminate.
Defined.

(** C8 at the toy chain: the candidate has the blocks 0 and 1 of the local
    chain and a block 2 with two leading zeros against one; its suffix
    weighs 256 against 16 and replaces the local one after the common
    ancestor 1. A candidate on another genesis block has no common
    ancestor, and nothing is changed. *)
Lemma sync_missing_blocks_fork_witness :
  sync_missing_blocks Toy.digest (Toy.ledger [Toy.g0; Toy.b1; Toy.b2])
    [Toy.g0; Toy.b1; Toy.b2_heavy] 2
  = (Return (true, Chain_replaced_after_fork 1),
     Toy.ledger [Toy.g0; Toy.b1; Toy.b2_heavy])
  /\ sync_missing_blocks Toy.digest (Toy.ledger [Toy.g0; Toy.b1; Toy.b2])
       [Toy.gA; Toy.b1_heavy] 1
     = (Return (false, No_common_ancestor_found),
        Toy.ledger [Toy.g0; Toy.b1; Toy.b2]).
Proof.
  split.
  - destruct (sync_missing_blocks_fork Toy.digest
                (Toy.ledger [Toy.g0; Toy.b1; Toy.b2])
                [Toy.g0; Toy.b1; Toy.b2_heavy] 2) as (_ & H & _);
      [vm_compute; split; [discriminate | reflexivity] | reflexivity |].
    destruct (H 1%nat) as (_ & Hmore & _).
    + left. split.
      * intros [|[|j]] x y Hj Hx Hy; try lia;
          injection Hx as <-; injection Hy as <-; reflexivity.
      * exists Toy.b2, Toy.b2_heavy.
        split; [reflexivity|]. split; [reflexivity|]. vm_compute. discriminate.
    + apply Hmore. vm_compute. reflexivity.
  - destruct (sync_missing_blocks_fork Toy.digest
                (Toy.ledger [Toy.g0; Toy.b1; Toy.b2])
                [Toy.gA; Toy.b1_heavy] 1) as (H & _);
      [vm_compute; split; [discriminate | reflexivity] | reflexivity |].
    apply H. split; [intros j x y Hj; lia|].
    exists Toy.g0, Toy.gA.
    split; [reflexivity|]. split; [reflexivity|]. vm_compute. discriminate.
Defined.

(** C6, scenario A: on a genesis-only chain of difficulty 2 with one queued
    payload, mining yields a second block on the genesis hash, with two
    leading zeros, and empties the queue. *)
Lemma mine_pending_data_spec_witness :
  exists new_block,
    mine_pending_data Toy.digest 5 101 Toy.scenario_A "addr"
    = (Return (Some new_block), mkBlockchain [Toy.gA; new_block] 2 [])
    /\ index new_block = 1
    /\ previous_hash new_block = hash Toy.gA
    /\ 2 <= Z.of_nat (leading_zeros (hash new_block)).
Proof.
  destruct (mine_pending_data_spec Toy.digest 5 101 Toy.scenario_A "addr")
    as (_ & H).
  destruct H as (latest & Hl & [(new_block & H1 & H2 & _ & H3 & _ & H4)|Hout] & _);
    [discriminate | discriminate | | vm_compute in Hout; discriminate].
  injection Hl as <-. exists new_block. repeat split; assumption.
Defined.

(** C5, scenario C and the tie: of a fork one block longer than the local
    chain and two forks two blocks longer, all valid, the first of the two
    longest is adopted. *)
Lemma resolve_fork_spec_witness :
  exists w,
    winner Toy.digest Toy.fresh
      [map to_dict [Toy.g0; Toy.b1];
       map to_dict [Toy.g0; Toy.b1; Toy.b2];
       map to_dict [Toy.g0; Toy.b1; Toy.b2_other]] w
    /\ snd (resolve_fork Toy.digest 10 (fun _ => 100) Toy.fresh
              [map to_dict [Toy.g0; Toy.b1];
               map to_dict [Toy.g0; Toy.b1; Toy.b2];
               map to_dict [Toy.g0; Toy.b1; Toy.b2_other]])
       = Toy.ledger w
    /\ len (chain Toy.fresh) < len w
    /\ w = [Toy.g0; Toy.b1; Toy.b2].
Proof.
  pose proof (resolve_fork_spec Toy.digest 10 (fun _ => 100) Toy.fresh
                [map to_dict [Toy.g0; Toy.b1];
                 map to_dict [Toy.g0; Toy.b1; Toy.b2];
                 map to_dict [Toy.g0; Toy.b1; Toy.b2_other]]) as H.
  destruct H as (w & Hw & Hs & Hlen). exists w.
  repeat split; try assumption.
  vm_compute in Hs. injection Hs as Hs. rewrite <- Hs. reflexivity.
Defined.

(** X25 at the toy chain: the chain after the constructor, one queued
    payload and one mined block is reachable, so it has the invariant. *)
Lemma reachable_chain_invariant_witness :
  reachable Toy.digest Toy.mined_once /\ chain_invariant Toy.mined_once.
Proof.
  assert (Hr : reachable Toy.digest Toy.mined_once).
  { unfold Toy.mined_once. apply reachable_step; [|exact I].
    apply reachable_step; [|exact I].
    apply (reachable_init Toy.digest 10 1 100 Toy.fresh). reflexivity. }
  split; [exact Hr|].
  exact (proj1 (reachable_chain_invariant Toy.digest Toy.mined_once Hr)).
Defined.

(** C1 on the code. The chain after the constructor has the invariant, and
    two calls break it. [replace_chain] adopts a longer candidate whose
    adjacent pairs are valid and whose first block has index 5:
    [is_valid_chain] starts at the second block, where [resolve_fork]
    checks the first block and turns the same candidate down.
    [sync_missing_blocks], on a fork, puts a candidate's suffix of more
    work in the place of the local one without validating it, where its
    own append branch validates every block and refuses the same
    candidate. *)
Theorem chain_invariant_not_kept :
  reachable Toy.digest Toy.fresh
  /\ chain_invariant Toy.fresh
  /\ replace_chain Toy.digest Toy.fresh [Toy.x5; Toy.x6]
     = (true, Toy.ledger [Toy.x5; Toy.x6])
  /\ ~ chain_invariant (Toy.ledger [Toy.x5; Toy.x6])
  /\ ~ chain_invariant
         (run Toy.digest (Replace_chain [Toy.x5; Toy.x6]) Toy.fresh)
  /\ resolve_fork Toy.digest 10 (fun _ => 100) Toy.fresh
       [map to_dict [Toy.x5; Toy.x6]]
     = (Return false, Toy.fresh)
  /\ chain_invariant (Toy.ledger [Toy.g0; Toy.b1])
  /\ sync_missing_blocks Toy.digest (Toy.ledger [Toy.g0; Toy.b1])
       [Toy.g0; Toy.junk] 1
     = (Return (true, Chain_replaced_after_fork 0),
        Toy.ledger [Toy.g0; Toy.junk])
  /\ ~ chain_invariant (Toy.ledger [Toy.g0; Toy.junk])
  /\ ~ chain_invariant
         (run Toy.digest (Sync_missing_blocks [Toy.g0; Toy.junk] 1)
            (Toy.ledger [Toy.g0; Toy.b1]))
  /\ sync_missing_blocks Toy.digest Toy.fresh [Toy.g0; Toy.junk] 1
     = (Return (false, Invalid_block_during_sync 1), Toy.fresh).
Proof.
  assert (Hinit : Blockchain_init Toy.digest 10 1 100 = Return Toy.fresh)
    by reflexivity.
  assert (Hfresh : reachable Toy.digest Toy.fresh)
    by exact (reachable_init Toy.digest 10 1 100 Toy.fresh Hinit).
  assert (Hx : ~ chain_invariant (Toy.ledger [Toy.x5; Toy.x6])).
  { intros (_ & _ & Hi & _). specialize (Hi O Toy.x5 eq_refl). discriminate. }
  assert (Hj : ~ chain_invariant (Toy.ledger [Toy.g0; Toy.junk])).
  { intros (_ & _ & Hi & _). specialize (Hi 1%nat Toy.junk eq_refl).
    discriminate. }
  split; [exact Hfresh|].
  split; [exact (Blockchain_init_invariant Toy.digest 10 1 100 _ Hinit)|].
  split; [vm_compute; reflexivity|]. split; [exact Hx|].
  split; [exact Hx|]. split; [vm_compute; reflexivity|].
  split; [exact (add_block_invariant Toy.digest Toy.fresh Toy.b1
                   (Blockchain_init_invariant Toy.digest 10 1 100 _ Hinit))|].
  split; [vm_compute; reflexivity|]. split; [exact Hj|].
  split; [exact Hj | vm_compute; reflexivity].
Qed.

(** C3 on the code. A sync that starts beyond the end of the local chain
    and meets an invalid block does not put the chain back: the local chain
    [g0], synced from index 2 with the candidate [g0; b1; b2; b3] whose
    block 3 was tampered with, fails at index 3 and is left as [g0; b2].
    The cut to [sync_from_index] blocks equals the chain at entry only when
    the sync starts at its end, as the same call from index 1 shows. *)
Theorem sync_failure_keeps_partial_extension :
  sync_missing_blocks Toy.digest (Toy.ledger [Toy.g0])
    [Toy.g0; Toy.b1; Toy.b2; Toy.b3_tampered] 2
  = (Return (false, Invalid_block_during_sync 3), Toy.ledger [Toy.g0; Toy.b2])
  /\ sync_missing_blocks Toy.digest (Toy.ledger [Toy.g0])
       [Toy.g0; Toy.b1; Toy.b2; Toy.b3_tampered] 1
     = (Return (false, Invalid_block_during_sync 3), Toy.ledger [Toy.g0])
  /\ is_valid_chain Toy.digest (Toy.ledger [Toy.g0]) [Toy.g0; Toy.b1; Toy.b2]
     = true
  /\ is_valid_block Toy.digest (Toy.ledger [Toy.g0]) Toy.b3_tampered Toy.b2
     = false.
Proof. repeat split; vm_compute; reflexivity. Qed.

(** Scenario B: two forks of the length of the local chain, both valid.
    Nothing is adopted. *)
Example resolve_fork_equal_length :
  resolve_fork Toy.digest 10 (fun _ => 100) (Toy.ledger [Toy.g0; Toy.b1])
    [map to_dict [Toy.g0; Toy.b1_other]; map to_dict [Toy.g0; Toy.b1_heavy]]
  = (Return false, Toy.ledger [Toy.g0; Toy.b1]).
Proof. vm_compute. reflexivity. Qed.

(** Scenario E: the tampered block 3 still carries the hash of block 2 as
    its previous-hash, and is not valid on block 2. *)
Example tampered_block_is_invalid :
  previous_hash Toy.b3_tampered = hash Toy.b2
  /\ is_valid Toy.digest Toy.b3_tampered = false
  /\ is_valid_block Toy.digest Toy.fresh Toy.b3_tampered Toy.b2 = false
  /\ is_valid_block Toy.digest Toy.fresh Toy.b3 Toy.b2 = true.
Proof. repeat split; vm_compute; reflexivity. Qed.

(** Outside the data model, a record with a negative index makes Python
    count from the end of the chain, or raise when there is no such
    position; the chain is not changed. *)
Example negative_index_raises :
  fork_detection_and_resolution Toy.digest Toy.fresh
    (mkBlock (-5) 0 JNull "none" 0 "none")
  = (Raise IndexError, Toy.fresh).
Proof. vm_compute. reflexivity. Qed.

(** Outside the data model as well, a negative difficulty: [hash[:-1]] is
    the hash without its last character and ['0' * -1] is empty, so no
    block is valid, although every hash has at least -1 leading zeros. *)
Example negative_difficulty_rejects :
  is_valid_block Toy.digest (mkBlockchain [Toy.g0] (-1) []) Toy.b1 Toy.g0 = false
  /\ is_valid_block Toy.digest (mkBlockchain [Toy.g0] 1 []) Toy.b1 Toy.g0 = true.
Proof. split; vm_compute; reflexivity. Qed.

(** * The rest of the ledger code at work *)

(** X2 at the toy genesis block of difficulty 2: the search from nonce 0
    stops at nonce 2, the first whose digest has two leading zeros. *)
Lemma mine_block_first_nonce_witness :
  exists k : nat,
    nonce Toy.gA = 0 + Z.of_nat k
    /\ k = 2%nat
    /\ meets_difficulty 2 (hash Toy.gA) = true
    /\ forall j : nat,
         (j < k)%nat ->
         meets_difficulty 2
           (Toy.digest 0 100 genesis_data genesis_previous_hash (0 + Z.of_nat j))
         = false.
Proof.
  destruct (mine_block_first_nonce Toy.digest 10 2
              (Block_init Toy.digest 0 100 genesis_data genesis_previous_hash 0)
              Toy.gA eq_refl eq_refl)
    as (k & _ & Hn & _ & Hm & Hfirst & _).
  exists k. split; [exact Hn|]. split; [|split; [exact Hm | exact Hfirst]].
  change (nonce Toy.gA) with 2 in Hn. simpl in Hn. lia.
Defined.

(** X5 at the toy chain: two payloads queued in turn are mined in that
    order. *)
Lemma queued_payloads_are_mined_in_order_witness :
  exists new_block after,
    mine_pending_data Toy.digest 10 101
      (fold_left add_data [JNum 1; JNum 2] Toy.fresh) "m"
    = (Return (Some new_block), after)
    /\ data new_block
       = JDict [("transactions", JList [JNum 1; JNum 2]); ("miner", JStr "m")]
    /\ pending_data after = [].
Proof.
  remember (mine_pending_data Toy.digest 10 101
              (fold_left add_data [JNum 1; JNum 2] Toy.fresh) "m") as r eqn:E.
  symmetry in E. destruct r as [[[new_block|]|e|] after];
    try (vm_compute in E; discriminate).
  exists new_block, after. split; [reflexivity|].
  destruct (queued_payloads_are_mined_in_order Toy.digest 10 101 Toy.fresh
              [JNum 1; JNum 2] "m" new_block after E) as (_ & Hd & _ & Hq).
  split; [exact Hd | exact Hq].
Defined.

(** X8 at the toy chain: block 1, added on the genesis block, is found
    under index 1 and under its hash. *)
Lemma appended_block_is_found_witness :
  get_block_by_index (Toy.ledger [Toy.g0; Toy.b1]) 1 = Return (Some Toy.b1)
  /\ get_block_by_hash (Toy.ledger [Toy.g0; Toy.b1]) (hash Toy.b1) = Some Toy.b1.
Proof.
  assert (Hinit : Blockchain_init Toy.digest 10 1 100 = Return Toy.fresh)
    by reflexivity.
  destruct (appended_block_is_found Toy.digest Toy.fresh Toy.b1 Toy.g0
              (Blockchain_init_invariant Toy.digest 10 1 100 _ Hinit)
              eq_refl eq_refl)
    as (_ & _ & _ & Hi & _ & _ & Hh).
  split; [exact Hi|]. apply Hh.
  intros x Hx. apply list_elem_of_singleton in Hx as ->.
  vm_compute. discriminate.
Defined.

(** X12 at the toy chain: the chain after one mined block verifies. *)
Lemma reachable_chain_verifies_witness :
  reachable Toy.digest Toy.mined_once
  /\ is_valid_chain Toy.digest Toy.mined_once (chain Toy.mined_once) = true.
Proof.
  assert (Hr : reachable Toy.digest Toy.mined_once).
  { unfold Toy.mined_once. apply reachable_step; [|exact I].
    apply reachable_step; [|exact I].
    apply (reachable_init Toy.digest 10 1 100 Toy.fresh). reflexivity. }
  split; [exact Hr|].
  exact (reachable_chain_verifies Toy.digest Toy.mined_once Hr).
Defined.

(** X14 at the toy chain: another block 1 is a fork for [detect_fork] and
    a failure for [handle_received_block]. *)
Lemma detect_fork_spec_witness :
  exists (fork : bool) (message : fork_message) (reason : string),
    detect_fork Toy.digest (Toy.ledger [Toy.g0; Toy.b1]) Toy.b1_other
    = Return (fork, message, fork)
    /\ fst (handle_received_block Toy.digest (Toy.ledger [Toy.g0; Toy.b1])
              Toy.b1_other)
       = Return (negb fork, reason)
    /\ fork = true.
Proof.
  destruct (detect_fork_spec Toy.digest (Toy.ledger [Toy.g0; Toy.b1])
              Toy.b1_other)
    as (fork & message & reason & Hd & _ & Hh & _);
    [discriminate | vm_compute; discriminate |].
  exists fork, message, reason. split; [exact Hd|]. split; [exact Hh|].
  vm_compute in Hd. now injection Hd.
Defined.

(** X15 at the toy chain, scenario B without fuel: two forks of the length
    of the local chain are turned down before anything is mined. *)
Lemma resolve_fork_without_longer_candidate_witness :
  resolve_fork Toy.digest 0 (fun _ => 100) (Toy.ledger [Toy.g0; Toy.b1])
    [map to_dict [Toy.g0; Toy.b1_other]; map to_dict [Toy.g0; Toy.b1_heavy]]
  = (Return false, Toy.ledger [Toy.g0; Toy.b1]).
Proof.
  apply (resolve_fork_without_longer_candidate Toy.digest).
  intros chain_data H.
  apply elem_of_cons in H as [->|H]; [vm_compute; discriminate|].
  apply list_elem_of_singleton in H as ->. vm_compute. discriminate.
Defined.

(** X16 at the toy chain: the candidate's heavier block 1 raises the work
    of the chain from 32 to 272. *)
Lemma sync_fork_increases_work_witness :
  _calculate_chain_work (chain (Toy.ledger [Toy.g0; Toy.b1]))
  < _calculate_chain_work
      (chain (snd (sync_missing_blocks Toy.digest (Toy.ledger [Toy.g0; Toy.b1])
                     [Toy.g0; Toy.b1_heavy] 1))).
Proof.
  destruct (sync_fork_increases_work Toy.digest (Toy.ledger [Toy.g0; Toy.b1])
              [Toy.g0; Toy.b1_heavy] 1)
    as (ok & message & Hr & _ & Hok);
    [vm_compute; split; [discriminate | reflexivity] | reflexivity |].
  apply Hok. vm_compute in Hr. now injection Hr.
Defined.

(** [resolve_conflicts] takes a longer valid candidate whatever its first
    block; [resolve_fork] turns the same candidate down. *)
Example resolve_conflicts_takes_any_first_block :
  resolve_conflicts Toy.digest Toy.fresh [map to_dict [Toy.x5; Toy.x6]]
  = (true, Toy.ledger [Toy.x5; Toy.x6])
  /\ resolve_fork Toy.digest 10 (fun _ => 100) Toy.fresh
       [map to_dict [Toy.x5; Toy.x6]]
     = (Return false, Toy.fresh).
Proof. split; vm_compute; reflexivity. Qed.

(** A record whose payload is [null] is loaded with the empty list as its
    payload and is valid when it was mined over the empty list; a candidate
    that holds it is adopted by [resolve_fork] and by [resolve_conflicts],
    and is not written out as it came in. *)
Example null_payload_is_loaded_as_empty_list :
  data (from_dict Toy.digest Toy.null_record) = JList []
  /\ from_dict Toy.digest Toy.null_record = Toy.b1_empty
  /\ is_valid Toy.digest (from_dict Toy.digest Toy.null_record) = true
  /\ resolve_fork Toy.digest 10 (fun _ => 100) Toy.fresh
       [[to_dict Toy.g0; Toy.null_record]]
     = (Return true, Toy.ledger [Toy.g0; Toy.b1_empty])
  /\ resolve_conflicts Toy.digest Toy.fresh [[to_dict Toy.g0; Toy.null_record]]
     = (true, Toy.ledger [Toy.g0; Toy.b1_empty])
  /\ to_dict (from_dict Toy.digest Toy.null_record) <> Toy.null_record.
Proof.
  repeat split; try (vm_compute; reflexivity). vm_compute. discriminate.
Qed.

(** A miner set to difficulty 0 on a chain of difficulty 1 appends a block
    the chain does not accept. *)
Example miner_below_the_chain_difficulty :
  let mined :=
    mine_single_block Toy.digest JNum 10 101 102
      (Miner_init (add_data Toy.fresh (JNum 1)) "m" (Some 0) None)
      (add_data Toy.fresh (JNum 1)) in
  (exists block, fst mined = Return (Some block))
  /\ is_valid_chain Toy.digest (snd mined) (chain (snd mined)) = false.
Proof. split; [eexists|]; vm_compute; reflexivity. Qed.

(** X4 at the toy chain: block 1 is added on the genesis block, and
    refused the second time. *)
Lemma add_block_spec_witness :
  add_block Toy.digest Toy.fresh Toy.b1
  = (Return true, Toy.ledger [Toy.g0; Toy.b1])
  /\ add_block Toy.digest (Toy.ledger [Toy.g0; Toy.b1]) Toy.b1
     = (Return false, Toy.ledger [Toy.g0; Toy.b1])
  /\ add_block Toy.digest (Toy.ledger []) Toy.b1
     = (Raise IndexError, Toy.ledger []).
Proof.
  destruct (add_block_spec Toy.digest Toy.fresh Toy.b1) as (_ & H).
  destruct (H Toy.g0 eq_refl) as ((H1 & H2) & _); [reflexivity|].
  split; [exact H1|]. split; [exact H2|].
  now apply (add_block_spec Toy.digest (Toy.ledger []) Toy.b1).
Defined.

(** X6 at the toy chain: index 1 finds block 1, index -1 nothing. *)
Lemma get_block_by_index_spec_witness :
  get_block_by_index (Toy.ledger [Toy.g0; Toy.b1]) 1 = Return (Some Toy.b1)
  /\ get_block_by_index (Toy.ledger [Toy.g0; Toy.b1]) (-1) = Return None.
Proof.
  assert (Hinit : Blockchain_init Toy.digest 10 1 100 = Return Toy.fresh)
    by reflexivity.
  split.
  - destruct (get_block_by_index_spec (Toy.ledger [Toy.g0; Toy.b1]) 1)
      as (_ & _ & H).
    apply H.
    + exact (add_block_invariant Toy.digest Toy.fresh Toy.b1
               (Blockchain_init_invariant Toy.digest 10 1 100 _ Hinit)).
    + split; [|reflexivity]. apply list_elem_of_lookup. now exists 1%nat.
  - apply (get_block_by_index_spec (Toy.ledger [Toy.g0; Toy.b1]) (-1)).
    left. lia.
Defined.

(** X10 at the toy chain: after the common ancestor 2 of scenario D comes
    block 3, which is not the candidate's block 3. *)
Lemma get_blocks_after_fork_spec_witness :
  get_blocks_after_fork (Toy.ledger [Toy.g0; Toy.b1; Toy.b2; Toy.b3]) 2 = [Toy.b3]
  /\ hash Toy.b3 <> hash Toy.b3_other
  /\ get_blocks_after_fork (Toy.ledger [Toy.g0; Toy.b1; Toy.b2; Toy.b3]) (-1) = [].
Proof.
  destruct (get_blocks_after_fork_spec
              (Toy.ledger [Toy.g0; Toy.b1; Toy.b2; Toy.b3]) 2) as (_ & _ & H).
  split; [reflexivity|]. split.
  - apply (H [Toy.g0; Toy.b1; Toy.b2; Toy.b3_other] Toy.b3_other);
      reflexivity.
  - apply (get_blocks_after_fork_spec
             (Toy.ledger [Toy.g0; Toy.b1; Toy.b2; Toy.b3]) (-1)).
    left. lia.
Defined.

(** X11 at the toy chain: of a fork one block longer and two forks two
    blocks longer, [resolve_conflicts] ends on the first of the longest. *)
Lemma resolve_conflicts_spec_witness :
  fst (resolve_conflicts Toy.digest Toy.fresh
         [map to_dict [Toy.g0; Toy.b1];
          map to_dict [Toy.g0; Toy.b1; Toy.b2];
          map to_dict [Toy.g0; Toy.b1; Toy.b2_other]]) = true
  /\ first_longest (longer_and_valid Toy.digest Toy.fresh)
       [[Toy.g0; Toy.b1]; [Toy.g0; Toy.b1; Toy.b2];
        [Toy.g0; Toy.b1; Toy.b2_other]]
       [Toy.g0; Toy.b1; Toy.b2].
Proof.
  split; [reflexivity|].
  destruct (resolve_conflicts_spec Toy.digest Toy.fresh
              [map to_dict [Toy.g0; Toy.b1];
               map to_dict [Toy.g0; Toy.b1; Toy.b2];
               map to_dict [Toy.g0; Toy.b1; Toy.b2_other]]) as (_ & _ & H & _).
  exact (H eq_refl).
Defined.

(** X13 at the toy chain: block 1 offered again is handled for the one
    and not added for the other, and the chain stays as it is. *)
Lemma received_block_handlers_agree_witness :
  exists reason reason',
    fst (handle_received_block Toy.digest (Toy.ledger [Toy.g0; Toy.b1]) Toy.b1)
    = Return (true, reason)
    /\ fst (fork_detection_and_resolution Toy.digest
              (Toy.ledger [Toy.g0; Toy.b1]) Toy.b1)
       = Return (false, reason').
Proof.
  destruct (received_block_handlers_agree Toy.digest
              (Toy.ledger [Toy.g0; Toy.b1]) Toy.b1) as (_ & H).
  destruct H as (handled & reason & added & reason' & H1 & H2 & _ & H3);
    [discriminate | vm_compute; discriminate |].
  destruct H3 as [_ H3].
  destruct H3 as [-> ->];
    [split; [reflexivity | exists Toy.b1; split; reflexivity]|].
  exists reason, reason'. split; [exact H1 | exact H2].
Defined.

(** X17 at the toy chain: a miner at the chain's difficulty appends a
    block that is valid on the genesis block. *)
Lemma mine_single_block_spec_witness :
  exists block,
    fst (mine_single_block Toy.digest JNum 10 101 102
           (Miner_init (add_data Toy.fresh (JNum 1)) "m" None None)
           (add_data Toy.fresh (JNum 1)))
    = Return (Some block)
    /\ is_valid_block Toy.digest (add_data Toy.fresh (JNum 1)) block Toy.g0
       = true.
Proof.
  assert (Hinit : Blockchain_init Toy.digest 10 1 100 = Return Toy.fresh)
    by reflexivity.
  destruct (mine_single_block_spec Toy.digest JNum 10 101 102
              (Miner_init (add_data Toy.fresh (JNum 1)) "m" None None)
              (add_data Toy.fresh (JNum 1))) as (_ & H).
  destruct H as [Hout|(block & latest & Hl & Hr & _ & _ & _ & _ & _ & Hv)];
    [reflexivity
    | exact (run_keeps_invariant Toy.digest (Add_data (JNum 1)) Toy.fresh
               (Blockchain_init_invariant Toy.digest 10 1 100 _ Hinit) I)
    | discriminate
    | vm_compute in Hout; discriminate |].
  injection Hl as <-. exists block. rewrite Hr. split; [reflexivity|].
  apply Hv. vm_compute. split; discriminate.
Defined.

(** X18 at the toy chain: voter v1 voted A and then B in our block and B
    in the competing one, where v2 votes as well; the one report sets the
    first vote of v1 in our chain against the vote in the other. *)
Lemma detect_double_spending_spec_witness :
  detect_double_spending (Toy.ledger [Toy.g0; Toy.bv1]) [Toy.g0; Toy.bv1_other]
  = Done [JDict [("voter_id", JStr "v1");
                 ("our_chain_vote", JStr "A");
                 ("our_chain_block", JNum 1);
                 ("competing_chain_vote", JStr "B");
                 ("competing_chain_block", JNum 1)]].
Proof.
  rewrite (detect_double_spending_spec (Toy.ledger [Toy.g0; Toy.bv1])
             [Toy.g0; Toy.bv1_other]).
  - reflexivity.
  - repeat constructor.
  - repeat constructor.
Defined.

(** X19 at the toy chain: alice votes A in our chain and B in the
    competing one, and nothing is reported. *)
Lemma detect_double_spending_misses_votes_witness :
  detect_double_spending (Toy.after_vote Toy.alice "A" 300 Toy.registered)
    (chain (Toy.after_vote Toy.alice "B" 300 Toy.registered))
  = Done [].
Proof.
  assert (Hvote : forall choice : string,
             choice = "A" \/ choice = "B" ->
             Forall (application_block JNum Toy.sha Toy.dumps)
               (chain (Toy.after_vote Toy.alice choice 300 Toy.registered))).
  { intros choice Hchoice.
    assert (Hshape : forall b,
               b ∈ chain (Toy.after_vote Toy.alice choice 300 Toy.registered) ->
               data b = genesis_data
               \/ data b = JDict [("transactions",
                                   JList [election_data JNum Toy.poll]);
                                  ("miner", JStr "m"); ("timestamp", JNum 201)]
               \/ data b = JDict [("transactions",
                                   JList [Voter_cast_vote JNum Toy.sha Toy.dumps
                                            Toy.alice choice "poll" 300]);
                                  ("miner", JStr "m"); ("timestamp", JNum 300)]).
    { intros b Hb.
      destruct Hchoice as [-> | ->];
        (remember (chain (Toy.after_vote Toy.alice _ 300 Toy.registered)) as c
           eqn:Hc;
         vm_compute in Hc; subst c;
         repeat (apply elem_of_cons in Hb as [-> | Hb];
                 [vm_compute; tauto|]);
         now apply elem_of_nil in Hb). }
    apply Forall_forall. intros b Hb.
    destruct (Hshape b Hb) as [Hd | [Hd | Hd]]; [now left | right..].
    - eexists _, _, _. split; [|exact Hd].
      constructor; [|constructor]. right. left. now exists Toy.poll.
    - eexists _, _, _. split; [|exact Hd].
      constructor; [|constructor]. left. now exists Toy.alice, choice, "poll", 300. }
  apply (detect_double_spending_misses_votes JNum Toy.sha Toy.dumps).
  - apply Hvote. now left.
  - apply Hvote. now right.
Defined.

(** X20 at the toy chain: alice's vote for A is accepted and appended. *)
Lemma Election_cast_vote_spec_witness :
  exists block,
    Toy.after_vote Toy.alice "A" 300 Toy.registered
    = mkBlockchain (chain Toy.registered ++ [block]) 1 []
    /\ index block = 2
    /\ block_txs block
       = Done [Voter_cast_vote JNum Toy.sha Toy.dumps Toy.alice "A" "poll" 300].
Proof.
  assert (Hcb : on_block_mined (miner Toy.poll) = None) by reflexivity.
  pose proof (Election_cast_vote_spec Toy.digest JNum Toy.sha Toy.dumps 10
                300 300 300 Toy.poll Toy.alice "A" Toy.registered Hcb) as H.
  assert (E : Election_cast_vote Toy.digest JNum Toy.sha Toy.dumps 10
                300 300 300 Toy.poll Toy.alice "A" Toy.registered
              = Done (Return (true, Vote_recorded "A"),
                      Toy.after_vote Toy.alice "A" 300 Toy.registered))
    by (vm_compute; reflexivity).
  cbv zeta in H. rewrite E in H.
  destruct H as (_ & _ & _ & _ & block & Hs & Hi & Htxs).
  exists block. split; [exact Hs|]. split; [|exact Htxs].
  rewrite Hi. vm_compute. reflexivity.
Defined.

(** X21 at the toy chain: after alice's vote for A, a voter of her id is
    refused for B, also after bob has voted. *)
Lemma one_vote_per_voter_witness :
  exists message,
    Election_cast_vote Toy.digest JNum Toy.sha Toy.dumps 10 320 320 320
      Toy.poll Toy.alice "B"
      (Toy.after_vote Toy.bob "B" 310
         (Toy.after_vote Toy.alice "A" 300 Toy.registered))
    = Done (Return (false, message),
            Toy.after_vote Toy.bob "B" 310
              (Toy.after_vote Toy.alice "A" 300 Toy.registered)).
Proof.
  assert (Hcb : on_block_mined (miner Toy.poll) = None) by reflexivity.
  assert (E : Election_cast_vote Toy.digest JNum Toy.sha Toy.dumps 10
                300 300 300 Toy.poll Toy.alice "A" Toy.registered
              = Done (Return (true, Vote_recorded "A"),
                      Toy.after_vote Toy.alice "A" 300 Toy.registered))
    by (vm_compute; reflexivity).
  destruct (one_vote_per_voter Toy.digest JNum Toy.sha Toy.dumps 10
              300 300 300 Toy.poll Toy.alice "A" Toy.registered
              (Toy.after_vote Toy.alice "A" 300 Toy.registered)
              (Vote_recorded "A") Hcb E) as [_ H].
  apply (H 10%nat 320 320 320 Toy.poll Toy.alice "B"
           (Toy.after_vote Toy.bob "B" 310
              (Toy.after_vote Toy.alice "A" 300 Toy.registered))
           (drop 3 (chain (Toy.after_vote Toy.bob "B" 310
                             (Toy.after_vote Toy.alice "A" 300 Toy.registered)))));
    [reflexivity | reflexivity | vm_compute; reflexivity].
Defined.

(** X22 at the toy chain: bob's vote for B after alice's for A raises the
    count of B from 0 to 1 and leaves the count of A. *)
Lemma accepted_vote_is_counted_witness :
  exists results',
    get_results Toy.poll
      (Toy.after_vote Toy.bob "B" 310
         (Toy.after_vote Toy.alice "A" 300 Toy.registered))
    = Done results'
    /\ votes_for "B" results' = Some 1
    /\ votes_for "A" results' = Some 1.
Proof.
  assert (Hcb : on_block_mined (miner Toy.poll) = None) by reflexivity.
  assert (Hq : pending_data (Toy.after_vote Toy.alice "A" 300 Toy.registered)
               = []) by (vm_compute; reflexivity).
  assert (E : Election_cast_vote Toy.digest JNum Toy.sha Toy.dumps 10
                310 310 310 Toy.poll Toy.bob "B"
                (Toy.after_vote Toy.alice "A" 300 Toy.registered)
              = Done (Return (true, Vote_recorded "B"),
                      Toy.after_vote Toy.bob "B" 310
                        (Toy.after_vote Toy.alice "A" 300 Toy.registered)))
    by (vm_compute; reflexivity).
  assert (Hbefore : get_results Toy.poll
                      (Toy.after_vote Toy.alice "A" 300 Toy.registered)
                    = Done [("A", 1); ("B", 0)]) by (vm_compute; reflexivity).
  destruct (accepted_vote_is_counted Toy.digest JNum Toy.sha Toy.dumps 10
              310 310 310 Toy.poll Toy.bob "B" _ _ _ _ Hcb Hq E Hbefore)
    as (n & results' & Hn & Hres & HB & Hother).
  injection Hn as <-. exists results'. split; [exact Hres|].
  split; [exact HB|]. rewrite Hother; [reflexivity | discriminate].
Defined.

(** X23 at the toy chain: the tally after the votes of alice and bob
    records one voter for each of the two candidates. *)
Lemma get_results_spec_witness :
  exists voter_votes : list (json * json),
    entries_for "A" voter_votes = 1 /\ entries_for "B" voter_votes = 1
    /\ "A" ∈ candidates Toy.poll.
Proof.
  assert (Hres : get_results Toy.poll
                   (Toy.after_vote Toy.bob "B" 310
                      (Toy.after_vote Toy.alice "A" 300 Toy.registered))
                 = Done [("A", 1); ("B", 1)]) by (vm_compute; reflexivity).
  destruct (get_results_spec Toy.poll _ _ Hres)
    as (Hkeys & voter_votes & Hcount & _).
  exists voter_votes.
  split; [symmetry; now apply Hcount|]. split; [symmetry; now apply Hcount|].
  apply Hkeys. now exists 1.
Defined.

(** X24 at the toy chain: from the constructor through the registration
    of the election to alice's vote. *)
Lemma voting_layer_keeps_its_chain_witness :
  voting_chain Toy.digest JNum Toy.sha Toy.dumps
    (Toy.after_vote Toy.alice "A" 300 Toy.registered).
Proof.
  destruct (voting_layer_keeps_its_chain Toy.digest JNum Toy.sha Toy.dumps)
    as (Hinit & Hregister & Hvote & _).
  assert (Hfresh : voting_chain Toy.digest JNum Toy.sha Toy.dumps Toy.fresh)
    by (apply (Hinit 10%nat 1 100); vm_compute; reflexivity).
  destruct (Hregister 10%nat "poll" "m" 200 201 202 "Lunch" ["A"; "B"]
              Toy.fresh None Toy.poll Toy.registered Hfresh)
    as (Hregistered & _);
    [simpl; lia | discriminate | vm_compute; reflexivity |].
  apply (Hvote 10%nat 300 300 300 Toy.poll Toy.alice "A" Toy.registered
           (true, Vote_recorded "A"));
    [exact Hregistered | reflexivity | simpl; lia | vm_compute; reflexivity].
Defined.

(** A transaction that is a number stops [detect_double_spending]: the
    test ['voter_id' in tx] raises [TypeError]. *)
Example detect_double_spending_raises :
  detect_double_spending
    (Toy.ledger [Toy.g0;
                 Toy.mined_block 1 1 101
                   (JDict [("transactions", JList [JNum 5])]) (hash Toy.g0)])
    [Toy.g0]
  = Failed TypeError.
Proof. vm_compute. reflexivity. Qed.

(** Two votes of the election without a voter id stop [get_results]: the
    second is a double vote of the voter [None], and the warning takes
    [voter_id[:8]]. *)
Example get_results_raises :
  let tx := JDict [("type", JStr "vote"); ("election_id", JStr "poll");
                   ("candidate", JStr "A")] in
  get_results Toy.poll
    (Toy.ledger [Toy.g0;
                 Toy.mined_block 1 1 101
                   (JDict [("transactions", JList [tx; tx])]) (hash Toy.g0)])
  = Failed TypeError.
Proof. vm_compute. reflexivity. Qed.

(** X1 at the toy chain: block 1 comes back from its record; the record
    with the payload [null] is loaded as the block mined over the empty
    list, which is valid, and is not written out as it came in. *)
Lemma block_dict_round_trip_witness :
  from_dict Toy.digest (to_dict Toy.b1) = Toy.b1
  /\ to_dict (from_dict Toy.digest Toy.null_record) <> Toy.null_record
  /\ d_data (to_dict (from_dict Toy.digest Toy.null_record)) = JList []
  /\ is_valid Toy.digest (from_dict Toy.digest Toy.null_record) = true.
Proof.
  destruct (block_dict_round_trip Toy.digest Toy.b1 Toy.null_record)
    as (Hout & Hsame & Hback & _ & Hvalid).
  split; [apply Hback; vm_compute; discriminate|].
  split; [intros H; now apply Hsame in H|].
  split; [now rewrite Hout|].
  apply Hvalid. vm_compute. reflexivity.
Defined.

(** X9 at the toy chain: the chain [g0; b1] is written and loaded again as
    it was; the records of [g0] and of block 1 with the payload [null] are
    loaded as a chain that is written out with the empty list. *)
Lemma blockchain_dict_round_trip_witness :
  Blockchain_from_dict Toy.digest 10 100
    (Blockchain_to_dict (Toy.ledger [Toy.g0; Toy.b1])) 1
  = Return (Toy.ledger [Toy.g0; Toy.b1])
  /\ (let! loaded := Blockchain_from_dict Toy.digest 10 100
                        [to_dict Toy.g0; Toy.null_record] 1 in
      Return (Blockchain_to_dict loaded))
     = Return [to_dict Toy.g0; to_dict Toy.b1_empty].
Proof.
  pose proof (blockchain_dict_round_trip Toy.digest 10 100 1
                (Toy.ledger [Toy.g0; Toy.b1])
                [to_dict Toy.g0; Toy.null_record]) as [Hload Hback].
  split.
  - destruct (Blockchain_from_dict Toy.digest 10 100
                (Blockchain_to_dict (Toy.ledger [Toy.g0; Toy.b1])) 1)
      as [[c d q]|err|] eqn:E;
      [|contradiction | vm_compute in Hback; discriminate].
    destruct Hback as (Hq & Hd & Hchain). simpl in Hq, Hd.
    destruct Hchain as [Hc _];
      [repeat constructor; vm_compute; discriminate|].
    simpl in Hc. now subst.
  - destruct (Blockchain_from_dict Toy.digest 10 100
                [to_dict Toy.g0; Toy.null_record] 1)
      as [loaded|err|] eqn:E;
      [|contradiction | vm_compute in Hload; discriminate].
    destruct Hload as (_ & Hout & _). simpl. now rewrite Hout.
Defined.
